(** * DeepHyper glue code: Balsam evaluator, bAbI training script, lazy problem namespace

    A shallow embedding of
    - [deephyper/evaluators/_balsam.py]  (module [Balsam]),
    - [benchmarks/b3/babi_rnn.py]        (modules [BabiRnn] and [Stories]),
    - [deephyper/problem/__init__.py]    (module [Problem]),
    together with the properties their specification states about them and
    further properties of the same code.

    Python dictionaries indexed by strings are [gmap string _]; a dictionary
    whose iteration order the code relies on is an association list.  Code
    that raises returns an [outcome]; code that touches the database, the
    file system or the interpreter's module table threads an explicit world
    through a small state-and-exception monad. *)

From Stdlib Require Import ZArith QArith Qcanon String Ascii List Bool Lia.
From stdpp Require Import gmap strings list fin_maps pretty sorting.

Local Open Scope string_scope.
Local Open Scope Z_scope.

(** ** Python values, exceptions and effects *)

(** The values a configuration binds its parameters to.  A float is kept as
    the exact rational it denotes. *)
Inductive value : Type :=
| VNone
| VBool (b : bool)
| VInt (n : Z)
| VFloat (q : Qc)
| VStr (s : string).

(** The exceptions the embedded code can meet.  [DoesNotExist] is the
    model-specific subclass of [ObjectDoesNotExist] that a manager's [get]
    raises; an [except ObjectDoesNotExist] clause catches both. *)
Inductive exn : Type :=
| ObjectDoesNotExist
| DoesNotExist
| MultipleObjectsReturned
| OperationalError (msg : string)
| KeyError (key : string)
| TypeError
| ValueError (msg : string)
| FileNotFoundError (path : string)
| ModuleNotFoundError (name : string)
| AttributeError (name : string).

Definition is_ObjectDoesNotExist (e : exn) : bool :=
  match e with
  | ObjectDoesNotExist | DoesNotExist => true
  | _ => false
  end.

Inductive outcome (A : Type) : Type :=
| Return (a : A)
| Raise (e : exn).
Arguments Return {A} a.
Arguments Raise {A} e.

(** State and exceptions: a raise keeps the effects made before it. *)
Definition M (S A : Type) : Type := S -> outcome A * S.

Definition ret {S A} (a : A) : M S A := fun s => (Return a, s).
Definition raise {S A} (e : exn) : M S A := fun s => (Raise e, s).
Definition bind {S A B} (m : M S A) (k : A -> M S B) : M S B :=
  fun s => match m s with
           | (Return a, s') => k a s'
           | (Raise e, s') => (Raise e, s')
           end.
(** [try: m except h]: the handler sees the exception and the state in which
    it was raised. *)
Definition try_except {S A} (m : M S A) (h : exn -> M S A) : M S A :=
  fun s => match m s with
           | (Return a, s') => (Return a, s')
           | (Raise e, s') => h e s'
           end.
Definition get {S} : M S S := fun s => (Return s, s).
Definition modify {S} (f : S -> S) : M S unit := fun s => (Return tt, f s).

Notation "x <-- m ; k" := (bind m (fun x => k))
  (at level 20, m at level 100, k at level 200, only parsing).
Notation "m ;; k" := (bind m (fun _ => k))
  (at level 100, k at level 200, only parsing, right associativity).

(** A dictionary with insertion order: [d[k] = v] rebinds [k] in place when
    it is present and appends it otherwise. *)
Fixpoint dict_set {V} (k : string) (v : V) (d : list (string * V)) : list (string * V) :=
  match d with
  | [] => [(k, v)]
  | (k', v') :: d' =>
      if String.eqb k' k then (k, v) :: d' else (k', v') :: dict_set k v d'
  end.

Fixpoint dict_get {V} (k : string) (d : list (string * V)) : option V :=
  match d with
  | [] => None
  | (k', v') :: d' => if String.eqb k' k then Some v' else dict_get k d'
  end.

Definition dict_keys {V} (d : list (string * V)) : list string := map fst d.


(** [s.split(sep)] for a separator of one character. *)
Fixpoint split (sep : ascii) (s : string) : list string :=
  match s with
  | EmptyString => [EmptyString]
  | String c s' =>
      if Ascii.eqb c sep then EmptyString :: split sep s'
      else match split sep s' with
           | [] => [String c EmptyString]
           | part :: parts => String c part :: parts
           end
  end.

(** ** [deephyper/evaluators/_balsam.py] *)

Module Balsam.

(** What the evaluator reads of the function it runs remotely:
    [__module__] and [__name__]. *)
Record RunFunction : Type := {
  fn_module : string;
  fn_name : string
}.

(** A row of Balsam's [ApplicationDefinition] table. *)
Record AppDef : Type := {
  app_name : string;
  app_executable : string
}.

(** A job of the launcher: the keyword arguments [dag.add_job] was called
    with ([job_resources] holds [**resources]) and the files of its working
    directory. *)
Record BalsamJob : Type := {
  job_name : string;
  job_workflow : string;
  job_application : string;
  job_args : string;
  job_environ_vars : string;
  job_resources : list (string * value);
  job_workdir : gmap string string
}.

(** One access of the database, as the ORM performs it. *)
Inductive access : Type :=
| Lookup (name : string)
| Save (name : string)
| AddJob (name : string).

(** The world outside the evaluator: the dictionaries of the calling process
    by identity (a configuration is handed over as a reference to one), the
    two tables the evaluator touches, whether the database answers at all,
    [dag.current_job], how many [transaction.atomic] blocks enclose the
    running code, every database access made so far with the depth it ran
    at, and the log. *)
Record World : Type := {
  objects : gmap positive (gmap string value);
  apps : list AppDef;
  jobs : list BalsamJob;
  db_error : option string;
  current_job : option BalsamJob;
  atomic_depth : nat;
  accesses : list (access * nat);
  logs : list string
}.

Definition set_apps (l : list AppDef) (w : World) : World :=
  {| objects := objects w; apps := l; jobs := jobs w; db_error := db_error w;
     current_job := current_job w; atomic_depth := atomic_depth w;
     accesses := accesses w; logs := logs w |}.
Definition set_jobs (l : list BalsamJob) (w : World) : World :=
  {| objects := objects w; apps := apps w; jobs := l; db_error := db_error w;
     current_job := current_job w; atomic_depth := atomic_depth w;
     accesses := accesses w; logs := logs w |}.
Definition set_db_error (failure : option string) (w : World) : World :=
  {| objects := objects w; apps := apps w; jobs := jobs w; db_error := failure;
     current_job := current_job w; atomic_depth := atomic_depth w;
     accesses := accesses w; logs := logs w |}.
Definition set_accesses (l : list (access * nat)) (w : World) : World :=
  {| objects := objects w; apps := apps w; jobs := jobs w; db_error := db_error w;
     current_job := current_job w; atomic_depth := atomic_depth w;
     accesses := l; logs := logs w |}.
Definition set_logs (l : list string) (w : World) : World :=
  {| objects := objects w; apps := apps w; jobs := jobs w; db_error := db_error w;
     current_job := current_job w; atomic_depth := atomic_depth w;
     accesses := accesses w; logs := l |}.

(** [logger.info] and [logger.debug]. *)
Definition log (msg : string) : M World unit :=
  modify (fun w => set_logs (logs w ++ [msg]) w).

(** Every query goes through here: it is recorded with the transaction
    depth it runs at, and fails when the database does not answer. *)
Definition db_access (a : access) : M World unit :=
  modify (fun w => set_accesses (accesses w ++ [(a, atomic_depth w)]) w);;
  w <-- get;
  match db_error w with
  | Some msg => raise (OperationalError msg)
  | None => ret tt
  end.

Definition named (n : string) (a : AppDef) : bool := String.eqb (app_name a) n.

(** [AppDef.objects.get(name=n)]: the single row of that name. *)
Definition objects_get (n : string) : M World AppDef :=
  db_access (Lookup n);;
  w <-- get;
  match List.filter (named n) (apps w) with
  | [] => raise DoesNotExist
  | [a] => ret a
  | _ :: _ :: _ => raise MultipleObjectsReturned
  end.

(** [app.save()] on a fresh object: one more row. *)
Definition save (a : AppDef) : M World unit :=
  db_access (Save (app_name a));;
  modify (fun w => set_apps (apps w ++ [a]) w).

(** [dag.add_job(name=.., workflow=.., application=.., args=..,
    environ_vars=.., **resources)]. *)
Definition add_job (name workflow application args environ_vars : string)
    (resources : list (string * value)) : M World BalsamJob :=
  let job := {| job_name := name; job_workflow := workflow;
                job_application := application; job_args := args;
                job_environ_vars := environ_vars; job_resources := resources;
                job_workdir := ∅ |} in
  db_access (AddJob name);;
  modify (fun w => set_jobs (jobs w ++ [job]) w);;
  ret job.

(** [job.read_file_in_workdir(fname)]. *)
Definition read_file_in_workdir (job : BalsamJob) (fname : string) : outcome string :=
  match job_workdir job !! fname with
  | Some text => Return text
  | None => Raise (FileNotFoundError fname)
  end.

Definition lift {A} (o : outcome A) : M World A := fun w => (o, w).

(** [try: m / except ObjectDoesNotExist: h / else: els]. *)
Definition try_except_else {A B} (m : M World A) (h : M World B) (els : A -> M World B)
  : M World B :=
  fun w => match m w with
           | (Return a, w') => els a w'
           | (Raise e, w') => if is_ObjectDoesNotExist e then h w' else (Raise e, w')
           end.

(** The base class [Evaluator] is not among the sources: the class
    attributes and helpers that [BalsamEvaluator] inherits and reads are the
    members of an interface. *)
Class Evaluator : Type := {
  WORKERS_PER_NODE : Z;
  PYTHON_EXE : string;
  KERAS_BACKEND : string;
  FAIL_RETURN_VALUE : Qc;
  _runner_executable : string;
  encode : gmap string value -> string;
  _parse : string -> outcome Qc
}.

(** What the module takes from Balsam and from the environment:
    [job.cute_id], a property of the job model, and
    [LAUNCHER_NODES = int(os.environ.get('BALSAM_LAUNCHER_NODES', 1))],
    read once at import. *)
Class Launcher : Type := {
  cute_id : BalsamJob -> string;
  LAUNCHER_NODES : Z
}.

Section Evaluator.

Context {base : Evaluator} {launcher : Launcher}.

(** The attributes of a [BalsamEvaluator].  [appName] does not exist before
    [_init_app] binds it; [transaction_context] not before the constructor's
    last statement. *)
Record BalsamEvaluator : Type := {
  _run_function : RunFunction;
  cache_key : option string;
  counter : nat;
  id_key_map : gmap string string;
  num_workers : Z;
  appName : option string;
  transaction_context : bool
}.

Definition set_appName (n : string) (self : BalsamEvaluator) : BalsamEvaluator :=
  {| _run_function := _run_function self; cache_key := cache_key self;
     counter := counter self; id_key_map := id_key_map self;
     num_workers := num_workers self; appName := Some n;
     transaction_context := transaction_context self |}.

Definition set_transaction_context (self : BalsamEvaluator) : BalsamEvaluator :=
  {| _run_function := _run_function self; cache_key := cache_key self;
     counter := counter self; id_key_map := id_key_map self;
     num_workers := num_workers self; appName := appName self;
     transaction_context := true |}.

(** ['.'.join((moduleName, funcName))]. *)
Definition app_name_of (f : RunFunction) : string :=
  fn_module f ++ "." ++ fn_name f.

(** The [except ObjectDoesNotExist] branch of [_init_app]. *)
Definition init_app_create (n : string) : M World unit :=
  log ("ApplicationDefinition did not exist for " ++ n
       ++ "; creating new app in BalsamDB");;
  save {| app_name := n; app_executable := _runner_executable |}.

(** The [else] branch of [_init_app]. *)
Definition init_app_existing (n : string) (app : AppDef) : M World unit :=
  log ("BalsamEvaluator will use existing app " ++ n ++ ": " ++ app_executable app).

Definition _init_app (self : BalsamEvaluator) : M World BalsamEvaluator :=
  let funcName := fn_name (_run_function self) in
  let moduleName := fn_module (_run_function self) in
  let n := moduleName ++ "." ++ funcName in
  let self := set_appName n self in
  try_except_else (objects_get n) (init_app_create n) (init_app_existing n);;
  ret self.

(** Modelled from the spec: [Evaluator.__init__] of the base class, which is
    not among the sources; it keeps the run function and the cache key and
    starts the "simple task counter used to name jobs". *)
Definition Evaluator_init (run_function : RunFunction) (key : option string)
  : BalsamEvaluator :=
  {| _run_function := run_function; cache_key := key; counter := 0%nat;
     id_key_map := ∅; num_workers := 0; appName := None;
     transaction_context := false |}.

(** [BalsamEvaluator.__init__]. *)
Definition __init__ (run_function : RunFunction) (key : option string)
  : M World BalsamEvaluator :=
  let self := Evaluator_init run_function key in
  let self := {| _run_function := _run_function self; cache_key := cache_key self;
                 counter := counter self; id_key_map := ∅;
                 num_workers := LAUNCHER_NODES * WORKERS_PER_NODE;
                 appName := appName self;
                 transaction_context := transaction_context self |} in
  log "Balsam Evaluator instantiated";;
  log ("Backend runs will use Python: " ++ PYTHON_EXE);;
  self <-- _init_app self;
  log ("Backend runs will execute function: " ++ default "" (appName self));;
  ret (set_transaction_context self).

(** The dictionary literal of [_eval_exec]. *)
Definition default_resources : list (string * value) :=
  [ ("num_nodes", VInt 1);
    ("ranks_per_node", VInt 1);
    ("threads_per_rank", VInt 64);
    ("node_packing_count", VInt WORKERS_PER_NODE) ].

(** One turn of [for key in resources: if key in x: resources[key] = x[key]]. *)
Definition override (x : gmap string value) (resources : list (string * value))
    (key : string) : list (string * value) :=
  match x !! key with
  | Some v => dict_set key v resources
  | None => resources
  end.

Definition derive_resources (x : gmap string value) : list (string * value) :=
  fold_left (override x) (dict_keys default_resources) default_resources.

(** A [FutureTask]: the job, its two callbacks and the arguments. *)
Record FutureTask : Type := {
  task : BalsamJob;
  done_callback : BalsamJob -> unit -> M World Qc;
  fail_callback : BalsamJob -> M World Qc;
  task_args : string
}.

Definition _on_done (job : BalsamJob) (process_data : unit) : M World Qc :=
  output <-- lift (read_file_in_workdir job (job_name job ++ ".out"));
  lift (_parse output).

Definition _on_fail (job : BalsamJob) : M World Qc :=
  log ("Task " ++ cute_id job ++ " failed; setting objective as float_max");;
  ret FAIL_RETURN_VALUE.

Definition attr_appName (self : BalsamEvaluator) : M World string :=
  match appName self with
  | Some n => ret n
  | None => raise (AttributeError "appName")
  end.

(** The dictionary a reference stands for. *)
Definition deref (x : positive) : M World (gmap string value) :=
  w <-- get;
  match objects w !! x with
  | Some d => ret d
  | None => raise TypeError
  end.

(** [x] is a reference: every [key in x], [x[key]] and [self.encode(x)]
    reads the dictionary it points to, and no statement writes to it. *)
Definition _eval_exec (self : BalsamEvaluator) (x : positive)
  : M World FutureTask :=
  x <-- deref x;
  let jobname := "task" ++ pretty (counter self) in
  let args := "'" ++ encode x ++ "'" in
  let envs := "KERAS_BACKEND=" ++ KERAS_BACKEND in
  let resources := derive_resources x in
  w <-- get;
  wf <-- match current_job w with
         | Some j => ret (job_workflow j)
         | None => attr_appName self
         end;
  application <-- attr_appName self;
  task <-- add_job jobname wf application args envs resources;
  log ("Created job " ++ jobname);;
  log ("Args: " ++ args);;
  ret {| task := task; done_callback := _on_done; fail_callback := _on_fail;
         task_args := args |}.

(** *** The accesses of [_init_app], one at a time

    [_init_app] makes its accesses one at a time: the lookup of the [try]
    body, then, in the handler, the save.  A constructor is in one of these
    phases; [init_app_step] performs the access of the phase it is in. *)
Inductive phase : Type :=
| Checking
| Creating
| Finished
| Crashed (e : exn).

Definition init_app_step (n : string) (ph : phase) (w : World) : phase * World :=
  match ph with
  | Checking =>
      match objects_get n w with
      | (Return app, w') => (Finished, snd (init_app_existing n app w'))
      | (Raise e, w') =>
          if is_ObjectDoesNotExist e then (Creating, w') else (Crashed e, w')
      end
  | Creating =>
      match init_app_create n w with
      | (Return _, w') => (Finished, w')
      | (Raise e, w') => (Crashed e, w')
      end
  | Finished | Crashed _ => (ph, w)
  end.

(** *** The calling process

    What a search driver does with this class on its one thread: it calls
    the constructor, or hands a configuration to an evaluator it has
    constructed (the base class has set the task counter to [c] by then).
    A constructor reaches the database once or twice, for the lookup and for
    the save of [_init_app], and the process is followed from one access to
    the next: [New] enters the constructor and runs it up to its lookup,
    [Access] lets the constructor under way make its next access and run on
    to the one after it, or to its end.  Before any access the database may
    stop answering, or answer again.  An evaluator object exists only once
    its constructor has returned, and nothing else runs on the thread while
    a constructor is under way. *)
Inductive op : Type :=
| New (f : RunFunction) (key : option string)
| Access
| Submit (i : nat) (c : nat) (x : positive)
| Outage (failure : option string).

Record Process : Type := {
  world : World;
  evaluators : list BalsamEvaluator;
  futures : list FutureTask;
  constructing : option (BalsamEvaluator * phase)
}.

Definition set_counter (c : nat) (self : BalsamEvaluator) : BalsamEvaluator :=
  {| _run_function := _run_function self; cache_key := cache_key self;
     counter := c; id_key_map := id_key_map self;
     num_workers := num_workers self; appName := appName self;
     transaction_context := transaction_context self |}.

(** [__init__] as far as the [try] of [_init_app]. *)
Definition init_enter (run_function : RunFunction) (key : option string)
  : M World BalsamEvaluator :=
  let self := Evaluator_init run_function key in
  let self := {| _run_function := _run_function self; cache_key := cache_key self;
                 counter := counter self; id_key_map := ∅;
                 num_workers := LAUNCHER_NODES * WORKERS_PER_NODE;
                 appName := appName self;
                 transaction_context := transaction_context self |} in
  log "Balsam Evaluator instantiated";;
  log ("Backend runs will use Python: " ++ PYTHON_EXE);;
  ret (set_appName (app_name_of run_function) self).

(** [__init__] from the return of [_init_app] on. *)
Definition init_leave (self : BalsamEvaluator) : M World BalsamEvaluator :=
  log ("Backend runs will execute function: " ++ default "" (appName self));;
  ret (set_transaction_context self).

Definition step (p : Process) (o : op) : Process :=
  match o, constructing p with
  | New f key, None =>
      match init_enter f key (world p) with
      | (Return self, w) =>
          {| world := w; evaluators := evaluators p; futures := futures p;
             constructing := Some (self, Checking) |}
      | (Raise _, w) =>
          {| world := w; evaluators := evaluators p; futures := futures p;
             constructing := None |}
      end
  | Access, Some (self, ph) =>
      match init_app_step (app_name_of (_run_function self)) ph (world p) with
      | (Finished, w) =>
          match init_leave self w with
          | (Return e, w') =>
              {| world := w'; evaluators := evaluators p ++ [e];
                 futures := futures p; constructing := None |}
          | (Raise _, w') =>
              {| world := w'; evaluators := evaluators p; futures := futures p;
                 constructing := None |}
          end
      | (Crashed _, w) =>
          {| world := w; evaluators := evaluators p; futures := futures p;
             constructing := None |}
      | (ph', w) =>
          {| world := w; evaluators := evaluators p; futures := futures p;
             constructing := Some (self, ph') |}
      end
  | Submit i c x, None =>
      match evaluators p !! i with
      | Some e =>
          match _eval_exec (set_counter c e) x (world p) with
          | (Return fut, w) =>
              {| world := w; evaluators := evaluators p; futures := futures p ++ [fut];
                 constructing := None |}
          | (Raise _, w) =>
              {| world := w; evaluators := evaluators p; futures := futures p;
                 constructing := None |}
          end
      | None => p
      end
  | Outage failure, _ =>
      {| world := set_db_error failure (world p); evaluators := evaluators p;
         futures := futures p; constructing := constructing p |}
  | _, _ => p
  end.

Definition run_process (ops : list op) (p : Process) : Process :=
  fold_left step ops p.

Definition start (w : World) : Process :=
  {| world := w; evaluators := []; futures := []; constructing := None |}.

(** *** Constructors whose database accesses interleave

    Constructor [i] of [names] makes its next access, for each [i] of the
    schedule in turn. *)
Fixpoint interleave (names : list string) (schedule : list nat)
    (phases : list phase) (w : World) : list phase * World :=
  match schedule with
  | [] => (phases, w)
  | i :: schedule' =>
      match names !! i, phases !! i with
      | Some n, Some ph =>
          let '(ph', w') := init_app_step n ph w in
          interleave names schedule' (<[i := ph']> phases) w'
      | _, _ => interleave names schedule' phases w
      end
  end.

(** How many rows of the table carry the name [n]. *)
Definition registrations (n : string) (w : World) : nat :=
  length (List.filter (named n) (apps w)).

(** How many times a row named [n] was saved. *)
Definition is_save (n : string) (a : access * nat) : bool :=
  match fst a with
  | Save n' => String.eqb n' n
  | _ => false
  end.
Definition creations (n : string) (w : World) : nat :=
  length (List.filter (is_save n) (accesses w)).

Definition fresh_world : World :=
  {| objects := ∅; apps := []; jobs := []; db_error := None; current_job := None;
     atomic_depth := 0; accesses := []; logs := [] |}.

(** *** Properties of the submission path *)

Definition resource_keys : list string :=
  ["num_nodes"; "ranks_per_node"; "threads_per_rank"; "node_packing_count"].

Lemma derive_resources_unfold x :
  derive_resources x =
  override x (override x (override x (override x default_resources
    "num_nodes") "ranks_per_node") "threads_per_rank") "node_packing_count".
Proof. reflexivity. Qed.

Lemma derive_resources_defaults (x : gmap string value) :
  (∀ k, k ∈ resource_keys → x !! k = None) →
  derive_resources x = default_resources.
Proof.
  intros Hx. rewrite derive_resources_unfold. unfold override.
  rewrite !Hx; [reflexivity | ..]; unfold resource_keys; set_solver.
Qed.

Lemma derive_resources_override (x : gmap string value) k v :
  k ∈ resource_keys → x !! k = Some v →
  dict_get k (derive_resources x) = Some v.
Proof.
  intros Hk Hv. rewrite derive_resources_unfold. unfold override, resource_keys in *.
  repeat (apply elem_of_cons in Hk as [-> | Hk]); [ .. | inversion Hk];
    rewrite Hv;
    repeat match goal with |- context [x !! ?s] => destruct (x !! s) end;
    reflexivity.
Qed.

Lemma derive_resources_keep (x : gmap string value) k :
  x !! k = None →
  dict_get k (derive_resources x) = dict_get k default_resources.
Proof.
  intros Hk. rewrite derive_resources_unfold. unfold override.
  assert (Hset : ∀ k' v (d : list (string * value)),
             x !! k' = Some v → dict_get k (dict_set k' v d) = dict_get k d).
  { intros k' v d Hk'. assert (k' ≠ k) by congruence.
    induction d as [| [k0 v0] d IH]; simpl.
    - destruct (String.eqb_spec k' k); congruence.
    - destruct (String.eqb_spec k0 k'); simpl.
      + subst. destruct (String.eqb_spec k' k); congruence.
      + destruct (String.eqb_spec k0 k); congruence. }
  repeat match goal with
         | |- context [match x !! ?s with _ => _ end] =>
             let E := fresh "E" in destruct (x !! s) eqn:E
         end;
    repeat (erewrite Hset by eassumption); reflexivity.
Qed.

Lemma db_access_up a w :
  db_error w = None →
  db_access a w = (Return tt, set_accesses (accesses w ++ [(a, atomic_depth w)]) w).
Proof. intros H. unfold db_access, bind, modify, get. simpl. rewrite H. reflexivity. Qed.

Lemma db_access_down a w msg :
  db_error w = Some msg →
  db_access a w
  = (Raise (OperationalError msg),
     set_accesses (accesses w ++ [(a, atomic_depth w)]) w).
Proof. intros H. unfold db_access, bind, modify, get. simpl. rewrite H. reflexivity. Qed.

Lemma eval_exec_returns self x xv w n :
  objects w !! x = Some xv → appName self = Some n → db_error w = None →
  ∃ fut w',
    _eval_exec self x w = (Return fut, w')
    ∧ jobs w' = (jobs w ++ [task fut])%list
    ∧ apps w' = apps w
    ∧ objects w' = objects w
    ∧ accesses w'
      = (accesses w ++ [(AddJob (job_name (task fut)), atomic_depth w)])%list
    ∧ job_application (task fut) = n
    ∧ job_args (task fut) = "'" ++ encode xv ++ "'"
    ∧ job_resources (task fut) = derive_resources xv.
Proof.
  intros Hx Hn Hdb. unfold _eval_exec, deref, attr_appName, add_job. rewrite Hn.
  unfold bind at 1. unfold bind at 1. unfold get at 1. rewrite Hx.
  unfold ret at 1. unfold bind at 1. unfold get at 1.
  destruct (current_job w) as [j |]; unfold bind, ret, log, modify;
    rewrite (db_access_up _ _ Hdb); simpl;
    eexists _, _; (split; [reflexivity |]); simpl; auto 8.
Qed.

Lemma eval_exec_down self x xv w n msg :
  objects w !! x = Some xv → appName self = Some n → db_error w = Some msg →
  ∃ name,
    _eval_exec self x w
    = (Raise (OperationalError msg),
       set_accesses (accesses w ++ [(AddJob name, atomic_depth w)]) w).
Proof.
  intros Hx Hn Hdb. unfold _eval_exec, deref, attr_appName, add_job. rewrite Hn.
  unfold bind at 1. unfold bind at 1. unfold get at 1. rewrite Hx.
  unfold ret at 1. unfold bind at 1. unfold get at 1.
  destruct (current_job w) as [j |]; unfold bind, ret;
    rewrite (db_access_down _ _ _ Hdb); eexists; reflexivity.
Qed.

Lemma eval_exec_unregistered self x xv w :
  objects w !! x = Some xv → appName self = None →
  _eval_exec self x w = (Raise (AttributeError "appName"), w).
Proof.
  intros Hx Hn. unfold _eval_exec, deref, attr_appName. rewrite Hn.
  unfold bind at 1. unfold bind at 1. unfold get at 1. rewrite Hx.
  unfold ret at 1. unfold bind at 1. unfold get at 1.
  destruct (current_job w) as [j |]; reflexivity.
Qed.

Lemma eval_exec_dangling self x w :
  objects w !! x = None →
  _eval_exec self x w = (Raise TypeError, w).
Proof.
  intros Hx. unfold _eval_exec, deref.
  unfold bind at 1. unfold bind at 1. unfold get at 1. rewrite Hx. reflexivity.
Qed.

(** *** The four ways [_init_app] can go *)

Definition lookup_recorded (n : string) (w : World) : World :=
  set_accesses (accesses w ++ [(Lookup n, atomic_depth w)]) w.

Lemma objects_get_down n w msg :
  db_error w = Some msg →
  objects_get n w = (Raise (OperationalError msg), lookup_recorded n w).
Proof.
  intros H. unfold objects_get. unfold bind at 1.
  rewrite (db_access_down _ _ _ H). reflexivity.
Qed.

Lemma objects_get_up n w :
  db_error w = None →
  objects_get n w =
  (match List.filter (named n) (apps w) with
   | [] => Raise DoesNotExist
   | [a] => Return a
   | _ :: _ :: _ => Raise MultipleObjectsReturned
   end, lookup_recorded n w).
Proof.
  intros H. unfold objects_get. unfold bind at 1.
  rewrite (db_access_up _ _ H). unfold bind, get. cbn [apps set_accesses].
  destruct (List.filter (named n) (apps w)) as [| a [| b l]]; reflexivity.
Qed.

Definition created (n : string) (w : World) : World :=
  let w1 := lookup_recorded n w in
  let w2 := set_logs (logs w1 ++ ["ApplicationDefinition did not exist for " ++ n
                                    ++ "; creating new app in BalsamDB"]) w1 in
  let w3 := set_accesses (accesses w2 ++ [(Save n, atomic_depth w2)]) w2 in
  set_apps (apps w3 ++ [{| app_name := n; app_executable := _runner_executable |}]) w3.

Definition reused (n : string) (a : AppDef) (w : World) : World :=
  let w1 := lookup_recorded n w in
  set_logs (logs w1 ++ ["BalsamEvaluator will use existing app " ++ n ++ ": "
                          ++ app_executable a]) w1.

Lemma init_app_down self w msg :
  db_error w = Some msg →
  _init_app self w
  = (Raise (OperationalError msg),
     lookup_recorded (app_name_of (_run_function self)) w).
Proof.
  intros H. unfold _init_app, app_name_of. unfold bind, try_except_else.
  rewrite (objects_get_down _ _ _ H). reflexivity.
Qed.

Lemma init_app_absent self w :
  let n := app_name_of (_run_function self) in
  db_error w = None → List.filter (named n) (apps w) = [] →
  _init_app self w = (Return (set_appName n self), created n w).
Proof.
  intros n H Hf. unfold _init_app. fold (app_name_of (_run_function self)). fold n.
  unfold bind, try_except_else. rewrite (objects_get_up _ _ H), Hf. simpl.
  unfold init_app_create, bind, log, modify, save. simpl.
  unfold bind. rewrite db_access_up by exact H. reflexivity.
Qed.

Lemma init_app_present self w a :
  let n := app_name_of (_run_function self) in
  db_error w = None → List.filter (named n) (apps w) = [a] →
  _init_app self w = (Return (set_appName n self), reused n a w).
Proof.
  intros n H Hf. unfold _init_app. fold (app_name_of (_run_function self)). fold n.
  unfold bind, try_except_else. rewrite (objects_get_up _ _ H), Hf. reflexivity.
Qed.

Lemma init_app_multiple self w a b l :
  let n := app_name_of (_run_function self) in
  db_error w = None → List.filter (named n) (apps w) = a :: b :: l →
  _init_app self w = (Raise MultipleObjectsReturned, lookup_recorded n w).
Proof.
  intros n H Hf. unfold _init_app. fold (app_name_of (_run_function self)). fold n.
  unfold bind, try_except_else. rewrite (objects_get_up _ _ H), Hf. reflexivity.
Qed.

(** *** The constructor *)

Definition announced (w : World) : World :=
  let w1 := set_logs (logs w ++ ["Balsam Evaluator instantiated"]) w in
  set_logs (logs w1 ++ ["Backend runs will use Python: " ++ PYTHON_EXE]) w1.

Definition constructed (key : option string) (f : RunFunction) : BalsamEvaluator :=
  {| _run_function := f; cache_key := key; counter := 0%nat; id_key_map := ∅;
     num_workers := LAUNCHER_NODES * WORKERS_PER_NODE;
     appName := Some (app_name_of f); transaction_context := true |}.

Lemma init_unfold f key w :
  __init__ f key w =
  match _init_app {| _run_function := f; cache_key := key; counter := 0%nat;
                     id_key_map := ∅;
                     num_workers := LAUNCHER_NODES * WORKERS_PER_NODE;
                     appName := None; transaction_context := false |}
                  (announced w) with
  | (Return self, w') =>
      (Return (set_transaction_context self),
       set_logs (logs w' ++ ["Backend runs will execute function: "
                               ++ default "" (appName self)]) w')
  | (Raise e, w') => (Raise e, w')
  end.
Proof.
  unfold __init__, Evaluator_init. cbn [_run_function cache_key counter appName transaction_context].
  unfold bind at 1. unfold log at 1. unfold modify at 1.
  unfold bind at 1. unfold log at 1. unfold modify at 1.
  unfold bind at 1. fold (announced w).
  destruct (_init_app _ (announced w)) as [[self | e] w']; reflexivity.
Qed.

Lemma filter_named_announced n w :
  List.filter (named n) (apps (announced w)) = List.filter (named n) (apps w).
Proof. reflexivity. Qed.

(** What a constructor call does to the tables and to the access record. *)
Lemma init_effect f key w :
  let n := app_name_of f in
  let r := __init__ f key w in
  let d := atomic_depth w in
  jobs (snd r) = jobs w ∧ db_error (snd r) = db_error w
  ∧ atomic_depth (snd r) = d ∧ objects (snd r) = objects w
  ∧ ((db_error w = None ∧ List.filter (named n) (apps w) = []
      ∧ fst r = Return (constructed key f)
      ∧ apps (snd r)
        = (apps w ++ [{| app_name := n; app_executable := _runner_executable |}])%list
      ∧ accesses (snd r) = (accesses w ++ [(Lookup n, d); (Save n, d)])%list)
     ∨ ((db_error w = None → List.filter (named n) (apps w) ≠ [])
        ∧ apps (snd r) = apps w
        ∧ accesses (snd r) = (accesses w ++ [(Lookup n, d)])%list
        ∧ (∀ e, fst r = Return e →
             e = constructed key f ∧ ∃ a, List.filter (named n) (apps w) = [a]))).
Proof.
  intros n r d. subst r. rewrite init_unfold.
  set (self0 := {| _run_function := f; cache_key := key; counter := 0%nat;
                   id_key_map := ∅; num_workers := LAUNCHER_NODES * WORKERS_PER_NODE;
                   appName := None; transaction_context := false |}).
  destruct (db_error w) as [msg |] eqn:Hdb.
  - rewrite (init_app_down self0 (announced w) msg) by exact Hdb.
    cbn. repeat split; auto. right. repeat split; try discriminate.
  - destruct (List.filter (named n) (apps w)) as [| a [| b l]] eqn:Hf.
    + rewrite (init_app_absent self0 (announced w)) by assumption.
      cbn. repeat split; auto. left. rewrite <- app_assoc. repeat split.
    + rewrite (init_app_present self0 (announced w) a) by assumption.
      cbn. repeat split; auto. right. repeat split; try discriminate;
        intros; simplify_eq; eauto.
    + rewrite (init_app_multiple self0 (announced w) a b l) by assumption.
      cbn. repeat split; auto. right. repeat split; try discriminate.
Qed.

Local Open Scope nat_scope.

Lemma eval_exec_effect self x w :
  let r := _eval_exec self x w in
  apps (snd r) = apps w
  ∧ objects (snd r) = objects w
  ∧ (∀ n, List.filter (is_save n) (accesses (snd r))
          = List.filter (is_save n) (accesses w))
  ∧ (jobs (snd r) = jobs w
     ∨ ∃ j n, jobs (snd r) = (jobs w ++ [j])%list
              ∧ appName self = Some n ∧ job_application j = n).
Proof.
  intros r. subst r.
  destruct (objects w !! x) as [xv |] eqn:Hx;
    [| rewrite (eval_exec_dangling self x w Hx); simpl; auto].
  destruct (appName self) as [n |] eqn:Hn.
  - destruct (db_error w) as [msg |] eqn:Hdb.
    + destruct (eval_exec_down self x xv w n msg Hx Hn Hdb) as (name & ->). simpl.
      do 2 (split; [reflexivity |]).
      split; [intros n0; rewrite List.filter_app, app_nil_r; reflexivity | left; reflexivity].
    + destruct (eval_exec_returns self x xv w n Hx Hn Hdb)
        as (fut & w' & -> & Hj & Ha & Ho & Hacc & Happ & _). simpl.
      do 2 (split; [assumption |]).
      split; [intros n0; rewrite Hacc, List.filter_app, app_nil_r; reflexivity |].
      right. eauto.
  - rewrite (eval_exec_unregistered self x xv w Hx Hn). simpl. auto.
Qed.

(** *** What every run of a process maintains *)

Lemma registrations_snoc n l a :
  length (List.filter (named n) (l ++ [a]))
  = length (List.filter (named n) l) + (if named n a then 1 else 0).
Proof.
  rewrite List.filter_app, length_app. simpl.
  destruct (named n a); simpl; lia.
Qed.

Lemma creations_snoc n l a :
  length (List.filter (is_save n) (l ++ [a]))
  = length (List.filter (is_save n) l) + (if is_save n a then 1 else 0).
Proof.
  rewrite List.filter_app, length_app. simpl.
  destruct (is_save n a); simpl; lia.
Qed.

Lemma registrations_apps n w w' :
  apps w' = apps w → registrations n w' = registrations n w.
Proof. unfold registrations. intros ->. reflexivity. Qed.

Lemma creations_accesses n w w' :
  accesses w' = accesses w → creations n w' = creations n w.
Proof. unfold creations. intros ->. reflexivity. Qed.

(** The lookup of [_init_app]: no row and no save; it goes on to the save
    only when it found no row of the name. *)
Lemma init_app_step_checking n w :
  let r := init_app_step n Checking w in
  apps (snd r) = apps w ∧ jobs (snd r) = jobs w
  ∧ (∀ m, creations m (snd r) = creations m w)
  ∧ match fst r with
    | Creating => registrations n w = 0
    | Finished => 1 ≤ registrations n w
    | Crashed _ => True
    | Checking => False
    end.
Proof.
  intros r. subst r. unfold init_app_step.
  assert (Hcre : ∀ m, creations m (lookup_recorded n w) = creations m w).
  { intros m. unfold creations, lookup_recorded. cbn [accesses set_accesses].
    rewrite creations_snoc. cbn. lia. }
  destruct (db_error w) as [msg |] eqn:Hdb.
  - rewrite (objects_get_down n w msg Hdb). cbn. auto.
  - rewrite (objects_get_up n w Hdb). unfold registrations.
    destruct (List.filter (named n) (apps w)) as [| a [| b l]]; cbn; auto.
Qed.

(** The save of [_init_app]: one attempt recorded, and one row more when
    the database answers. *)
Lemma init_app_step_creating n w :
  let r := init_app_step n Creating w in
  jobs (snd r) = jobs w
  ∧ (∀ m, creations m (snd r)
          = creations m w + (if String.eqb n m then 1 else 0))
  ∧ match fst r with
    | Finished =>
        db_error w = None
        ∧ apps (snd r)
          = (apps w ++ [{| app_name := n; app_executable := _runner_executable |}])%list
    | Crashed _ => db_error w ≠ None ∧ apps (snd r) = apps w
    | Checking | Creating => False
    end.
Proof.
  intros r. subst r.
  unfold init_app_step, init_app_create, save, db_access, bind, log, modify, get,
    ret, raise.
  cbn. destruct (db_error w) as [msg |] eqn:Hdb; cbn.
  - split; [reflexivity |]. split; [intros m; rewrite creations_snoc; reflexivity |].
    split; [discriminate | reflexivity].
  - split; [reflexivity |]. split; [intros m; rewrite creations_snoc; reflexivity |].
    split; reflexivity.
Qed.

Lemma init_enter_effect f key w :
  ∃ self w', init_enter f key w = (Return self, w')
             ∧ apps w' = apps w ∧ jobs w' = jobs w ∧ accesses w' = accesses w
             ∧ _run_function self = f ∧ appName self = Some (app_name_of f).
Proof. eexists _, _. repeat split. Qed.

Lemma init_leave_effect self w :
  ∃ w', init_leave self w = (Return (set_transaction_context self), w')
        ∧ apps w' = apps w ∧ jobs w' = jobs w ∧ accesses w' = accesses w.
Proof. eexists. repeat split. Qed.

(** What the process keeps true from one step to the next.  The constructor
    under way has bound its name; it is before its lookup or before its
    save, and in the second case the name has no row. *)
Definition under_way (self : BalsamEvaluator) (ph : phase) (w : World) : Prop :=
  appName self = Some (app_name_of (_run_function self))
  ∧ (ph = Checking ∨ ph = Creating)
  ∧ (ph = Creating → registrations (app_name_of (_run_function self)) w = 0).

Record invariant (w0 : World) (p : Process) : Prop := {
  inv_evaluators :
    ∀ e, e ∈ evaluators p →
         ∃ n, appName e = Some n ∧ n = app_name_of (_run_function e)
              ∧ 1 ≤ registrations n (world p);
  inv_jobs :
    ∀ j, j ∈ jobs (world p) → 1 ≤ registrations (job_application j) (world p);
  inv_created :
    ∀ n, 1 ≤ creations n (world p) → registrations n w0 = 0;
  inv_grows :
    ∀ n, registrations n w0 ≤ registrations n (world p);
  inv_bounded :
    ∀ n, registrations n (world p) ≤ Nat.max 1 (registrations n w0);
  inv_constructing :
    ∀ self ph, constructing p = Some (self, ph) → under_way self ph (world p)
}.

Lemma invariant_start w0 :
  jobs w0 = [] → accesses w0 = [] → invariant w0 (start w0).
Proof.
  intros Hj Ha. split; simpl.
  - intros e He. inversion He.
  - intros j. rewrite Hj. intros He. inversion He.
  - intros n. unfold creations. rewrite Ha. simpl. lia.
  - intros n. lia.
  - intros n. lia.
  - intros self ph H. discriminate H.
Qed.

(** One step seen from the table: rows and save attempts change for one
    name [n] at most, by [dr] and [dc]; a row or an attempt is added only
    for a name without a row. *)
Record moves (p p' : Process) (n : string) (dr dc : nat) : Prop := {
  mv_registrations :
    ∀ m, registrations m (world p')
         = registrations m (world p) + (if String.eqb n m then dr else 0);
  mv_creations :
    ∀ m, creations m (world p')
         = creations m (world p) + (if String.eqb n m then dc else 0);
  mv_absent : 1 ≤ dr + dc → registrations n (world p) = 0;
  mv_one : dr ≤ 1;
  mv_jobs :
    ∀ j, j ∈ jobs (world p') →
         j ∈ jobs (world p) ∨ 1 ≤ registrations (job_application j) (world p');
  mv_evaluators :
    ∀ e, e ∈ evaluators p' →
         e ∈ evaluators p
         ∨ ∃ n, appName e = Some n ∧ n = app_name_of (_run_function e)
                ∧ 1 ≤ registrations n (world p');
  mv_constructing :
    ∀ self ph, constructing p' = Some (self, ph) → under_way self ph (world p')
}.

Lemma moves_same p p' :
  apps (world p') = apps (world p) →
  jobs (world p') = jobs (world p) →
  (∀ m, creations m (world p') = creations m (world p)) →
  evaluators p' = evaluators p →
  (∀ self ph, constructing p' = Some (self, ph) → under_way self ph (world p')) →
  moves p p' "" 0 0.
Proof.
  intros Happs Hjobs Hcre Hev Hcon. split.
  - intros m. rewrite (registrations_apps m _ _ Happs).
    destruct (String.eqb "" m); lia.
  - intros m. rewrite Hcre. destruct (String.eqb "" m); lia.
  - simpl. lia.
  - lia.
  - intros j Hin. left. rewrite <- Hjobs. exact Hin.
  - intros e Hin. left. rewrite <- Hev. exact Hin.
  - exact Hcon.
Qed.

Lemma moves_invariant w0 p p' n dr dc :
  invariant w0 p → moves p p' n dr dc → invariant w0 p'.
Proof.
  intros [He Hj Hc Hg Hk Hcon] [Hreg Hcre Habs Hone Hjobs Hev Hcon'].
  assert (Hmono : ∀ m, registrations m (world p) ≤ registrations m (world p'))
    by (intros m; rewrite Hreg; lia).
  split.
  - intros e Hin. destruct (Hev e Hin) as [Hold | Hnew]; [| exact Hnew].
    destruct (He e Hold) as (m & H1 & H2 & H3). exists m.
    repeat split; auto. specialize (Hmono m). lia.
  - intros j Hin. destruct (Hjobs j Hin) as [Hold | Hnew]; [| exact Hnew].
    specialize (Hj j Hold). specialize (Hmono (job_application j)). lia.
  - intros m Hm. rewrite Hcre in Hm.
    destruct (creations m (world p)) as [| c] eqn:E.
    + destruct (String.eqb_spec n m) as [<- | Hne]; [| lia].
      specialize (Hg n). rewrite Habs in Hg by lia. lia.
    + apply Hc. lia.
  - intros m. specialize (Hg m). specialize (Hmono m). lia.
  - intros m. rewrite Hreg. specialize (Hk m).
    destruct (String.eqb_spec n m) as [<- | Hne]; [| lia].
    destruct dr as [| dr]; [lia |]. rewrite Habs by lia. lia.
  - exact Hcon'.
Qed.

Lemma step_moves w0 p o :
  invariant w0 p → ∃ n dr dc, moves p (step p o) n dr dc.
Proof.
  intros [He Hj Hc Hg Hk Hcon].
  destruct o as [f key | | i c x | failure];
    destruct (constructing p) as [[self ph] |] eqn:Hp; unfold step; rewrite Hp.
  - (* a constructor call while one is under way *)
    exists "", 0, 0. apply moves_same; auto. rewrite Hp. exact Hcon.
  - (* the constructor is entered *)
    destruct (init_enter_effect f key (world p))
      as (self & w' & -> & Happs & Hjobs & Hacc & Hf & Hn).
    exists "", 0, 0. apply moves_same; simpl; auto.
    + intros m. apply creations_accesses, Hacc.
    + intros self' ph [= <- <-]. rewrite <- Hf in Hn.
      split; [exact Hn |]. split; [left; reflexivity | discriminate].
  - (* the constructor under way makes its next access *)
    destruct (Hcon self ph eq_refl) as (Hname & [-> | ->] & Habsent).
    + (* the lookup *)
      pose proof (init_app_step_checking (app_name_of (_run_function self)) (world p))
        as Hs. cbv zeta in Hs.
      destruct (init_app_step (app_name_of (_run_function self)) Checking (world p))
        as [ph' w'].
      cbn [fst snd] in Hs. destruct Hs as (Happs & Hjobs & Hcre & Hph).
      destruct ph' as [| | | ex]; [exfalso; exact Hph | | |].
      * exists "", 0, 0. apply moves_same; simpl; auto.
        intros self' ph [= <- <-]. split; [exact Hname |].
        split; [right; reflexivity |].
        intros _. rewrite (registrations_apps _ _ _ Happs). exact Hph.
      * destruct (init_leave_effect self w') as (w2 & -> & Happs2 & Hjobs2 & Hacc2).
        exists "", 0, 0. split; cbn [world evaluators futures constructing].
        -- intros m. rewrite (registrations_apps m _ _ Happs2),
             (registrations_apps m _ _ Happs). destruct (String.eqb "" m); lia.
        -- intros m. rewrite (creations_accesses m _ _ Hacc2), Hcre.
           destruct (String.eqb "" m); lia.
        -- lia.
        -- lia.
        -- intros j Hin. left. rewrite <- Hjobs, <- Hjobs2. exact Hin.
        -- intros e Hin. apply elem_of_app in Hin as [Hin | Hin]; [left; exact Hin |].
           apply list_elem_of_singleton in Hin. subst e. right.
           exists (app_name_of (_run_function self)).
           split; [exact Hname |]. split; [reflexivity |].
           rewrite (registrations_apps _ _ _ Happs2),
             (registrations_apps _ _ _ Happs). exact Hph.
        -- intros self' ph H. discriminate H.
      * exists "", 0, 0. apply moves_same; simpl; auto.
        intros self' ph H. discriminate H.
    + (* the save *)
      pose proof (init_app_step_creating (app_name_of (_run_function self)) (world p))
        as Hs. cbv zeta in Hs.
      destruct (init_app_step (app_name_of (_run_function self)) Creating (world p))
        as [ph' w'].
      cbn [fst snd] in Hs. destruct Hs as (Hjobs & Hcre & Hph).
      set (n := app_name_of (_run_function self)) in *.
      destruct ph' as [| | | ex]; [exfalso; exact Hph | exfalso; exact Hph | |].
      * destruct Hph as [Hdb Happs].
        destruct (init_leave_effect self w') as (w2 & -> & Happs2 & Hjobs2 & Hacc2).
        assert (Hreg : ∀ m, registrations m w2
                            = registrations m (world p)
                              + (if String.eqb n m then 1 else 0)).
        { intros m. rewrite (registrations_apps m _ _ Happs2). unfold registrations.
          rewrite Happs, registrations_snoc. unfold named. cbn [app_name].
          rewrite String.eqb_sym. reflexivity. }
        exists n, 1, 1. split; cbn [world evaluators futures constructing].
        -- exact Hreg.
        -- intros m. rewrite (creations_accesses m _ _ Hacc2). apply Hcre.
        -- intros _. apply Habsent. reflexivity.
        -- lia.
        -- intros j Hin. left. rewrite <- Hjobs, <- Hjobs2. exact Hin.
        -- intros e Hin. apply elem_of_app in Hin as [Hin | Hin]; [left; exact Hin |].
           apply list_elem_of_singleton in Hin. subst e. right.
           exists n. split; [exact Hname |]. split; [reflexivity |].
           rewrite Hreg, String.eqb_refl. lia.
        -- intros self' ph H. discriminate H.
      * destruct Hph as [Hdb Happs].
        exists n, 0, 1. split; cbn [world evaluators futures constructing].
        -- intros m. rewrite (registrations_apps m _ _ Happs).
           destruct (String.eqb n m); lia.
        -- exact Hcre.
        -- intros _. apply Habsent. reflexivity.
        -- lia.
        -- intros j Hin. left. rewrite <- Hjobs. exact Hin.
        -- intros e Hin. left. exact Hin.
        -- intros self' ph H. discriminate H.
  - (* no constructor is under way *)
    exists "", 0, 0. apply moves_same; auto. rewrite Hp. intros ? ? H. discriminate H.
  - (* a submission while a constructor is under way *)
    exists "", 0, 0. apply moves_same; auto. rewrite Hp. exact Hcon.
  - destruct (evaluators p !! i) as [e |] eqn:Hi.
    2: { exists "", 0, 0. apply moves_same; auto.
         rewrite Hp. intros ? ? H. discriminate H. }
    pose proof (eval_exec_effect (set_counter c e) x (world p)) as Hx. simpl in Hx.
    assert (He_in : e ∈ evaluators p) by (eapply list_elem_of_lookup_2; eassumption).
    destruct (_eval_exec (set_counter c e) x (world p)) as [[fut | ex] w'];
      simpl in Hx; destruct Hx as (Happs & _ & Hsaves & Hjobs);
      exists "", 0, 0;
      (split; cbn [world evaluators futures constructing];
       [ intros m; rewrite (registrations_apps m _ _ Happs);
         destruct (String.eqb "" m); lia
       | intros m; unfold creations; rewrite Hsaves;
         destruct (String.eqb "" m); lia
       | lia
       | lia
       | intros j Hin;
         destruct Hjobs as [Hjobs | (j' & n & Hjobs & Hn & Hj')];
         rewrite Hjobs in Hin;
         [ left; exact Hin
         | apply elem_of_app in Hin as [Hin | Hin];
           [ left; exact Hin
           | apply list_elem_of_singleton in Hin; subst j'; right;
             rewrite Hj', (registrations_apps _ _ _ Happs);
             destruct (He e He_in) as (n' & H1 & H2 & H3);
             simpl in Hn; congruence ] ]
       | intros e' Hin; left; exact Hin
       | intros self' ph H; discriminate H ]).
  - exists "", 0, 0. apply moves_same; simpl; auto.
  - exists "", 0, 0. apply moves_same; simpl; auto.
Qed.

Lemma invariant_step w0 p o :
  invariant w0 p → invariant w0 (step p o).
Proof.
  intros H. destruct (step_moves w0 p o H) as (n & dr & dc & Hm).
  eapply moves_invariant; eassumption.
Qed.

Lemma invariant_run w0 ops p :
  invariant w0 p → invariant w0 (run_process ops p).
Proof.
  revert p. induction ops as [| o ops IH]; intros p Hp; simpl; [assumption |].
  apply IH, invariant_step, Hp.
Qed.

(** Once a name has a row, no step attempts to create it again. *)
Lemma step_registered w0 p o n :
  invariant w0 p → 1 ≤ registrations n (world p) →
  creations n (world (step p o)) = creations n (world p)
  ∧ 1 ≤ registrations n (world (step p o)).
Proof.
  intros H Hn. destruct (step_moves w0 p o H) as (n' & dr & dc & Hm).
  destruct Hm as [Hreg Hcre Habs _ _ _ _]. rewrite Hcre, Hreg.
  destruct (String.eqb_spec n' n) as [-> | Hne]; [| lia].
  destruct (dr + dc) as [| k] eqn:E; [lia |].
  rewrite Habs in Hn by lia. lia.
Qed.

Lemma run_registered w0 ops p n :
  invariant w0 p → 1 ≤ registrations n (world p) →
  creations n (world (run_process ops p)) = creations n (world p)
  ∧ 1 ≤ registrations n (world (run_process ops p)).
Proof.
  revert p. induction ops as [| o ops IH]; intros p Hp Hn; simpl; [auto |].
  destruct (step_registered w0 p o n Hp Hn) as [Hc Hr].
  destruct (IH (step p o) (invariant_step w0 p o Hp) Hr) as [Hc' Hr'].
  split; [congruence | exact Hr'].
Qed.

(** A constructor call during which the database does not change its state
    is [__init__]: the steps of the process, taken one after the other, do
    to the world what the call does, and add the evaluator it returns. *)
Lemma constructor_undisturbed p f key :
  constructing p = None →
  let q := run_process [New f key; Access; Access] p in
  world q = snd (__init__ f key (world p))
  ∧ evaluators q
    = (evaluators p ++ match fst (__init__ f key (world p)) with
                       | Return e => [e]
                       | Raise _ => []
                       end)%list
  ∧ futures q = futures p
  ∧ constructing q = None.
Proof.
  destruct p as [w evs futs con]. cbn [constructing world evaluators futures].
  intros ->. unfold run_process. cbn [fold_left].
  unfold __init__, _init_app, init_enter, init_leave, step, init_app_step,
    try_except_else, objects_get, init_app_existing, init_app_create, save,
    db_access, bind, log, modify, get, ret, raise, app_name_of.
  cbn.
  destruct (db_error w) as [msg |] eqn:Hdb; cbn.
  - rewrite app_nil_r. repeat split.
  - destruct (List.filter (named (fn_module f ++ "." ++ fn_name f)) (apps w))
      as [| a [| b l]]; cbn; rewrite ?Hdb; cbn; rewrite ?app_nil_r; repeat split.
Qed.

(** *** The specification's statements about the evaluator *)

(** C1.  Whatever configuration is handed to [_eval_exec] (by an evaluator
    whose application is registered, with the database answering), a job is
    enqueued whose resource request is the defaults [num_nodes = 1],
    [ranks_per_node = 1], [threads_per_rank = 64],
    [node_packing_count = WORKERS_PER_NODE] when the configuration has none
    of these keys; and for every key of the default resource map that the
    configuration has, the request carries the configuration's value.  A key
    the configuration lacks keeps its default. *)
Theorem eval_exec_resource_request self x xv w n :
  objects w !! x = Some xv → appName self = Some n → db_error w = None →
  ∃ fut w',
    _eval_exec self x w = (Return fut, w')
    ∧ last (jobs w') = Some (task fut)
    ∧ ((∀ k, k ∈ dict_keys default_resources → xv !! k = None) →
       job_resources (task fut)
       = [ ("num_nodes", VInt 1); ("ranks_per_node", VInt 1);
           ("threads_per_rank", VInt 64);
           ("node_packing_count", VInt WORKERS_PER_NODE) ])
    ∧ (∀ k v, k ∈ dict_keys default_resources → xv !! k = Some v →
              dict_get k (job_resources (task fut)) = Some v)
    ∧ (∀ k, xv !! k = None →
            dict_get k (job_resources (task fut)) = dict_get k default_resources).
Proof.
  intros Hx Hn Hdb.
  destruct (eval_exec_returns self x xv w n Hx Hn Hdb)
    as (fut & w' & Hr & Hj & _ & _ & _ & _ & _ & Hres).
  exists fut, w'. split; [exact Hr |]. split; [rewrite Hj; apply last_snoc |].
  rewrite Hres. split; [| split].
  - intros Hnone. apply derive_resources_defaults. exact Hnone.
  - intros k v Hk Hv. apply derive_resources_override; assumption.
  - intros k Hk. apply derive_resources_keep. exact Hk.
Qed.

(** C2.  For every failed job, whatever configuration produced it,
    [_on_fail] logs the failure and returns [Evaluator.FAIL_RETURN_VALUE];
    it does not raise. *)
Theorem on_fail_returns_sentinel (job : BalsamJob) (w : World) :
  _on_fail job w
  = (Return FAIL_RETURN_VALUE,
     set_logs (logs w ++ ["Task " ++ cute_id job
                            ++ " failed; setting objective as float_max"]) w).
Proof. reflexivity. Qed.

(** C4, as the code has it.  A constructor call during which the database
    stays in one state leaves the table alone when the entry point's name is
    registered, and adds its one row when the name is absent and the
    database answers.  At any point of any run of a process that starts with
    no job submitted, no access made and no name registered twice, the
    database free to stop answering and to answer again before any access:
    every evaluator constructed so far is named after its entry point and
    that name has exactly one [ApplicationDefinition]; no name has more than
    one; a creation was attempted only for a name that had none at the
    start; once a name has its [ApplicationDefinition] no later step of the
    run attempts to create it again; and every job submitted so far names a
    registered application. *)
Theorem registration_once_before_submission (w0 : World) (ops : list op) (k : nat) :
  jobs w0 = [] → accesses w0 = [] → (∀ n, registrations n w0 ≤ 1) →
  let p := run_process (take k ops) (start w0) in
  let q := run_process ops (start w0) in
  (∀ f key w, 1 ≤ registrations (app_name_of f) w →
              apps (snd (__init__ f key w)) = apps w
              ∧ creations (app_name_of f) (snd (__init__ f key w))
                = creations (app_name_of f) w)
  ∧ (∀ f key w, db_error w = None → registrations (app_name_of f) w = 0 →
                registrations (app_name_of f) (snd (__init__ f key w)) = 1)
  ∧ (∀ e, e ∈ evaluators p →
          ∃ n, appName e = Some n
               ∧ n = fn_module (_run_function e) ++ "." ++ fn_name (_run_function e)
               ∧ registrations n (world p) = 1)
  ∧ (∀ n, registrations n (world p) ≤ 1)
  ∧ (∀ n, 1 ≤ creations n (world p) → registrations n w0 = 0)
  ∧ (∀ n, 1 ≤ registrations n (world p) →
          creations n (world q) = creations n (world p)
          ∧ registrations n (world q) = 1)
  ∧ (∀ j, j ∈ jobs (world p) → registrations (job_application j) (world p) = 1).
Proof.
  intros Hj Ha H0 p q.
  assert (Hinv : invariant w0 p)
    by (apply invariant_run, invariant_start; assumption).
  assert (Hinvq : invariant w0 q)
    by (apply invariant_run, invariant_start; assumption).
  assert (Hq : q = run_process (drop k ops) p).
  { subst p q. unfold run_process. rewrite <- fold_left_app, take_drop. reflexivity. }
  assert (Hle : ∀ w, invariant w0 w → ∀ n, registrations n (world w) ≤ 1).
  { intros w Hw n. pose proof (inv_bounded _ _ Hw n). specialize (H0 n). lia. }
  destruct Hinv as [He Hjobs Hc Hg Hk Hcon].
  split; [| split; [| split; [| split; [| split; [| split]]]]].
  - intros f key w Hreg.
    pose proof (init_effect f key w) as Hi. simpl in Hi.
    destruct Hi as (_ & _ & _ & _ & [(_ & Hf & _) | (_ & Happs & Hacc & _)]).
    + unfold registrations in Hreg. rewrite Hf in Hreg. simpl in Hreg. lia.
    + split; [exact Happs |]. unfold creations. rewrite Hacc, creations_snoc.
      simpl. lia.
  - intros f key w Hdb Hreg.
    pose proof (init_effect f key w) as Hi. simpl in Hi.
    destruct Hi as (_ & _ & _ & _ & [(_ & _ & _ & Happs & _) | (Hne & _)]).
    + unfold registrations in *. rewrite Happs, registrations_snoc, Hreg.
      unfold named. simpl. rewrite String.eqb_refl. reflexivity.
    + exfalso. apply (Hne Hdb). unfold registrations in Hreg.
      destruct (List.filter (named (app_name_of f)) (apps w)); [reflexivity | discriminate].
  - intros e Hin. destruct (He e Hin) as (n & H1 & H2 & H3).
    exists n. repeat split; auto. specialize (Hk n). specialize (H0 n). lia.
  - intros n. specialize (Hk n). specialize (H0 n). lia.
  - exact Hc.
  - intros n Hn.
    destruct (run_registered w0 (drop k ops) p n) as [Hcre Hreg];
      [split; assumption | exact Hn |].
    rewrite <- Hq in Hcre, Hreg. split; [exact Hcre |].
    specialize (Hle q Hinvq n). lia.
  - intros j Hin. specialize (Hjobs j Hin).
    specialize (Hk (job_application j)). specialize (H0 (job_application j)). lia.
Qed.

(** [_init_app] is its accesses made one after the other. *)
Lemma init_app_steps self w :
  let n := app_name_of (_run_function self) in
  let s1 := init_app_step n Checking w in
  let s2 := init_app_step n (fst s1) (snd s1) in
  snd (_init_app self w) = snd s2
  ∧ match fst s2 with
    | Finished => fst (_init_app self w) = Return (set_appName n self)
    | Crashed e => fst (_init_app self w) = Raise e
    | Checking | Creating => False
    end.
Proof.
  intros n s1 s2. subst s1 s2.
  destruct (db_error w) as [msg |] eqn:Hdb.
  - assert (H1 : init_app_step n Checking w
                 = (Crashed (OperationalError msg), lookup_recorded n w))
      by (unfold init_app_step; rewrite (objects_get_down n w msg Hdb); reflexivity).
    rewrite H1, (init_app_down self w msg Hdb). simpl. auto.
  - destruct (List.filter (named n) (apps w)) as [| a [| b l]] eqn:Hf.
    + assert (H1 : init_app_step n Checking w = (Creating, lookup_recorded n w))
        by (unfold init_app_step; rewrite (objects_get_up n w Hdb), Hf; reflexivity).
      rewrite H1, (init_app_absent self w Hdb Hf). cbn [fst snd].
      unfold init_app_step, init_app_create, bind, log, modify, save. simpl.
      unfold bind. rewrite db_access_up by exact Hdb. simpl. auto.
    + assert (H1 : init_app_step n Checking w = (Finished, reused n a w))
        by (unfold init_app_step; rewrite (objects_get_up n w Hdb), Hf; reflexivity).
      rewrite H1, (init_app_present self w a Hdb Hf). simpl. auto.
    + assert (H1 : init_app_step n Checking w
                   = (Crashed MultipleObjectsReturned, lookup_recorded n w))
        by (unfold init_app_step; rewrite (objects_get_up n w Hdb), Hf; reflexivity).
      rewrite H1, (init_app_multiple self w a b l Hdb Hf). simpl. auto.
Qed.

(** C6.  When the lookup of [_init_app] raises anything but "not found", the
    same exception leaves [_init_app] and the constructor, after that one
    lookup and nothing else: no second lookup, no row created.  When it
    raises "not found", the handler runs: the row is created and the
    constructor returns. *)
Theorem init_app_lookup_failure self key w e :
  let f := _run_function self in
  let n := app_name_of f in
  fst (objects_get n w) = Raise e →
  (is_ObjectDoesNotExist e = false →
     _init_app self w = (Raise e, snd (objects_get n w))
     ∧ fst (__init__ f key w) = Raise e
     ∧ apps (snd (__init__ f key w)) = apps w
     ∧ accesses (snd (__init__ f key w))
       = (accesses w ++ [(Lookup n, atomic_depth w)])%list)
  ∧ (is_ObjectDoesNotExist e = true →
     _init_app self w
     = (init_app_create n;; ret (set_appName n self)) (snd (objects_get n w))
     ∧ fst (__init__ f key w) = Return (constructed key f)
     ∧ apps (snd (__init__ f key w))
       = (apps w ++ [{| app_name := n; app_executable := _runner_executable |}])%list
     ∧ accesses (snd (__init__ f key w))
       = (accesses w ++ [(Lookup n, atomic_depth w); (Save n, atomic_depth w)])%list).
Proof.
  intros f n Hget. subst f.
  set (self0 := {| _run_function := _run_function self; cache_key := key;
                   counter := 0; id_key_map := ∅;
                   num_workers := (LAUNCHER_NODES * WORKERS_PER_NODE)%Z;
                   appName := None; transaction_context := false |}).
  destruct (db_error w) as [msg |] eqn:Hdb.
  - rewrite (objects_get_down n w msg Hdb) in *. simpl in Hget.
    injection Hget as <-. split; [intros _ | discriminate].
    rewrite (init_app_down self w msg Hdb), init_unfold. fold self0.
    rewrite (init_app_down self0 (announced w) msg Hdb). auto.
  - rewrite (objects_get_up n w Hdb) in *. simpl in Hget.
    destruct (List.filter (named n) (apps w)) as [| a [| b l]] eqn:Hf;
      [| discriminate |]; injection Hget as <-; (split; [| intros; try discriminate]).
    + discriminate.
    + rewrite (init_app_absent self w Hdb Hf), init_unfold. fold self0.
      rewrite (init_app_absent self0 (announced w) Hdb Hf). simpl.
      rewrite <- app_assoc. repeat split.
      unfold init_app_create, bind, log, modify, save, ret. simpl.
      unfold bind. rewrite db_access_up by exact Hdb. reflexivity.
    + intros _. rewrite (init_app_multiple self w a b l Hdb Hf), init_unfold.
      fold self0.
      rewrite (init_app_multiple self0 (announced w) a b l Hdb Hf). auto.
Qed.

(** C7, as the code has it.  The constructor makes its registry accesses,
    the lookup and (when the name is absent) the save, at the transaction
    depth its caller runs at: it enters no [transaction.atomic] block, and
    [transaction_context] is bound only after [_init_app] has returned.
    A constructor that runs alone keeps a table without duplicate names
    free of them; two constructors for one name that both look it up before
    either saves leave it registered twice. *)
Theorem init_app_opens_no_transaction f key w :
  let n := app_name_of f in
  let r := __init__ f key w in
  (accesses (snd r) = (accesses w ++ [(Lookup n, atomic_depth w)])%list
   ∨ accesses (snd r)
     = (accesses w ++ [(Lookup n, atomic_depth w); (Save n, atomic_depth w)])%list)
  ∧ atomic_depth (snd r) = atomic_depth w
  ∧ (∀ self, transaction_context (set_appName n self) = transaction_context self)
  ∧ (∀ self self', fst (_init_app self w) = Return self' →
                   transaction_context self' = transaction_context self)
  ∧ ((∀ m, registrations m w ≤ 1) → ∀ m, registrations m (snd r) ≤ 1)
  ∧ registrations n
      (snd (interleave [n; n] [0; 1; 0; 1] [Checking; Checking] fresh_world)) = 2.
Proof.
  intros n r. pose proof (init_effect f key w) as Hi. simpl in Hi. fold n r in Hi.
  destruct Hi as (_ & _ & Hd & _ & Hcase).
  split; [| split; [exact Hd | split; [reflexivity | split; [| split]]]].
  - destruct Hcase as [(_ & _ & _ & _ & Hacc) | (_ & _ & Hacc & _)]; auto.
  - intros self self' Hret.
    pose proof (init_app_steps self w) as [_ Hs]. simpl in Hs.
    destruct (fst (init_app_step _ _ _)); try contradiction;
      rewrite Hs in Hret; [injection Hret as <-; reflexivity | discriminate].
  - intros Hle m. specialize (Hle m).
    destruct Hcase as [(_ & Hf & _ & Happs & _) | (_ & Happs & _)];
      unfold registrations in *; rewrite Happs; [| exact Hle].
    rewrite registrations_snoc. unfold named at 2. cbn [app_name].
    destruct (String.eqb_spec n m) as [<- | Hne]; [| lia].
    rewrite Hf. simpl. lia.
  - clear. unfold registrations. cbn. unfold named. cbn [app_name].
    rewrite String.eqb_refl. reflexivity.
Qed.

(** *** More about the submission path and the constructor *)

Lemma eval_exec_job self x xv w n :
  objects w !! x = Some xv → appName self = Some n → db_error w = None →
  ∃ fut w',
    _eval_exec self x w = (Return fut, w')
    ∧ job_name (task fut) = "task" ++ pretty (counter self)
    ∧ job_workflow (task fut)
      = match current_job w with
        | Some j => job_workflow j
        | None => n
        end
    ∧ job_application (task fut) = n
    ∧ job_args (task fut) = "'" ++ encode xv ++ "'"
    ∧ job_environ_vars (task fut) = "KERAS_BACKEND=" ++ KERAS_BACKEND
    ∧ job_resources (task fut) = derive_resources xv
    ∧ task_args fut = job_args (task fut)
    ∧ done_callback fut = _on_done
    ∧ fail_callback fut = _on_fail
    ∧ jobs w' = (jobs w ++ [task fut])%list.
Proof.
  intros Hx Hn Hdb. unfold _eval_exec, deref, attr_appName, add_job. rewrite Hn.
  unfold bind at 1. unfold bind at 1. unfold get at 1. rewrite Hx.
  unfold ret at 1. unfold bind at 1. unfold get at 1.
  destruct (current_job w) as [j |]; unfold bind, ret, log, modify;
    rewrite (db_access_up _ _ Hdb); simpl;
    eexists _, _; (split; [reflexivity |]); simpl; repeat split.
Qed.

Lemma eval_exec_inv self x w fut w' :
  _eval_exec self x w = (Return fut, w') →
  ∃ xv n, objects w !! x = Some xv ∧ appName self = Some n ∧ db_error w = None.
Proof.
  intros Hr. destruct (objects w !! x) as [xv |] eqn:Hx;
    [| rewrite (eval_exec_dangling self x w Hx) in Hr; discriminate].
  destruct (appName self) as [n |] eqn:Hn;
    [| rewrite (eval_exec_unregistered self x xv w Hx Hn) in Hr; discriminate].
  destruct (db_error w) as [msg |] eqn:Hdb; [| eauto].
  destruct (eval_exec_down self x xv w n msg Hx Hn Hdb) as (name & Hd).
  rewrite Hd in Hr. discriminate.
Qed.

Lemma dict_get_Some_keys {V} (k : string) (v : V) (d : list (string * V)) :
  dict_get k d = Some v → k ∈ dict_keys d.
Proof.
  induction d as [| [k' v'] d IH]; simpl; [discriminate |].
  destruct (String.eqb_spec k' k) as [-> | Hne]; intros H.
  - apply list_elem_of_here.
  - apply list_elem_of_further, IH, H.
Qed.

Lemma derive_resources_keys (x : gmap string value) :
  dict_keys (derive_resources x) = resource_keys.
Proof.
  rewrite derive_resources_unfold. unfold override.
  repeat match goal with
         | |- context [x !! ?s] => destruct (x !! s)
         end; reflexivity.
Qed.

(** X1.  Whatever the configuration holds, the resource request of the job has
    the four keys of the literal, in its order, and no other: a key of the
    configuration that is not one of them never reaches [dag.add_job] as a
    keyword. *)
Theorem eval_exec_request_keys self x xv w n :
  objects w !! x = Some xv → appName self = Some n → db_error w = None →
  ∃ fut w',
    _eval_exec self x w = (Return fut, w')
    ∧ dict_keys (job_resources (task fut))
      = ["num_nodes"; "ranks_per_node"; "threads_per_rank"; "node_packing_count"]
    ∧ ∀ k, k ∉ dict_keys default_resources →
           dict_get k (job_resources (task fut)) = None.
Proof.
  intros Hx Hn Hdb.
  destruct (eval_exec_job self x xv w n Hx Hn Hdb)
    as (fut & w' & Hr & _ & _ & _ & _ & _ & Hres & _).
  exists fut, w'. split; [exact Hr |]. rewrite Hres. split.
  - apply derive_resources_keys.
  - intros k Hk. destruct (dict_get k (derive_resources xv)) eqn:E; [| reflexivity].
    exfalso. apply Hk. apply dict_get_Some_keys in E.
    rewrite derive_resources_keys in E. exact E.
Qed.

(** X2.  The job is filed under the workflow of the job the evaluator itself runs
    in, when [dag.current_job] is set, and under the application's name
    otherwise; it is named after the task counter, and its arguments, kept
    on the future as well, are the encoding of the configuration between
    single quotes. *)
Theorem eval_exec_workflow self x xv w n :
  objects w !! x = Some xv → appName self = Some n → db_error w = None →
  ∃ fut w',
    _eval_exec self x w = (Return fut, w')
    ∧ (∀ j, current_job w = Some j → job_workflow (task fut) = job_workflow j)
    ∧ (current_job w = None → job_workflow (task fut) = n)
    ∧ job_application (task fut) = n
    ∧ job_name (task fut) = "task" ++ pretty (counter self)
    ∧ job_args (task fut) = "'" ++ encode xv ++ "'"
    ∧ task_args fut = job_args (task fut).
Proof.
  intros Hx Hn Hdb.
  destruct (eval_exec_job self x xv w n Hx Hn Hdb)
    as (fut & w' & Hr & Hname & Hwf & Happ & Hargs & _ & _ & Htargs & _).
  exists fut, w'. split; [exact Hr |]. rewrite Hwf.
  split; [intros j ->; reflexivity |]. split; [intros ->; reflexivity |]. auto.
Qed.

Lemma string_length_app (s t : string) :
  String.length (s ++ t) = String.length s + String.length t.
Proof. induction s as [| c s IH]; simpl; [reflexivity | rewrite IH; reflexivity]. Qed.

Lemma string_app_inj_r (s1 s2 t : string) : s1 ++ t = s2 ++ t → s1 = s2.
Proof.
  intros H.
  assert (Hlen : String.length s1 = String.length s2).
  { apply (f_equal String.length) in H. rewrite !string_length_app in H. lia. }
  revert s2 Hlen H. induction s1 as [| c s1 IH]; intros [| c' s2] Hlen H;
    simpl in *; try discriminate; [reflexivity |].
  injection H as -> H. f_equal. apply IH; [lia | exact H].
Qed.

(** X3.  Two submissions get the same job name, and so the same output file,
    exactly when the task counter is the same at both: [_eval_exec] names
    the job after the counter and does not advance it. *)
Theorem eval_exec_names self1 self2 x1 x2 w1 w2 fut1 fut2 w1' w2' :
  _eval_exec self1 x1 w1 = (Return fut1, w1') →
  _eval_exec self2 x2 w2 = (Return fut2, w2') →
  (job_name (task fut1) ++ ".out" = job_name (task fut2) ++ ".out"
   ↔ counter self1 = counter self2).
Proof.
  intros H1 H2.
  destruct (eval_exec_inv _ _ _ _ _ H1) as (xv1 & n1 & Hx1 & Hn1 & Hd1).
  destruct (eval_exec_inv _ _ _ _ _ H2) as (xv2 & n2 & Hx2 & Hn2 & Hd2).
  destruct (eval_exec_job self1 x1 xv1 w1 n1 Hx1 Hn1 Hd1) as (f1 & v1 & Hr1 & Hname1 & _).
  destruct (eval_exec_job self2 x2 xv2 w2 n2 Hx2 Hn2 Hd2) as (f2 & v2 & Hr2 & Hname2 & _).
  rewrite H1 in Hr1. rewrite H2 in Hr2.
  injection Hr1 as <- <-. injection Hr2 as <- <-. rewrite Hname1, Hname2.
  split.
  - intros H. apply string_app_inj_r in H. simpl in H.
    injection H as H. apply (inj pretty), H.
  - intros ->. reflexivity.
Qed.

(** X4.  The callbacks a future carries: when the job fails the sentinel comes
    back, and when it is done the objective is read from the file named
    after the task counter the job was submitted under. *)
Theorem eval_exec_callbacks self x w fut w' :
  _eval_exec self x w = (Return fut, w') →
  (∀ job w2, ∃ w2', fail_callback fut job w2 = (Return FAIL_RETURN_VALUE, w2'))
  ∧ (∀ job process_data w2,
       job_name job = job_name (task fut) →
       done_callback fut job process_data w2
       = (match job_workdir job !! ("task" ++ pretty (counter self) ++ ".out") with
          | Some output => _parse output
          | None => Raise (FileNotFoundError
                             ("task" ++ pretty (counter self) ++ ".out"))
          end, w2)).
Proof.
  intros Hr.
  destruct (eval_exec_inv _ _ _ _ _ Hr) as (xv & n & Hx & Hn & Hd).
  destruct (eval_exec_job self x xv w n Hx Hn Hd)
    as (f & v & Hr' & Hname & _ & _ & _ & _ & _ & _ & Hdone & Hfail & _).
  rewrite Hr in Hr'. injection Hr' as <- <-. rewrite Hdone, Hfail. split.
  - intros job w2. eexists. reflexivity.
  - intros job pd w2 Hjob. unfold _on_done, read_file_in_workdir, bind, lift.
    rewrite Hjob, Hname.
    change (("task" ++ pretty (counter self)) ++ ".out")
      with ("task" ++ pretty (counter self) ++ ".out").
    destruct (job_workdir job !! _); reflexivity.
Qed.

(** X5.  The constructor returns an evaluator exactly when the database answers
    and the entry point's name is registered at most once, and the
    evaluator is then named after the entry point.  A name registered twice
    or more makes every construction fail with [MultipleObjectsReturned],
    and an unreachable database with its error; neither touches the
    table. *)
Theorem init_returns_iff f key w :
  ((∃ e, fst (__init__ f key w) = Return e)
   ↔ db_error w = None ∧ registrations (app_name_of f) w ≤ 1)
  ∧ (∀ e, fst (__init__ f key w) = Return e →
          appName e = Some (fn_module f ++ "." ++ fn_name f)
          ∧ _run_function e = f
          ∧ num_workers e = (LAUNCHER_NODES * WORKERS_PER_NODE)%Z)
  ∧ (db_error w = None → 2 ≤ registrations (app_name_of f) w →
     fst (__init__ f key w) = Raise MultipleObjectsReturned
     ∧ apps (snd (__init__ f key w)) = apps w)
  ∧ (∀ msg, db_error w = Some msg →
     fst (__init__ f key w) = Raise (OperationalError msg)
     ∧ apps (snd (__init__ f key w)) = apps w).
Proof.
  set (self0 := {| _run_function := f; cache_key := key; counter := 0;
                   id_key_map := ∅;
                   num_workers := (LAUNCHER_NODES * WORKERS_PER_NODE)%Z;
                   appName := None; transaction_context := false |}).
  assert (Hcases :
    (∃ msg, db_error w = Some msg
            ∧ fst (__init__ f key w) = Raise (OperationalError msg)
            ∧ apps (snd (__init__ f key w)) = apps w)
    ∨ (db_error w = None ∧ registrations (app_name_of f) w ≤ 1
       ∧ fst (__init__ f key w) = Return (constructed key f))
    ∨ (db_error w = None ∧ 2 ≤ registrations (app_name_of f) w
       ∧ fst (__init__ f key w) = Raise MultipleObjectsReturned
       ∧ apps (snd (__init__ f key w)) = apps w)).
  { rewrite init_unfold. fold self0. unfold registrations.
    destruct (db_error w) as [msg |] eqn:Hdb.
    - left. exists msg. rewrite (init_app_down self0 (announced w) msg Hdb). auto.
    - right.
      destruct (List.filter (named (app_name_of f)) (apps w)) as [| a [| b l]] eqn:Hf.
      + left. rewrite (init_app_absent self0 (announced w) Hdb Hf). simpl. auto.
      + left. rewrite (init_app_present self0 (announced w) a Hdb Hf). simpl. auto.
      + right. rewrite (init_app_multiple self0 (announced w) a b l Hdb Hf). simpl.
        repeat split; auto. lia. }
  split; [| split; [| split]].
  - split.
    + intros [e He].
      destruct Hcases as [(msg & _ & Hf & _) | [(Hdb & Hle & _) | (_ & _ & Hf & _)]];
        [congruence | auto | congruence].
    + intros [Hdb Hle].
      destruct Hcases as [(msg & Hm & _) | [(_ & _ & Hf) | (_ & Hge & _)]];
        [congruence | eauto | lia].
  - intros e He.
    destruct Hcases as [(msg & _ & Hf & _) | [(_ & _ & Hf) | (_ & _ & Hf & _)]];
      try congruence.
    rewrite Hf in He. injection He as <-. repeat split.
  - intros Hdb Hge.
    destruct Hcases as [(msg & Hm & _) | [(_ & Hle & _) | (_ & _ & Hf & Ha)]];
      [congruence | lia | auto].
  - intros msg Hdb.
    destruct Hcases as [(msg' & Hm & Hf & Ha) | [(Hn & _) | (Hn & _)]];
      [| congruence | congruence].
    assert (msg' = msg) as -> by congruence. auto.
Qed.

End Evaluator.

(** *** Concrete runs *)

Definition babi_run : RunFunction :=
  {| fn_module := "deephyper.benchmarks.b3.babi_rnn"; fn_name := "run" |}.

Definition babi_app : string := "deephyper.benchmarks.b3.babi_rnn.run".

Definition json_stub (x : gmap string value) : string := "{}".
Definition parse_stub (out : string) : outcome Qc := Raise (ValueError out).


#[local] Instance example_base : Evaluator := {|
  WORKERS_PER_NODE := 2;
  PYTHON_EXE := "/usr/bin/python3";
  KERAS_BACKEND := "tensorflow";
  FAIL_RETURN_VALUE := Q2Qc (1000000 # 1);
  _runner_executable := "/usr/bin/python3 runner.py";
  encode := json_stub;
  _parse := parse_stub
|}.

#[local] Instance example_launcher : Launcher := {|
  cute_id := fun job => "[" ++ job_name job ++ "]";
  LAUNCHER_NODES := 1
|}.


Local Open Scope nat_scope.

(** A configuration that overrides one resource, held by the caller as
    object 1. *)
Definition example_config : gmap string value :=
  {[ "num_nodes" := VInt 4; "epochs" := VInt 10 ]}.

Definition caller_world : World :=
  {| objects := {[ 1%positive := example_config ]}; apps := []; jobs := [];
     db_error := None; current_job := None; atomic_depth := 0; accesses := [];
     logs := [] |}.

Definition registered_world : World :=
  set_apps [{| app_name := babi_app; app_executable := "/usr/bin/python3 runner.py" |}]
           caller_world.

Definition unreachable_world : World :=
  {| objects := ∅; apps := []; jobs := [];
     db_error := Some "could not connect to server"; current_job := None;
     atomic_depth := 0; accesses := []; logs := [] |}.

(** Three constructor calls: the first registers the name, the second meets
    a database that does not answer, the third finds the name. *)
Definition example_ops : list op :=
  [ New babi_run None; Access; Access; Submit 0 1 1%positive;
    Outage (Some "server closed"); New babi_run None; Access;
    Outage None; New babi_run None; Access; Submit 1 2 1%positive ].

(** Two constructor calls: the database stops answering between the lookup
    and the save of the first, and answers again before the second. *)
Definition retry_ops : list op :=
  [ New babi_run None; Access; Outage (Some "server closed"); Access;
    Outage None; New babi_run None; Access; Access; Submit 0 1 1%positive ].

Lemma eval_exec_resource_request_witness :
  ∃ fut w',
    _eval_exec (constructed None babi_run) 1%positive registered_world
    = (Return fut, w')
    ∧ last (jobs w') = Some (task fut)
    ∧ ((∀ k, k ∈ dict_keys default_resources → example_config !! k = None) →
       job_resources (task fut)
       = [ ("num_nodes", VInt 1); ("ranks_per_node", VInt 1);
           ("threads_per_rank", VInt 64); ("node_packing_count", VInt 2) ])
    ∧ (∀ k v, k ∈ dict_keys default_resources → example_config !! k = Some v →
              dict_get k (job_resources (task fut)) = Some v)
    ∧ (∀ k, example_config !! k = None →
            dict_get k (job_resources (task fut)) = dict_get k default_resources).
Proof.
  exact (eval_exec_resource_request (constructed None babi_run) 1%positive
           example_config registered_world babi_app eq_refl eq_refl eq_refl).
Defined.

Lemma registration_once_before_submission_witness :
  let p := run_process (take 4 retry_ops) (start caller_world) in
  let q := run_process retry_ops (start caller_world) in
  (∀ e, e ∈ evaluators q → registrations babi_app (world q) = 1)
  ∧ registrations babi_app (world p) ≤ 1
  ∧ (1 ≤ creations babi_app (world p) → registrations babi_app caller_world = 0)
  ∧ (∀ j, j ∈ jobs (world q) → registrations (job_application j) (world q) = 1)
  ∧ (1 ≤ registrations babi_app
           (world (run_process (take 8 retry_ops) (start caller_world))) →
     creations babi_app (world q)
     = creations babi_app
         (world (run_process (take 8 retry_ops) (start caller_world)))).
Proof.
  intros p q.
  destruct (registration_once_before_submission caller_world retry_ops 9
              eq_refl eq_refl (fun n => le_S 0 0 (le_n 0)))
    as (_ & _ & He & _ & _ & _ & Hj).
  destruct (registration_once_before_submission caller_world retry_ops 4
              eq_refl eq_refl (fun n => le_S 0 0 (le_n 0)))
    as (_ & _ & _ & Hle & Hc & _).
  destruct (registration_once_before_submission caller_world retry_ops 8
              eq_refl eq_refl (fun n => le_S 0 0 (le_n 0)))
    as (_ & _ & _ & _ & _ & Hlater & _).
  split; [| split; [| split; [| split]]].
  - intros e Hin. destruct (He e Hin) as (n & Hn & Hname & Hreg). reflexivity.
  - exact (Hle babi_app).
  - exact (Hc babi_app).
  - exact Hj.
  - intros H. exact (proj1 (Hlater babi_app H)).
Defined.

Example example_ops_run :
  let p := run_process example_ops (start caller_world) in
  length (evaluators p) = 2 ∧ length (jobs (world p)) = 2
  ∧ map fst (accesses (world p))
    = [ Lookup babi_app; Save babi_app; AddJob "task1"; Lookup babi_app;
        Lookup babi_app; AddJob "task2" ].
Proof. vm_compute. repeat split. Qed.

(** The steps of a constructor call that nothing disturbs are [__init__]. *)
Example constructor_steps_are_init :
  world (run_process [New babi_run None; Access; Access] (start caller_world))
  = snd (__init__ babi_run None caller_world)
  ∧ evaluators (run_process [New babi_run None; Access; Access] (start caller_world))
    = [constructed None babi_run].
Proof.
  destruct (constructor_undisturbed (start caller_world) babi_run None eq_refl)
    as (Hw & He & _).
  split; [exact Hw | exact He].
Qed.

(** C4, as stated, fails.  The first constructor looks the name up and finds
    it absent; the database stops answering, and the save of that
    constructor fails: a creation was attempted and no row was written.
    The database answers again, and the next constructor of the same
    process looks the name up, finds it absent and attempts the creation a
    second time. *)
Lemma failed_creation_is_attempted_again :
  let p := run_process retry_ops (start caller_world) in
  creations babi_app (world p) = 2
  ∧ registrations babi_app (world p) = 1
  ∧ length (evaluators p) = 1
  ∧ accesses (world p)
    = [ (Lookup babi_app, 0); (Save babi_app, 0);
        (Lookup babi_app, 0); (Save babi_app, 0); (AddJob "task1", 0) ]
  ∧ ¬ (∀ ops n, creations n (world (run_process ops (start caller_world))) ≤ 1).
Proof.
  split; [reflexivity |]. split; [reflexivity |]. split; [reflexivity |].
  split; [reflexivity |].
  intros H. specialize (H retry_ops babi_app).
  change (creations babi_app (world (run_process retry_ops (start caller_world))))
    with 2 in H.
  lia.
Qed.

Lemma init_app_lookup_failure_witness :
  (_init_app (Evaluator_init babi_run None) unreachable_world
   = (Raise (OperationalError "could not connect to server"),
      snd (objects_get babi_app unreachable_world))
   ∧ fst (__init__ babi_run None unreachable_world)
     = Raise (OperationalError "could not connect to server")
   ∧ apps (snd (__init__ babi_run None unreachable_world)) = [])
  ∧ (fst (__init__ babi_run None caller_world) = Return (constructed None babi_run)
     ∧ apps (snd (__init__ babi_run None caller_world))
       = [{| app_name := babi_app; app_executable := "/usr/bin/python3 runner.py" |}]).
Proof.
  split.
  - destruct (init_app_lookup_failure (Evaluator_init babi_run None) None
                unreachable_world (OperationalError "could not connect to server")
                eq_refl) as [H _].
    destruct (H eq_refl) as (H1 & H2 & H3 & _). auto.
  - destruct (init_app_lookup_failure (Evaluator_init babi_run None) None
                caller_world DoesNotExist eq_refl) as [_ H].
    destruct (H eq_refl) as (_ & H2 & H3 & _). auto.
Defined.

(** C7, as stated, fails.  The constructor of a process that holds no
    transaction makes its lookup and its save at depth 0, under no guard;
    and when two constructors for the same entry point both look the name up
    before either saves, both find it absent and both save: the table ends
    with two registrations of one name. *)
Lemma concurrent_constructors_register_twice :
  accesses (snd (__init__ babi_run None fresh_world))
  = [(Lookup babi_app, 0); (Save babi_app, 0)]
  ∧ fst (interleave [babi_app; babi_app] [0; 1; 0; 1] [Checking; Checking] fresh_world)
    = [Finished; Finished]
  ∧ registrations babi_app
      (snd (interleave [babi_app; babi_app] [0; 1; 0; 1] [Checking; Checking]
              fresh_world)) = 2
  ∧ accesses (snd (interleave [babi_app; babi_app] [0; 1; 0; 1]
                     [Checking; Checking] fresh_world))
    = [(Lookup babi_app, 0); (Lookup babi_app, 0);
       (Save babi_app, 0); (Save babi_app, 0)].
Proof. repeat split. Qed.

(** An evaluator that itself runs inside a Balsam job of the workflow
    [search-42]. *)
Definition inside_job_world : World :=
  {| objects := objects registered_world; apps := apps registered_world; jobs := [];
     db_error := None;
     current_job :=
       Some {| job_name := "search"; job_workflow := "search-42";
               job_application := "deephyper.search.ambs"; job_args := "";
               job_environ_vars := ""; job_resources := []; job_workdir := ∅ |};
     atomic_depth := 0; accesses := []; logs := [] |}.

Lemma eval_exec_request_keys_witness :
  ∃ fut w',
    _eval_exec (constructed None babi_run) 1%positive registered_world
    = (Return fut, w')
    ∧ dict_keys (job_resources (task fut))
      = ["num_nodes"; "ranks_per_node"; "threads_per_rank"; "node_packing_count"]
    ∧ ∀ k, k ∉ dict_keys default_resources →
           dict_get k (job_resources (task fut)) = None.
Proof.
  exact (eval_exec_request_keys (constructed None babi_run) 1%positive
           example_config registered_world babi_app eq_refl eq_refl eq_refl).
Defined.

Lemma eval_exec_workflow_witness :
  (∃ fut w',
     _eval_exec (constructed None babi_run) 1%positive inside_job_world
     = (Return fut, w')
     ∧ job_workflow (task fut) = "search-42"
     ∧ job_name (task fut) = "task0")
  ∧ (∃ fut w',
       _eval_exec (set_counter 7 (constructed None babi_run)) 1%positive
         registered_world
       = (Return fut, w')
       ∧ job_workflow (task fut) = babi_app
       ∧ job_name (task fut) = "task7").
Proof.
  split.
  - destruct (eval_exec_workflow (constructed None babi_run) 1%positive
                example_config inside_job_world babi_app eq_refl eq_refl eq_refl)
      as (fut & w' & Hr & Hin & _ & _ & Hname & _).
    exists fut, w'. split; [exact Hr |]. split; [exact (Hin _ eq_refl) | exact Hname].
  - destruct (eval_exec_workflow (set_counter 7 (constructed None babi_run))
                1%positive example_config registered_world babi_app
                eq_refl eq_refl eq_refl)
      as (fut & w' & Hr & _ & Hout & _ & Hname & _).
    exists fut, w'. split; [exact Hr |]. split; [exact (Hout eq_refl) | exact Hname].
Defined.

Lemma eval_exec_names_witness :
  ∃ fut1 fut2 w1 w2,
    _eval_exec (set_counter 1 (constructed None babi_run)) 1%positive registered_world
    = (Return fut1, w1)
    ∧ _eval_exec (set_counter 2 (constructed None babi_run)) 1%positive w1
      = (Return fut2, w2)
    ∧ job_name (task fut1) ++ ".out" ≠ job_name (task fut2) ++ ".out".
Proof.
  destruct (eval_exec_job (set_counter 1 (constructed None babi_run)) 1%positive
              example_config registered_world babi_app eq_refl eq_refl eq_refl)
    as (fut1 & w1 & Hr1 & _ & _ & _ & _ & _ & _ & _ & _ & _ & Hj1).
  assert (Hw1 : objects w1 !! 1%positive = Some example_config
                ∧ db_error w1 = None).
  { pose proof (eval_exec_effect (set_counter 1 (constructed None babi_run))
                  1%positive registered_world) as He.
    simpl in He. rewrite Hr1 in He. simpl in He. destruct He as (_ & Ho & _).
    rewrite Ho. split; [reflexivity |].
    revert Hr1. vm_compute. intros H. injection H as _ <-. reflexivity. }
  destruct Hw1 as [Ho1 Hd1].
  destruct (eval_exec_job (set_counter 2 (constructed None babi_run)) 1%positive
              example_config w1 babi_app Ho1 eq_refl Hd1)
    as (fut2 & w2 & Hr2 & _).
  exists fut1, fut2, w1, w2. split; [exact Hr1 |]. split; [exact Hr2 |].
  intros Heq.
  apply (eval_exec_names _ _ _ _ _ _ _ _ _ _ Hr1 Hr2) in Heq. discriminate Heq.
Defined.

Lemma eval_exec_callbacks_witness :
  ∃ fut w',
    _eval_exec (set_counter 3 (constructed None babi_run)) 1%positive registered_world
    = (Return fut, w')
    ∧ (∀ job w2, ∃ w2', fail_callback fut job w2 = (Return FAIL_RETURN_VALUE, w2'))
    ∧ done_callback fut (task fut) tt w'
      = (Raise (FileNotFoundError "task3.out"), w').
Proof.
  destruct (eval_exec_job (set_counter 3 (constructed None babi_run)) 1%positive
              example_config registered_world babi_app eq_refl eq_refl eq_refl)
    as (fut & w' & Hr & _).
  exists fut, w'. split; [exact Hr |].
  destruct (eval_exec_callbacks _ _ _ _ _ Hr) as [Hfail Hdone].
  split; [exact Hfail |].
  rewrite (Hdone (task fut) tt w' eq_refl).
  assert (Hwd : job_workdir (task fut) = ∅).
  { revert Hr. vm_compute. intros H. injection H as <- _. reflexivity. }
  rewrite Hwd. reflexivity.
Defined.

(** After the race of two constructors, the name is registered twice and no
    constructor for it succeeds any more. *)
Lemma init_returns_iff_witness :
  fst (__init__ babi_run None
         (snd (interleave [babi_app; babi_app] [0; 1; 0; 1] [Checking; Checking]
                 fresh_world)))
  = Raise MultipleObjectsReturned
  ∧ (∃ e, fst (__init__ babi_run None fresh_world) = Return e).
Proof.
  split.
  - destruct (init_returns_iff babi_run None
                (snd (interleave [babi_app; babi_app] [0; 1; 0; 1]
                        [Checking; Checking] fresh_world)))
      as (_ & _ & Hdup & _).
    apply Hdup; [reflexivity | vm_compute; lia].
  - destruct (init_returns_iff babi_run None fresh_world) as (Hiff & _).
    apply Hiff. split; [reflexivity | vm_compute; lia].
Defined.

End Balsam.

(** ** [benchmarks/b3/babi_rnn.py] *)

Module BabiRnn.

Definition BNAME : string := "babi_rnn".

Definition newline : string := String (ascii_of_nat 10) "".

Inductive rnn : Type := GRU | SimpleRNN | LSTM.

(** What the script takes from Keras, from [deephyper.benchmarks
    .keras_cmdline] (not among the sources) and from the Python runtime.
    [load_stories] stands for lines 250 to 266 of [run]: opening the
    archive, reading and vectorising the stories; [describe] for the five
    lines printed about them. *)
Class Runtime : Type := {
  Model : Type;
  Dataset : Type;
  Optimizer : Type;
  (** [vars(keras_cmdline.create_parser().parse_args(''))], in order *)
  create_parser : list (string * value);
  return_optimizer : gmap string value -> Optimizer;
  (** [os.path.dirname(os.path.abspath(__file__))] *)
  here : string;
  get_file : string -> string -> outcome string;
  load_stories : string -> outcome Dataset;
  describe : Dataset -> list string;
  build_model : Dataset -> rnn -> value -> value -> Optimizer -> Model;
  fit : Model -> Dataset -> value -> value -> Model;
  evaluate : Model -> Dataset -> value -> Qc * Qc;
  sha224_hexdigest : string -> string;
  (** [str] of a float, of a dictionary, of an RNN class; ['{:.4f}'] *)
  float_repr : Qc -> string;
  dict_repr : gmap string value -> string;
  rnn_repr : rnn -> string;
  format_4f : Qc -> string
}.

Section Script.

Context {rt : Runtime}.

(** What a path of the file system holds. *)
Inductive file : Type :=
| Directory
| H5 (m : Model)
| Pickle (data : gmap string value)
| Bytes (content : string).

(** The dictionaries of the process by identity, the file system, and what
    was printed, one entry for each call of [print].  The file system is
    the paths the script itself tests, reads and writes; what Keras keeps in
    its own cache directory behind [get_file] is not among them. *)
Record World : Type := {
  heap : gmap positive (gmap string value);
  files : gmap string file;
  stdout : list string
}.

Definition set_heap (h : gmap positive (gmap string value)) (w : World) : World :=
  {| heap := h; files := files w; stdout := stdout w |}.
Definition set_files (f : gmap string file) (w : World) : World :=
  {| heap := heap w; files := f; stdout := stdout w |}.
Definition set_stdout (out : list string) (w : World) : World :=
  {| heap := heap w; files := files w; stdout := out |}.

Definition print (line : string) : M World unit :=
  modify (fun w => set_stdout (stdout w ++ [line]) w).

Definition lift {A} (o : outcome A) : M World A := fun w => (o, w).

(** *** Dictionaries through a reference *)

Definition deref (d : positive) : M World (gmap string value) :=
  w <-- get;
  match heap w !! d with
  | Some m => ret m
  | None => raise TypeError
  end.

(** [key in d] *)
Definition contains (d : positive) (key : string) : M World bool :=
  m <-- deref d;
  ret (bool_decide (is_Some (m !! key))).

(** [d[key]] *)
Definition getitem (d : positive) (key : string) : M World value :=
  m <-- deref d;
  match m !! key with
  | Some v => ret v
  | None => raise (KeyError key)
  end.

(** [d[key] = v] *)
Definition setitem (d : positive) (key : string) (v : value) : M World unit :=
  m <-- deref d;
  modify (fun w => set_heap (<[d := <[key := v]> m]> (heap w)) w).

(** *** Values as Python prints and compares them *)

Definition str (v : value) : string :=
  match v with
  | VNone => "None"
  | VBool true => "True"
  | VBool false => "False"
  | VInt n => pretty n
  | VFloat q => float_repr q
  | VStr s => s
  end.

Definition number (v : value) : option Qc :=
  match v with
  | VBool b => Some (Q2Qc (inject_Z (if b then 1 else 0)))
  | VInt n => Some (Q2Qc (inject_Z n))
  | VFloat q => Some q
  | VNone | VStr _ => None
  end.

(** [a < b]: numbers by value, strings lexicographically, anything else is
    a [TypeError]. *)
Definition lt (a b : value) : outcome bool :=
  match a, b with
  | VStr s, VStr t => Return (String.ltb s t)
  | _, _ =>
      match number a, number b with
      | Some p, Some q => Return (bool_decide (p < q)%Qc)
      | _, _ => Raise TypeError
      end
  end.

(** *** The functions of the script *)

(** The loop of [extension_from_parameters] over the sorted keys. *)
Fixpoint extension_loop (param_dict : gmap string value) (keys : list string)
    (extension : string) : M World string :=
  match keys with
  | [] => ret extension
  | key :: keys' =>
      if negb (String.eqb key "epochs") then
        match param_dict !! key with
        | Some v =>
            print (key ++ ": " ++ str v);;
            extension_loop param_dict keys' (extension ++ "." ++ key ++ "=" ++ str v)
        | None => raise (KeyError key)
        end
      else extension_loop param_dict keys' extension
  end.

(** [sorted(param_dict)] *)
Definition sorted (param_dict : gmap string value) : list string :=
  merge_sort String.le (map fst (map_to_list param_dict)).

Definition extension_from_parameters (param_dict : positive) : M World string :=
  m <-- deref param_dict;
  extension <-- extension_loop m (sorted m) "";
  print extension;;
  ret extension.

(** [save_meta_data(data, filename)]: pickles what [data] holds now.  The
    file is taken to open for writing; a path where [open] raises (a
    directory, for one) is outside what is modelled. *)
Definition save_meta_data (data : positive) (filename : string) : M World unit :=
  m <-- deref data;
  modify (fun w => set_files (<[filename := Pickle m]> (files w)) w).

Definition load_meta_data (filename : string) : M World (gmap string value) :=
  w <-- get;
  match files w !! filename with
  | Some (Pickle data) => ret data
  | Some _ => raise (ValueError filename)
  | None => raise (FileNotFoundError filename)
  end.

(** [keras.models.load_model] and [model.save]. *)
Definition load_model (filename : string) : M World Model :=
  w <-- get;
  match files w !! filename with
  | Some (H5 m) => ret m
  | Some _ => raise (ValueError filename)
  | None => raise (FileNotFoundError filename)
  end.

Definition model_save (m : Model) (filename : string) : M World unit :=
  modify (fun w => set_files (<[filename := H5 m]> (files w)) w).

(** [os.path.exists] *)
Definition exists_ (path : string) : M World bool :=
  w <-- get;
  ret (bool_decide (is_Some (files w !! path))).

Definition list_repr (l : list string) : string :=
  "[" ++ String.concat ", " (map (fun s => "'" ++ s ++ "'") l) ++ "]".

(** [os.path.join(a, b)] as [posixpath] has it: a [b] that starts with a
    slash stands alone; otherwise the two are joined, with a slash between
    them unless [a] is empty or ends with one. *)
Definition starts_with_slash (s : string) : bool :=
  match s with
  | String c _ => Ascii.eqb c "/"
  | EmptyString => false
  end.

Fixpoint ends_with_slash (s : string) : bool :=
  match s with
  | EmptyString => false
  | String c EmptyString => Ascii.eqb c "/"
  | String _ s' => ends_with_slash s'
  end.

Definition path_join (a b : string) : string :=
  if starts_with_slash b then b
  else if String.eqb a "" || ends_with_slash a then a ++ b
  else a ++ "/" ++ b.

(** The loop of [stage_in]. *)
Fixpoint stage_loop (prepend origin_dir_path : string) (use_cache : bool)
    (file_names : list string) (paths : list (string * string))
  : M World (list (string * string)) :=
  match file_names with
  | [] => ret paths
  | name :: file_names' =>
      let origin := path_join origin_dir_path name in
      path <-- (if use_cache
                then lift (get_file (prepend ++ name) ("file://" ++ origin))
                else ret origin);
      let paths := dict_set name path paths in
      print ("File " ++ name ++ " will be read from " ++ path);;
      stage_loop prepend origin_dir_path use_cache file_names' paths
  end.

Definition stage_in (file_names : list string) (local_path : string)
    (use_cache : bool) : M World (list (string * string)) :=
  there <-- exists_ local_path;
  let prepend := if there then local_path else "" in
  let origin_dir_path := path_join here "data" in
  print ("Looking for files: " ++ list_repr file_names);;
  print ("In origin: " ++ origin_dir_path);;
  stage_loop prepend origin_dir_path use_cache file_names [].

(** [augment_parser]: four more arguments, with their defaults. *)
Definition augment_parser (parser : list (string * value)) : list (string * value) :=
  dict_set "query_hidden_size" (VInt 100)
    (dict_set "sent_hidden_size" (VInt 100)
       (dict_set "embed_hidden_size" (VInt 50)
          (dict_set "rnn_type" (VStr "LSTM") parser))).

Definition defaults : list (string * value) := augment_parser create_parser.

(** [for key in default_params: if key not in param_dict:
    param_dict[key] = default_params[key]] *)
Fixpoint fill_defaults (param_dict : positive) (default_params : list (string * value))
    (keys : list string) : M World unit :=
  match keys with
  | [] => ret tt
  | key :: keys' =>
      there <-- contains param_dict key;
      (if negb there
       then match dict_get key default_params with
            | Some v => setitem param_dict key v
            | None => raise (KeyError key)
            end
       else ret tt);;
      fill_defaults param_dict default_params keys'
  end.

Definition dataset_hint : string :=
  "Error downloading dataset, please download it manually:" ++ newline
  ++ "$ wget http://www.thespermwhale.com/jaseweston/babi/tasks_1-20_v1-2.tar.gz"
  ++ newline
  ++ "$ mv tasks_1-20_v1-2.tar.gz ~/.keras/datasets/babi-tasks-v1-2.tar.gz".

(** What [run] has bound when it reaches the data set. *)
Record Params : Type := {
  optimizer : Optimizer;
  BATCH_SIZE : value;
  EPOCHS : value;
  DROPOUT : value;
  RNN : rnn;
  EMBED_HIDDEN_SIZE : value;
  SENT_HIDDEN_SIZE : value;
  QUERY_HIDDEN_SIZE : value
}.

(** Lines 206 to 231 of [run]. *)
Definition run_parameters (param_dict : positive) : M World Params :=
  let default_params := defaults in
  fill_defaults param_dict default_params (dict_keys default_params);;
  m <-- deref param_dict;
  let optimizer := return_optimizer m in
  print (dict_repr m);;
  BATCH_SIZE <-- getitem param_dict "batch_size";
  EPOCHS <-- getitem param_dict "epochs";
  DROPOUT <-- getitem param_dict "dropout";
  rnn_type <-- getitem param_dict "rnn_type";
  let RNN := match rnn_type with
             | VStr "GRU" => GRU
             | VStr "SimpleRNN" => SimpleRNN
             | _ => LSTM
             end in
  EMBED_HIDDEN_SIZE <-- getitem param_dict "embed_hidden_size";
  SENT_HIDDEN_SIZE <-- getitem param_dict "sent_hidden_size";
  QUERY_HIDDEN_SIZE <-- getitem param_dict "query_hidden_size";
  print ("RNN / Embed / Sent / Query = " ++ rnn_repr RNN ++ ", "
         ++ str EMBED_HIDDEN_SIZE ++ ", " ++ str SENT_HIDDEN_SIZE ++ ", "
         ++ str QUERY_HIDDEN_SIZE);;
  ret {| optimizer := optimizer; BATCH_SIZE := BATCH_SIZE; EPOCHS := EPOCHS;
         DROPOUT := DROPOUT; RNN := RNN; EMBED_HIDDEN_SIZE := EMBED_HIDDEN_SIZE;
         SENT_HIDDEN_SIZE := SENT_HIDDEN_SIZE;
         QUERY_HIDDEN_SIZE := QUERY_HIDDEN_SIZE |}.

(** The body of the [try] of lines 233 to 235. *)
Definition stage_dataset : M World string :=
  paths <-- stage_in ["babi-tasks-v1-2.tar.gz"] "/local/scratch/" true;
  match dict_get "babi-tasks-v1-2.tar.gz" paths with
  | Some path => ret path
  | None => raise (KeyError "babi-tasks-v1-2.tar.gz")
  end.

(** Lines 233 to 240: a bare [except] that prints and re-raises. *)
Definition run_stage : M World string :=
  try_except stage_dataset (fun e => print dataset_hint;; raise e).

Fixpoint print_all (lines : list string) : M World unit :=
  match lines with
  | [] => ret tt
  | line :: lines' => print line;; print_all lines'
  end.

(** Lines 250 to 272. *)
Definition run_load (path : string) : M World Dataset :=
  data <-- lift (load_stories path);
  print_all (describe data);;
  ret data.

Definition model_file (extension : string) : string :=
  BNAME ++ "-" ++ sha224_hexdigest extension ++ ".h5".
Definition meta_file (extension : string) : string :=
  BNAME ++ "-" ++ sha224_hexdigest extension ++ ".pkl".

(** Lines 279 to 289: the model loaded, if any, [initial_epoch] and
    [resume]. *)
Definition run_checkpoint (param_dict : positive) (model_name model_mda_name : string)
  : M World (option Model * value * bool) :=
  let initial_epoch := VInt 0 in
  let resume := false in
  has_model <-- exists_ model_name;
  has_meta <-- (if has_model then exists_ model_mda_name else ret false);
  if has_model && has_meta then
    print "model and meta data exists; loading model from h5 file";;
    model <-- load_model model_name;
    saved_param_dict <-- load_meta_data model_mda_name;
    initial_epoch <-- match saved_param_dict !! "epochs" with
                      | Some v => ret v
                      | None => raise (KeyError "epochs")
                      end;
    requested <-- getitem param_dict "epochs";
    fewer <-- lift (lt initial_epoch requested);
    ret (Some model, initial_epoch, if fewer then true else resume)
  else ret (None, initial_epoch, resume).

(** Lines 291 to 319. *)
Definition run_train (param_dict : positive) (p : Params) (data : Dataset)
    (model_name model_mda_name : string) (loaded : option Model) (resume : bool)
  : M World Qc :=
  model <-- match resume, loaded with
            | true, Some model => ret model
            | _, _ =>
                print "Build model...";;
                ret (build_model data (RNN p) (EMBED_HIDDEN_SIZE p) (DROPOUT p)
                       (optimizer p))
            end;
  print "Training";;
  let model := fit model data (BATCH_SIZE p) (EPOCHS p) in
  let '(loss, acc) := evaluate model data (BATCH_SIZE p) in
  print ("Test loss / test accuracy = " ++ format_4f loss ++ " / " ++ format_4f acc);;
  print ("OUTPUT: " ++ float_repr (- acc)%Qc);;
  model_save model model_name;;
  save_meta_data param_dict model_mda_name;;
  ret (- acc)%Qc.

Definition run (param_dict : positive) : M World Qc :=
  p <-- run_parameters param_dict;
  path <-- run_stage;
  data <-- run_load path;
  extension <-- extension_from_parameters param_dict;
  let model_name := model_file extension in
  let model_mda_name := meta_file extension in
  checkpoint <-- run_checkpoint param_dict model_name model_mda_name;
  let '(loaded, initial_epoch, resume) := checkpoint in
  run_train param_dict p data model_name model_mda_name loaded resume.

(** *** What a piece of the script leaves alone *)

(** [m] writes no dictionary. *)
Definition keeps_heap {A} (m : M World A) : Prop :=
  ∀ w, heap (snd (m w)) = heap w.

(** [m] only adds to what was printed. *)
Definition appends {A} (m : M World A) : Prop :=
  ∀ w, ∃ out, stdout (snd (m w)) = (stdout w ++ out)%list.

Lemma keeps_heap_bind {A B} (m : M World A) (k : A → M World B) :
  keeps_heap m → (∀ a, keeps_heap (k a)) → keeps_heap (bind m k).
Proof.
  intros Hm Hk w. unfold bind. specialize (Hm w).
  destruct (m w) as [[a | e] w1]; simpl in *; [| exact Hm].
  rewrite (Hk a w1). exact Hm.
Qed.

Lemma appends_bind {A B} (m : M World A) (k : A → M World B) :
  appends m → (∀ a, appends (k a)) → appends (bind m k).
Proof.
  intros Hm Hk w. unfold bind. destruct (Hm w) as [out1 H1].
  destruct (m w) as [[a | e] w1]; simpl in *; [| eauto].
  destruct (Hk a w1) as [out2 H2]. exists (out1 ++ out2)%list.
  rewrite H2, H1, app_assoc. reflexivity.
Qed.

Lemma keeps_heap_try {A} (m : M World A) (h : exn → M World A) :
  keeps_heap m → (∀ e, keeps_heap (h e)) → keeps_heap (try_except m h).
Proof.
  intros Hm Hh w. unfold try_except. specialize (Hm w).
  destruct (m w) as [[a | e] w1]; simpl in *; [exact Hm |].
  rewrite (Hh e w1). exact Hm.
Qed.

Lemma appends_try {A} (m : M World A) (h : exn → M World A) :
  appends m → (∀ e, appends (h e)) → appends (try_except m h).
Proof.
  intros Hm Hh w. unfold try_except. destruct (Hm w) as [out1 H1].
  destruct (m w) as [[a | e] w1]; simpl in *; [eauto |].
  destruct (Hh e w1) as [out2 H2]. exists (out1 ++ out2)%list.
  rewrite H2, H1, app_assoc. reflexivity.
Qed.

Lemma keeps_heap_ret {A} (a : A) : keeps_heap (ret a).
Proof. intros w. reflexivity. Qed.
Lemma keeps_heap_raise {A} e : keeps_heap (raise e : M World A).
Proof. intros w. reflexivity. Qed.
Lemma keeps_heap_get : keeps_heap (get : M World World).
Proof. intros w. reflexivity. Qed.
Lemma keeps_heap_lift {A} (o : outcome A) : keeps_heap (lift o).
Proof. intros w. reflexivity. Qed.
Lemma keeps_heap_print s : keeps_heap (print s).
Proof. intros w. reflexivity. Qed.

Lemma appends_ret {A} (a : A) : appends (ret a).
Proof. intros w. exists []. simpl. rewrite app_nil_r. reflexivity. Qed.
Lemma appends_raise {A} e : appends (raise e : M World A).
Proof. intros w. exists []. simpl. rewrite app_nil_r. reflexivity. Qed.
Lemma appends_get : appends (get : M World World).
Proof. intros w. exists []. simpl. rewrite app_nil_r. reflexivity. Qed.
Lemma appends_lift {A} (o : outcome A) : appends (lift o).
Proof. intros w. exists []. simpl. rewrite app_nil_r. reflexivity. Qed.
Lemma appends_print s : appends (print s).
Proof. intros w. exists [s]. reflexivity. Qed.
Lemma appends_modify_heap f :
  appends (modify (fun w => set_heap (f w) w)).
Proof. intros w. exists []. simpl. rewrite app_nil_r. reflexivity. Qed.
Lemma appends_modify_files f :
  appends (modify (fun w => set_files (f w) w)).
Proof. intros w. exists []. simpl. rewrite app_nil_r. reflexivity. Qed.
Lemma keeps_heap_modify_files f :
  keeps_heap (modify (fun w => set_files (f w) w)).
Proof. intros w. reflexivity. Qed.

Create HintDb frame.
#[local] Hint Resolve keeps_heap_ret keeps_heap_raise keeps_heap_get keeps_heap_lift
  keeps_heap_print keeps_heap_modify_files appends_ret appends_raise appends_get
  appends_lift appends_print appends_modify_heap appends_modify_files : frame.

(** Takes a composed action apart down to the primitives above. *)
Ltac frame :=
  repeat first
    [ progress auto with frame
    | progress cbv zeta
    | apply keeps_heap_bind; [| intros ?]
    | apply appends_bind; [| intros ?]
    | apply keeps_heap_try; [| intros ?]
    | apply appends_try; [| intros ?]
    | match goal with
      | |- keeps_heap (match ?x with _ => _ end) => destruct x
      | |- appends (match ?x with _ => _ end) => destruct x
      | |- keeps_heap (if ?x then _ else _) => destruct x
      | |- appends (if ?x then _ else _) => destruct x
      end ].

Lemma keeps_heap_deref d : keeps_heap (deref d).
Proof. unfold deref. frame. Qed.
Lemma appends_deref d : appends (deref d).
Proof. unfold deref. frame. Qed.
#[local] Hint Resolve keeps_heap_deref appends_deref : frame.

Lemma keeps_heap_getitem d k : keeps_heap (getitem d k).
Proof. unfold getitem. frame. Qed.
Lemma appends_getitem d k : appends (getitem d k).
Proof. unfold getitem. frame. Qed.
Lemma appends_contains d k : appends (contains d k).
Proof. unfold contains. frame. Qed.
Lemma appends_setitem d k v : appends (setitem d k v).
Proof. unfold setitem. frame. Qed.
Lemma keeps_heap_exists p : keeps_heap (exists_ p).
Proof. unfold exists_. frame. Qed.
Lemma appends_exists p : appends (exists_ p).
Proof. unfold exists_. frame. Qed.
#[local] Hint Resolve keeps_heap_getitem appends_getitem appends_contains
  appends_setitem keeps_heap_exists appends_exists : frame.

Lemma keeps_heap_extension_loop m keys ext : keeps_heap (extension_loop m keys ext).
Proof. revert ext. induction keys as [| k keys IH]; intros ext; simpl; frame. Qed.
Lemma appends_extension_loop m keys ext : appends (extension_loop m keys ext).
Proof. revert ext. induction keys as [| k keys IH]; intros ext; simpl; frame. Qed.
#[local] Hint Resolve keeps_heap_extension_loop appends_extension_loop : frame.

Lemma keeps_heap_extension d : keeps_heap (extension_from_parameters d).
Proof. unfold extension_from_parameters. frame. Qed.
Lemma appends_extension d : appends (extension_from_parameters d).
Proof. unfold extension_from_parameters. frame. Qed.

Lemma keeps_heap_stage_loop pre dir c names paths :
  keeps_heap (stage_loop pre dir c names paths).
Proof. revert paths. induction names as [| n names IH]; intros paths; simpl; frame. Qed.
Lemma appends_stage_loop pre dir c names paths :
  appends (stage_loop pre dir c names paths).
Proof. revert paths. induction names as [| n names IH]; intros paths; simpl; frame. Qed.
#[local] Hint Resolve keeps_heap_extension appends_extension
  keeps_heap_stage_loop appends_stage_loop : frame.

Lemma keeps_heap_stage_in names p c : keeps_heap (stage_in names p c).
Proof. unfold stage_in. frame. Qed.
Lemma appends_stage_in names p c : appends (stage_in names p c).
Proof. unfold stage_in. frame. Qed.
#[local] Hint Resolve keeps_heap_stage_in appends_stage_in : frame.

Lemma keeps_heap_run_stage : keeps_heap run_stage.
Proof. unfold run_stage, stage_dataset. frame. Qed.
Lemma appends_run_stage : appends run_stage.
Proof. unfold run_stage, stage_dataset. frame. Qed.

Lemma keeps_heap_print_all lines : keeps_heap (print_all lines).
Proof. induction lines; simpl; frame. Qed.
Lemma appends_print_all lines : appends (print_all lines).
Proof. induction lines; simpl; frame. Qed.
#[local] Hint Resolve keeps_heap_print_all appends_print_all : frame.

Lemma keeps_heap_run_load path : keeps_heap (run_load path).
Proof. unfold run_load. frame. Qed.
Lemma appends_run_load path : appends (run_load path).
Proof. unfold run_load. frame. Qed.

Lemma keeps_heap_checkpoint d a b : keeps_heap (run_checkpoint d a b).
Proof. unfold run_checkpoint, load_model, load_meta_data. frame. Qed.
Lemma appends_checkpoint d a b : appends (run_checkpoint d a b).
Proof. unfold run_checkpoint, load_model, load_meta_data. frame. Qed.

Lemma keeps_heap_train d p data a b loaded resume :
  keeps_heap (run_train d p data a b loaded resume).
Proof. unfold run_train, model_save, save_meta_data. frame. Qed.
Lemma appends_train d p data a b loaded resume :
  appends (run_train d p data a b loaded resume).
Proof. unfold run_train, model_save, save_meta_data. frame. Qed.
#[local] Hint Resolve keeps_heap_run_stage appends_run_stage keeps_heap_run_load
  appends_run_load keeps_heap_checkpoint appends_checkpoint keeps_heap_train
  appends_train : frame.

(** *** Filling in the defaults *)

Lemma heap_bind {A B} (m : M World A) (k : A → M World B) w :
  (∀ a, keeps_heap (k a)) → heap (snd (bind m k w)) = heap (snd (m w)).
Proof.
  intros Hk. unfold bind. destruct (m w) as [[a | e] w1]; simpl; [apply Hk | reflexivity].
Qed.

Lemma dict_get_keys {V} (k : string) (d : list (string * V)) :
  k ∈ dict_keys d ↔ is_Some (dict_get k d).
Proof.
  induction d as [| [k' v'] d IH]; simpl.
  - split; [intros H; inversion H | intros [v H]; discriminate].
  - destruct (String.eqb_spec k' k) as [-> | Hne].
    + split; [eauto | intros _; apply list_elem_of_here].
    + rewrite <- IH. split.
      * intros H. apply elem_of_cons in H as [H | H]; [congruence | exact H].
      * intros H. apply list_elem_of_further, H.
Qed.

(** The dictionary after the loop of lines 207 to 209. *)
Fixpoint fill (default_params : list (string * value)) (keys : list string)
    (m : gmap string value) : gmap string value :=
  match keys with
  | [] => m
  | key :: keys' =>
      match m !! key, dict_get key default_params with
      | None, Some v => fill default_params keys' (<[key := v]> m)
      | _, _ => fill default_params keys' m
      end
  end.

Lemma fill_lookup dp keys (m : gmap string value) k :
  fill dp keys m !! k
  = match m !! k with
    | Some v => Some v
    | None => if decide (k ∈ keys) then dict_get k dp else None
    end.
Proof.
  revert m. induction keys as [| key keys IH]; intros m; cbn [fill].
  - destruct (m !! k); [reflexivity |].
    destruct (decide (k ∈ [])) as [H | H]; [inversion H | reflexivity].
  - assert (Hsame : fill dp keys m !! k
                    = match m !! k with
                      | Some v => Some v
                      | None => if decide (k ∈ key :: keys)
                                then dict_get k dp else None
                      end
                    ∨ (m !! k = None ∧ k = key)).
    { rewrite IH. destruct (m !! k) eqn:Hk; [left; reflexivity |].
      destruct (decide (k = key)) as [-> | Hne]; [right; auto | left].
      destruct (decide (k ∈ keys)) as [H1 | H1],
               (decide (k ∈ key :: keys)) as [H2 | H2];
        try reflexivity; exfalso;
        first [ apply H2, list_elem_of_further, H1
              | apply elem_of_cons in H2 as [? | ?]; [congruence | contradiction] ]. }
    destruct (m !! key) as [v0 |] eqn:Hkey.
    + destruct Hsame as [H | [H1 ->]]; [exact H | congruence].
    + destruct (dict_get key dp) as [v |] eqn:Hd.
      * rewrite IH. destruct (decide (key = k)) as [-> | Hne].
        -- rewrite lookup_insert_eq, Hkey.
           destruct (decide (k ∈ k :: keys)) as [H | H]; [congruence |].
           exfalso. apply H, list_elem_of_here.
        -- rewrite lookup_insert_ne by exact Hne. destruct (m !! k); [reflexivity |].
           destruct (decide (k ∈ keys)) as [H1 | H1],
                    (decide (k ∈ key :: keys)) as [H2 | H2];
             try reflexivity; exfalso;
        first [ apply H2, list_elem_of_further, H1
              | apply elem_of_cons in H2 as [? | ?]; [congruence | contradiction] ].
      * destruct Hsame as [H | [H1 ->]]; [exact H |].
        rewrite IH, Hkey.
        destruct (decide (key ∈ key :: keys)) as [H | H];
          [| exfalso; apply H, list_elem_of_here].
        rewrite Hd. destruct (decide (key ∈ keys)); reflexivity.
Qed.

Lemma fill_all_lookup dp (m : gmap string value) k :
  fill dp (dict_keys dp) m !! k
  = match m !! k with
    | Some v => Some v
    | None => dict_get k dp
    end.
Proof.
  rewrite fill_lookup. destruct (m !! k); [reflexivity |].
  destruct (decide (k ∈ dict_keys dp)) as [H | H]; [reflexivity |].
  destruct (dict_get k dp) eqn:E; [| reflexivity].
  exfalso. apply H, dict_get_keys. eauto.
Qed.

Lemma set_heap_same w : set_heap (heap w) w = w.
Proof. destruct w. reflexivity. Qed.

Lemma fill_defaults_heap d dp keys w m :
  heap w !! d = Some m →
  (∀ k, k ∈ keys → is_Some (dict_get k dp)) →
  fill_defaults d dp keys w
  = (Return tt, set_heap (<[d := fill dp keys m]> (heap w)) w).
Proof.
  revert w m. induction keys as [| key keys IH]; intros w m Hd Hkeys; simpl.
  - unfold ret. rewrite insert_id by exact Hd. rewrite set_heap_same. reflexivity.
  - assert (Hrest : ∀ k, k ∈ keys → is_Some (dict_get k dp))
      by (intros k Hk; apply Hkeys, list_elem_of_further, Hk).
    destruct (Hkeys key (list_elem_of_here _ _)) as [v Hv]. rewrite Hv.
    unfold bind at 1. unfold contains, bind at 1, deref, bind at 1, get at 1.
    rewrite Hd. unfold ret at 1 2.
    destruct (m !! key) as [v0 |] eqn:Hkey.
    + rewrite bool_decide_eq_true_2 by eauto. simpl. unfold bind at 1, ret at 1.
      apply IH; assumption.
    + rewrite bool_decide_eq_false_2 by (intros [? ?]; discriminate). simpl.
      unfold bind at 1. unfold setitem, bind at 1, deref, bind at 1, get at 1.
      rewrite Hd. unfold ret at 1, modify.
      rewrite (IH _ (<[key := v]> m)); [| simpl; apply lookup_insert_eq | exact Hrest].
      simpl. rewrite insert_insert_eq. reflexivity.
Qed.

Lemma run_parameters_heap d w m :
  heap w !! d = Some m →
  heap (snd (run_parameters d w))
  = <[d := fill defaults (dict_keys defaults) m]> (heap w).
Proof.
  intros Hd. unfold run_parameters. rewrite heap_bind by (intros; frame).
  rewrite (fill_defaults_heap d defaults (dict_keys defaults) w m Hd).
  - reflexivity.
  - intros k Hk. apply dict_get_keys, Hk.
Qed.

Lemma run_heap d w m :
  heap w !! d = Some m →
  heap (snd (run d w))
  = <[d := fill defaults (dict_keys defaults) m]> (heap w).
Proof.
  intros Hd. unfold run. rewrite heap_bind.
  - apply run_parameters_heap, Hd.
  - intros p. frame.
Qed.

(** *** Checkpoints and training *)

Lemma bind_returns {S A B} (m : M S A) (k : A → M S B) s b s' :
  bind m k s = (Return b, s') →
  ∃ a s1, m s = (Return a, s1) ∧ k a s1 = (Return b, s').
Proof.
  unfold bind. destruct (m s) as [[a | e] s1]; [eauto | discriminate].
Qed.

Lemma lt_int (a b : Z) : lt (VInt a) (VInt b) = Return (bool_decide (a < b)%Z).
Proof.
  unfold lt, number. f_equal. apply bool_decide_ext.
  unfold Qclt, Q2Qc, this. rewrite !Qred_correct, <- Zlt_Qlt. reflexivity.
Qed.



Lemma run_checkpoint_missing d w a b :
  files w !! a = None ∨ files w !! b = None →
  run_checkpoint d a b w = (Return (None, VInt 0, false), w).
Proof.
  intros H. unfold run_checkpoint.
  unfold bind at 1. unfold exists_ at 1, bind at 1, get at 1, ret at 1.
  destruct (files w !! a) as [fa |] eqn:Ha.
  - destruct H as [H | H]; [discriminate |].
    rewrite bool_decide_eq_true_2 by eauto.
    unfold bind at 1. unfold exists_ at 1, bind at 1, get at 1, ret at 1.
    rewrite H, bool_decide_eq_false_2 by (intros [? ?]; discriminate). reflexivity.
  - rewrite bool_decide_eq_false_2 by (intros [? ?]; discriminate). reflexivity.
Qed.

(** The model [run_train] fits: the loaded one when resuming, a new one
    otherwise. *)
Definition starting_model (p : Params) (data : Dataset) (loaded : option Model)
    (resume : bool) : Model :=
  match resume, loaded with
  | true, Some model => model
  | _, _ => build_model data (RNN p) (EMBED_HIDDEN_SIZE p) (DROPOUT p) (optimizer p)
  end.

Definition build_lines (loaded : option Model) (resume : bool) : list string :=
  match resume, loaded with
  | true, Some _ => []
  | _, _ => ["Build model..."]
  end.

Lemma run_train_runs d m p data a b loaded resume w :
  heap w !! d = Some m →
  let model := fit (starting_model p data loaded resume) data (BATCH_SIZE p) (EPOCHS p) in
  let loss := fst (evaluate model data (BATCH_SIZE p)) in
  let acc := snd (evaluate model data (BATCH_SIZE p)) in
  run_train d p data a b loaded resume w
  = (Return (- acc)%Qc,
     {| heap := heap w;
        files := <[b := Pickle m]> (<[a := H5 model]> (files w));
        stdout := stdout w ++ build_lines loaded resume
                  ++ [ "Training";
                       "Test loss / test accuracy = " ++ format_4f loss ++ " / "
                         ++ format_4f acc;
                       "OUTPUT: " ++ float_repr (- acc)%Qc ] |}).
Proof.
  intros Hd model loss acc. subst model loss acc. unfold run_train.
  assert (Hsave : ∀ w0 : World, heap w0 = heap w →
            save_meta_data d b w0
            = (Return tt, set_files (<[b := Pickle m]> (files w0)) w0)).
  { intros w0 Hw0. unfold save_meta_data, bind, deref, bind, get.
    rewrite Hw0, Hd. reflexivity. }
  unfold starting_model, build_lines.
  destruct resume, loaded as [model0 |];
    unfold bind at 1; unfold ret at 1, print at 1, modify at 1, bind at 1;
    unfold ret at 1, print at 1, modify at 1, bind at 1;
    cbv zeta;
    match goal with |- context [evaluate ?mo ?da ?ba] =>
      destruct (evaluate mo da ba) as [loss acc] end;
    unfold bind, print, modify, model_save; simpl;
    rewrite Hsave by reflexivity; unfold ret, set_files; simpl;
    rewrite <- ?app_assoc; reflexivity.
Qed.

Lemma run_train_returns d p data a b loaded resume w r w' :
  run_train d p data a b loaded resume w = (Return r, w') →
  r = (- snd (evaluate (fit (starting_model p data loaded resume) data
                          (BATCH_SIZE p) (EPOCHS p)) data (BATCH_SIZE p)))%Qc
  ∧ last (stdout w') = Some ("OUTPUT: " ++ float_repr r).
Proof.
  intros Hrun. destruct (heap w !! d) as [m |] eqn:Hd.
  - rewrite (run_train_runs d m p data a b loaded resume w Hd) in Hrun.
    injection Hrun as <- <-. split; [reflexivity |]. cbn [stdout].
    rewrite !app_assoc.
    change [ "Training"; ?x; ?y ] with ([ "Training"; x ] ++ [y])%list.
    rewrite app_assoc. apply last_snoc.
  - exfalso. revert Hrun. unfold run_train.
    destruct resume, loaded as [model0 |];
      unfold bind at 1; unfold ret at 1, print at 1, modify at 1, bind at 1;
      unfold ret at 1, print at 1, modify at 1, bind at 1;
      cbv zeta;
      match goal with |- context [evaluate ?mo ?da ?ba] =>
        destruct (evaluate mo da ba) as [loss acc] end;
      unfold bind, print, modify, model_save, save_meta_data, bind, deref, bind, get;
      simpl; rewrite Hd; discriminate.
Qed.

(** *** Staging the data set *)

Lemma run_stage_raises w e w' :
  stage_in ["babi-tasks-v1-2.tar.gz"] "/local/scratch/" true w = (Raise e, w') →
  run_stage w = (Raise e, set_stdout (stdout w' ++ [dataset_hint]) w').
Proof.
  intros H. unfold run_stage, try_except, stage_dataset. unfold bind at 1.
  rewrite H. reflexivity.
Qed.

(** *** The name of a checkpoint *)

(** The text [extension_from_parameters] builds. *)
Fixpoint extension_text (m : gmap string value) (keys : list string)
    (extension : string) : string :=
  match keys with
  | [] => extension
  | key :: keys' =>
      if negb (String.eqb key "epochs") then
        match m !! key with
        | Some v => extension_text m keys' (extension ++ "." ++ key ++ "=" ++ str v)
        | None => extension
        end
      else extension_text m keys' extension
  end.

Definition extension_of (m : gmap string value) : string :=
  extension_text m (sorted m) "".

Definition non_epoch (keys : list string) : list string :=
  filter (λ k, k ≠ "epochs") keys.

Lemma sorted_keys (m : gmap string value) k :
  k ∈ sorted m → is_Some (m !! k).
Proof.
  unfold sorted. rewrite merge_sort_Permutation. intros Hk.
  apply list_elem_of_fmap in Hk as ([k' v] & -> & Hin).
  apply elem_of_map_to_list in Hin. eauto.
Qed.

Lemma extension_loop_returns m keys ext w :
  (∀ k, k ∈ keys → is_Some (m !! k)) →
  ∃ out, extension_loop m keys ext w
         = (Return (extension_text m keys ext), set_stdout (stdout w ++ out) w).
Proof.
  revert ext w. induction keys as [| key keys IH]; intros ext w Hkeys; simpl.
  - exists []. unfold ret. rewrite app_nil_r. destruct w; reflexivity.
  - assert (Hrest : ∀ k, k ∈ keys → is_Some (m !! k))
      by (intros k Hk; apply Hkeys, list_elem_of_further, Hk).
    destruct (negb (String.eqb key "epochs")).
    + destruct (Hkeys key (list_elem_of_here _ _)) as [v ->].
      unfold bind, print, modify.
      destruct (IH (ext ++ "." ++ key ++ "=" ++ str v)
                  (set_stdout (stdout w ++ [key ++ ": " ++ str v]) w) Hrest)
        as [out ->].
      exists ((key ++ ": " ++ str v) :: out). simpl.
      rewrite <- app_assoc. reflexivity.
    + apply IH, Hrest.
Qed.

Lemma extension_from_parameters_returns d m w :
  heap w !! d = Some m →
  ∃ out, extension_from_parameters d w
         = (Return (extension_of m), set_stdout (stdout w ++ out) w).
Proof.
  intros Hd. unfold extension_from_parameters, bind at 1, deref, bind at 1, get at 1.
  rewrite Hd. unfold ret at 1. unfold bind at 1.
  destruct (extension_loop_returns m (sorted m) "" w (sorted_keys m)) as [out ->].
  exists (out ++ [extension_of m])%list. unfold bind, print, modify, ret. simpl.
  rewrite app_assoc. reflexivity.
Qed.

Lemma extension_text_non_epoch m keys ext :
  extension_text m keys ext = extension_text m (non_epoch keys) ext.
Proof.
  revert ext. induction keys as [| key keys IH]; intros ext; [reflexivity |].
  unfold non_epoch. cbn [extension_text].
  destruct (String.eqb_spec key "epochs") as [-> | Hne]; cbn [negb].
  - rewrite filter_cons_False by (intros H; apply H; reflexivity). apply IH.
  - rewrite filter_cons_True by exact Hne. cbn [extension_text].
    destruct (String.eqb_spec key "epochs") as [? | _]; [contradiction |]. cbn [negb].
    destruct (m !! key); [apply IH | reflexivity].
Qed.

Lemma extension_text_agree m m' keys ext :
  (∀ k, k ∈ keys → m !! k = m' !! k) →
  extension_text m keys ext = extension_text m' keys ext.
Proof.
  revert ext. induction keys as [| key keys IH]; intros ext H; [reflexivity |].
  cbn [extension_text]. rewrite <- (H key (list_elem_of_here _ _)).
  assert (Hrest : ∀ k, k ∈ keys → m !! k = m' !! k)
    by (intros k Hk; apply H, list_elem_of_further, Hk).
  destruct (negb (String.eqb key "epochs")); [| apply IH, Hrest].
  destruct (m !! key); [apply IH, Hrest | reflexivity].
Qed.

Lemma StronglySorted_filter {A} (R : relation A) (P : A → Prop)
    `{∀ x, Decision (P x)} (l : list A) :
  StronglySorted R l → StronglySorted R (filter P l).
Proof.
  induction 1 as [| x l Hl IH Hx]; [constructor |].
  rewrite filter_cons. destruct (decide (P x)); [| exact IH].
  constructor; [exact IH |].
  apply Forall_forall. intros y Hy. apply list_elem_of_filter in Hy as [_ Hy].
  revert y Hy. apply Forall_forall, Hx.
Qed.

Lemma non_epoch_keys_insert (m : gmap string value) e :
  non_epoch (map fst (map_to_list (<["epochs" := e]> m)))
  ≡ₚ non_epoch (map fst (map_to_list (delete "epochs" m))).
Proof.
  rewrite <- insert_delete_eq.
  pose proof (map_to_list_insert (delete "epochs" m) "epochs" e
                (lookup_delete_eq m "epochs")) as HP.
  apply (Permutation_map fst) in HP. simpl in HP.
  unfold non_epoch. rewrite HP.
  rewrite filter_cons_False by (intros H; apply H; reflexivity). reflexivity.
Qed.

Lemma non_epoch_keys_delete (m : gmap string value) :
  non_epoch (map fst (map_to_list m))
  ≡ₚ non_epoch (map fst (map_to_list (delete "epochs" m))).
Proof.
  destruct (m !! "epochs") as [v |] eqn:E.
  - rewrite <- (insert_id m "epochs" v E) at 1. apply non_epoch_keys_insert.
  - rewrite delete_id by exact E. reflexivity.
Qed.

Lemma sorted_non_epoch (m : gmap string value) e :
  non_epoch (sorted (<["epochs" := e]> m)) = non_epoch (sorted m).
Proof.
  apply (StronglySorted_unique String.le).
  - apply StronglySorted_filter, StronglySorted_merge_sort; apply _.
  - apply StronglySorted_filter, StronglySorted_merge_sort; apply _.
  - unfold sorted, non_epoch. rewrite !merge_sort_Permutation.
    fold (non_epoch (map fst (map_to_list (<["epochs" := e]> m)))).
    fold (non_epoch (map fst (map_to_list m))).
    rewrite non_epoch_keys_insert, <- non_epoch_keys_delete. reflexivity.
Qed.

(** The checkpoint's name does not depend on the number of epochs asked
    for. *)
Lemma extension_of_epochs (m : gmap string value) e :
  extension_of (<["epochs" := e]> m) = extension_of m.
Proof.
  unfold extension_of.
  rewrite (extension_text_non_epoch _ (sorted (<["epochs" := e]> m))).
  rewrite (extension_text_non_epoch m (sorted m)), sorted_non_epoch.
  apply extension_text_agree. intros k Hk.
  apply list_elem_of_filter in Hk as [Hne _].
  apply lookup_insert_ne. congruence.
Qed.

(** *** The specification's statements about the training script *)

Lemma run_returns d w r w' :
  run d w = (Return r, w') →
  (∃ model data batch, r = (- snd (evaluate model data batch))%Qc)
  ∧ last (stdout w') = Some ("OUTPUT: " ++ float_repr r).
Proof.
  intros Hrun. unfold run in Hrun.
  apply bind_returns in Hrun as (p & w1 & _ & Hrun).
  apply bind_returns in Hrun as (path & w2 & _ & Hrun).
  apply bind_returns in Hrun as (data & w3 & _ & Hrun).
  apply bind_returns in Hrun as (ext & w4 & _ & Hrun).
  apply bind_returns in Hrun as ([[loaded initial_epoch] resume] & w5 & _ & Hrun).
  apply run_train_returns in Hrun as [Hr Hout]. eauto.
Qed.


(** C9.  When [run] has bound its parameters and [stage_in] raises, [run]
    prints the instructions for downloading the data set by hand and raises
    the same exception: nothing more is printed, no file is written, no
    value is returned. *)
Theorem staging_error_is_fatal d w p w1 e w2 :
  run_parameters d w = (Return p, w1) →
  stage_in ["babi-tasks-v1-2.tar.gz"] "/local/scratch/" true w1 = (Raise e, w2) →
  run d w = (Raise e, set_stdout (stdout w2 ++ [dataset_hint]) w2)
  ∧ last (stdout (snd (run d w))) = Some dataset_hint
  ∧ files (snd (run d w)) = files w1.
Proof.
  intros Hp Hs.
  assert (Hrun : run d w = (Raise e, set_stdout (stdout w2 ++ [dataset_hint]) w2)).
  { unfold run. unfold bind at 1. rewrite Hp. unfold bind at 1.
    rewrite (run_stage_raises w1 e w2 Hs). reflexivity. }
  rewrite Hrun. split; [reflexivity |]. split; [apply last_snoc |].
  simpl. clear Hrun Hp. revert Hs. unfold stage_in.
  unfold bind at 1, exists_ at 1, bind at 1, get at 1, ret at 1.
  unfold bind at 1, print at 1, modify at 1.
  unfold bind at 1, print at 1, modify at 1.
  generalize (bool_decide (is_Some (files w1 !! "/local/scratch/"))). intros there.
  simpl. unfold bind at 1. unfold lift at 1.
  destruct (get_file _ _) as [path | e']; simpl.
  - unfold bind, print, modify, ret. simpl. discriminate.
  - intros H. injection H as _ <-. reflexivity.
Qed.

(** *** What [run] computes

    The outcome of [run] and the files it leaves, as functions of the
    dictionary it is handed and the files it finds; what it prints is left
    aside. *)

Lemma dict_get_set_eq {V} (k : string) (v : V) (d : list (string * V)) :
  dict_get k (dict_set k v d) = Some v.
Proof.
  induction d as [| [k' v'] d IH]; simpl.
  - rewrite String.eqb_refl. reflexivity.
  - destruct (String.eqb_spec k' k) as [-> | Hne]; simpl.
    + rewrite String.eqb_refl. reflexivity.
    + destruct (String.eqb_spec k' k); [contradiction | exact IH].
Qed.

Lemma dict_get_set_ne {V} (k k' : string) (v : V) (d : list (string * V)) :
  k ≠ k' → dict_get k (dict_set k' v d) = dict_get k d.
Proof.
  intros Hne. induction d as [| [k0 v0] d IH]; simpl.
  - destruct (String.eqb_spec k' k); [congruence | reflexivity].
  - destruct (String.eqb_spec k0 k') as [-> | Hne']; simpl.
    + destruct (String.eqb_spec k' k); [congruence | reflexivity].
    + destruct (String.eqb_spec k0 k); [reflexivity | exact IH].
Qed.

Lemma defaults_rnn_type : dict_get "rnn_type" defaults = Some (VStr "LSTM").
Proof.
  unfold defaults, augment_parser.
  rewrite !dict_get_set_ne by discriminate. apply dict_get_set_eq.
Qed.
Lemma defaults_embed : dict_get "embed_hidden_size" defaults = Some (VInt 50).
Proof.
  unfold defaults, augment_parser.
  rewrite !dict_get_set_ne by discriminate. apply dict_get_set_eq.
Qed.
Lemma defaults_sent : dict_get "sent_hidden_size" defaults = Some (VInt 100).
Proof.
  unfold defaults, augment_parser.
  rewrite !dict_get_set_ne by discriminate. apply dict_get_set_eq.
Qed.
Lemma defaults_query : dict_get "query_hidden_size" defaults = Some (VInt 100).
Proof. unfold defaults, augment_parser. apply dict_get_set_eq. Qed.

Lemma defaults_other k :
  k ∉ ["rnn_type"; "embed_hidden_size"; "sent_hidden_size"; "query_hidden_size"] →
  dict_get k defaults = dict_get k create_parser.
Proof.
  intros Hk. unfold defaults, augment_parser.
  rewrite !dict_get_set_ne; [reflexivity | ..]; intros ->; apply Hk;
    repeat first [apply list_elem_of_here | apply list_elem_of_further].
Qed.

(** The dictionary [run] works with: the caller's, with the defaults. *)
Definition with_defaults (m : gmap string value) : gmap string value :=
  fill defaults (dict_keys defaults) m.

Lemma with_defaults_lookup m k :
  with_defaults m !! k
  = match m !! k with
    | Some v => Some v
    | None => dict_get k defaults
    end.
Proof. apply fill_all_lookup. Qed.

Definition item (m : gmap string value) (key : string) : outcome value :=
  match m !! key with
  | Some v => Return v
  | None => Raise (KeyError key)
  end.

Definition and_then {A B} (o : outcome A) (k : A → outcome B) : outcome B :=
  match o with
  | Return a => k a
  | Raise e => Raise e
  end.

Definition rnn_of (rnn_type : value) : rnn :=
  match rnn_type with
  | VStr "GRU" => GRU
  | VStr "SimpleRNN" => SimpleRNN
  | _ => LSTM
  end.

(** What lines 210 to 226 bind, read off the filled dictionary. *)
Definition params_of (m : gmap string value) : outcome Params :=
  and_then (item m "batch_size") (λ batch_size,
  and_then (item m "epochs") (λ epochs,
  and_then (item m "dropout") (λ dropout,
  and_then (item m "rnn_type") (λ rnn_type,
  and_then (item m "embed_hidden_size") (λ embed,
  and_then (item m "sent_hidden_size") (λ sent,
  and_then (item m "query_hidden_size") (λ query,
    Return {| optimizer := return_optimizer m; BATCH_SIZE := batch_size;
              EPOCHS := epochs; DROPOUT := dropout; RNN := rnn_of rnn_type;
              EMBED_HIDDEN_SIZE := embed; SENT_HIDDEN_SIZE := sent;
              QUERY_HIDDEN_SIZE := query |}))))))).

Lemma getitem_item d key w m :
  heap w !! d = Some m → getitem d key w = (item m key, w).
Proof.
  intros Hd. unfold getitem, bind, deref, bind, get, item. rewrite Hd.
  unfold ret at 1. destruct (m !! key); reflexivity.
Qed.

Lemma run_parameters_params d w m :
  heap w !! d = Some m →
  ∃ out, run_parameters d w
         = (params_of (with_defaults m),
            set_stdout (stdout w ++ out)
              (set_heap (<[d := with_defaults m]> (heap w)) w)).
Proof.
  intros Hd. unfold run_parameters. unfold bind at 1.
  rewrite (fill_defaults_heap d defaults (dict_keys defaults) w m Hd)
    by (intros k Hk; apply dict_get_keys, Hk).
  fold (with_defaults m). set (m1 := with_defaults m).
  set (w0 := set_heap (<[d := m1]> (heap w)) w).
  assert (H0 : heap w0 !! d = Some m1) by apply lookup_insert_eq.
  unfold bind at 1, deref at 1, bind at 1, get at 1. rewrite H0. unfold ret at 1.
  unfold bind at 1, print at 1, modify at 1.
  set (w1 := set_stdout (stdout w0 ++ [dict_repr m1]) w0).
  assert (H1 : heap w1 !! d = Some m1) by exact H0.
  unfold params_of.
  repeat (unfold bind at 1; rewrite (getitem_item d _ w1 m1 H1);
          match goal with
          | |- context [item m1 ?k] =>
              destruct (item m1 k) as [? | ?] eqn:?;
              [ cbn [and_then]
              | exists [dict_repr m1]; reflexivity ]
          end).
  unfold bind, print, modify, ret. eexists (_ :: _ :: nil). cbn.
  rewrite <- app_assoc. reflexivity.
Qed.

Lemma set_stdout_same w : set_stdout (stdout w) w = w.
Proof. destruct w. reflexivity. Qed.

Definition dataset_name : string := "babi-tasks-v1-2.tar.gz".

(** Where [stage_in] looks: under [/local/scratch/] when that exists. *)
Definition prefix_of (fs : gmap string file) (local_path : string) : string :=
  if bool_decide (is_Some (fs !! local_path)) then local_path else "".

(** What [get_file] is asked for one name. *)
Definition fetch (fs : gmap string file) (local_path name : string) : outcome string :=
  get_file (prefix_of fs local_path ++ name)
           ("file://" ++ path_join (path_join here "data") name).

Lemma run_stage_fetch w :
  ∃ out, run_stage w
         = (fetch (files w) "/local/scratch/" dataset_name,
            set_stdout (stdout w ++ out) w).
Proof.
  unfold run_stage, try_except, stage_dataset, stage_in, fetch, prefix_of.
  unfold bind at 1. unfold bind at 1, exists_ at 1, bind at 1, get at 1, ret at 1.
  generalize (bool_decide (is_Some (files w !! "/local/scratch/"))). intros there.
  unfold bind at 1, print at 1, modify at 1.
  unfold bind at 1, print at 1, modify at 1.
  cbn [stage_loop]. unfold bind at 1, lift at 1. fold dataset_name.
  destruct (get_file _ _) as [path | e].
  - unfold bind, print, modify, ret. cbn.
    eexists (_ :: _ :: _ :: nil). rewrite <- !app_assoc. reflexivity.
  - unfold bind, print, modify, raise. cbn.
    eexists (_ :: _ :: _ :: nil). rewrite <- !app_assoc. reflexivity.
Qed.

Lemma print_all_prints lines w :
  print_all lines w = (Return tt, set_stdout (stdout w ++ lines) w).
Proof.
  revert w. induction lines as [| line lines IH]; intros w; simpl.
  - unfold ret. rewrite app_nil_r. destruct w; reflexivity.
  - unfold bind, print, modify. rewrite IH. simpl.
    rewrite <- app_assoc. reflexivity.
Qed.

Lemma run_load_stories path w :
  ∃ out, run_load path w = (load_stories path, set_stdout (stdout w ++ out) w).
Proof.
  unfold run_load, bind, lift. destruct (load_stories path) as [data | e].
  - rewrite print_all_prints. unfold ret. eauto.
  - exists []. rewrite app_nil_r. destruct w; reflexivity.
Qed.

(** What lines 279 to 289 find: nothing unless both files are there. *)
Definition checkpoint_of (fs : gmap string file) (m : gmap string value)
    (model_name model_mda_name : string) : outcome (option Model * value * bool) :=
  match fs !! model_name, fs !! model_mda_name with
  | Some model_is, Some meta_is =>
      match model_is with
      | H5 model =>
          match meta_is with
          | Pickle saved =>
              and_then (item saved "epochs") (λ initial_epoch,
              and_then (item m "epochs") (λ requested,
              and_then (lt initial_epoch requested) (λ fewer,
                Return (Some model, initial_epoch, fewer))))
          | _ => Raise (ValueError model_mda_name)
          end
      | _ => Raise (ValueError model_name)
      end
  | _, _ => Return (None, VInt 0, false)
  end.

Lemma run_checkpoint_of d m w a b :
  heap w !! d = Some m →
  ∃ out, run_checkpoint d a b w
         = (checkpoint_of (files w) m a b, set_stdout (stdout w ++ out) w).
Proof.
  intros Hd. unfold checkpoint_of.
  destruct (files w !! a) as [fa |] eqn:Ha;
    [| exists []; rewrite app_nil_r, set_stdout_same;
       apply run_checkpoint_missing; auto].
  destruct (files w !! b) as [fb |] eqn:Hb;
    [| exists []; rewrite app_nil_r, set_stdout_same;
       apply run_checkpoint_missing; auto].
  unfold run_checkpoint.
  unfold bind at 1. unfold exists_ at 1, bind at 1, get at 1, ret at 1.
  rewrite Ha, bool_decide_eq_true_2 by eauto.
  unfold bind at 1. unfold exists_ at 1, bind at 1, get at 1, ret at 1.
  rewrite Hb, bool_decide_eq_true_2 by eauto. cbn [andb].
  unfold bind at 1, print at 1, modify at 1.
  unfold bind at 1, load_model, bind at 1, get at 1. cbn [files set_stdout].
  rewrite Ha.
  destruct fa as [| model | |]; try (eexists [_]; reflexivity).
  unfold ret at 1.
  unfold bind at 1, load_meta_data, bind at 1, get at 1. cbn [files set_stdout].
  rewrite Hb.
  destruct fb as [| | saved |]; try (eexists [_]; reflexivity).
  unfold ret at 1. unfold item at 1.
  destruct (saved !! "epochs") as [initial_epoch |];
    [| eexists [_]; reflexivity].
  unfold bind at 1, ret at 1. cbn [and_then].
  unfold bind at 1.
  rewrite (getitem_item d "epochs" _ m) by exact Hd.
  destruct (item m "epochs") as [requested | e]; [| eexists [_]; reflexivity].
  cbn [and_then]. unfold bind, lift.
  destruct (lt initial_epoch requested) as [fewer | e]; [| eexists [_]; reflexivity].
  cbn [and_then]. unfold ret. destruct fewer; eexists [_]; reflexivity.
Qed.

(** The model [run] saves. *)
Definition trained (p : Params) (data : Dataset) (loaded : option Model)
    (resume : bool) : Model :=
  fit (starting_model p data loaded resume) data (BATCH_SIZE p) (EPOCHS p).

Definition run_result (m : gmap string value) (fs : gmap string file)
  : outcome Qc * gmap string file :=
  let m1 := with_defaults m in
  match params_of m1 with
  | Raise e => (Raise e, fs)
  | Return p =>
      match fetch fs "/local/scratch/" dataset_name with
      | Raise e => (Raise e, fs)
      | Return path =>
          match load_stories path with
          | Raise e => (Raise e, fs)
          | Return data =>
              let ext := extension_of m1 in
              match checkpoint_of fs m1 (model_file ext) (meta_file ext) with
              | Raise e => (Raise e, fs)
              | Return (loaded, _, resume) =>
                  let model := trained p data loaded resume in
                  (Return (- snd (evaluate model data (BATCH_SIZE p)))%Qc,
                   <[meta_file ext := Pickle m1]>
                     (<[model_file ext := H5 model]> fs))
              end
          end
      end
  end.

Lemma run_computes d w m :
  heap w !! d = Some m →
  fst (run d w) = fst (run_result m (files w))
  ∧ files (snd (run d w)) = snd (run_result m (files w))
  ∧ heap (snd (run d w)) = <[d := with_defaults m]> (heap w).
Proof.
  intros Hd. split; [| split; [| apply run_heap, Hd]];
    unfold run, run_result.
  all: destruct (run_parameters_params d w m Hd) as [out1 H1];
    unfold bind at 1; rewrite H1; clear H1;
    set (m1 := with_defaults m);
    set (w1 := set_stdout (stdout w ++ out1) (set_heap (<[d := m1]> (heap w)) w));
    assert (Hd1 : heap w1 !! d = Some m1) by apply lookup_insert_eq;
    destruct (params_of m1) as [p | e]; [| reflexivity];
    destruct (run_stage_fetch w1) as [out2 H2];
    unfold bind at 1; rewrite H2; clear H2;
    change (files w1) with (files w);
    destruct (fetch (files w) "/local/scratch/" dataset_name) as [path | e];
      [| reflexivity];
    set (w2 := set_stdout (stdout w1 ++ out2) w1);
    destruct (run_load_stories path w2) as [out3 H3];
    unfold bind at 1; rewrite H3; clear H3;
    destruct (load_stories path) as [data | e]; [| reflexivity];
    set (w3 := set_stdout (stdout w2 ++ out3) w2);
    assert (Hd3 : heap w3 !! d = Some m1) by exact Hd1;
    destruct (extension_from_parameters_returns d m1 w3 Hd3) as [out4 H4];
    unfold bind at 1; rewrite H4; clear H4;
    set (w4 := set_stdout (stdout w3 ++ out4) w3);
    assert (Hd4 : heap w4 !! d = Some m1) by exact Hd1;
    destruct (run_checkpoint_of d m1 w4 (model_file (extension_of m1))
                (meta_file (extension_of m1)) Hd4) as [out5 H5];
    unfold bind at 1; rewrite H5; clear H5;
    change (files w4) with (files w);
    destruct (checkpoint_of (files w) m1 _ _) as [[[loaded ie] resume] | e];
      [| reflexivity];
    set (w5 := set_stdout (stdout w4 ++ out5) w4);
    assert (Hd5 : heap w5 !! d = Some m1) by exact Hd1;
    rewrite (run_train_runs d m1 p data _ _ loaded resume w5 Hd5);
    reflexivity.
Qed.

(** *** More about the training script *)

Lemma setitem_heap d key v w m :
  heap w !! d = Some m →
  setitem d key v w = (Return tt, set_heap (<[d := <[key := v]> m]> (heap w)) w).
Proof.
  intros Hd. unfold setitem, bind, deref, bind, get. rewrite Hd. reflexivity.
Qed.

(** The shared command line has none of the four arguments that
    [augment_parser] adds ([argparse] would refuse the second of two
    arguments of one name). *)
Definition parser_apart : Prop :=
  Forall (λ key, dict_get key create_parser = None)
         ["rnn_type"; "embed_hidden_size"; "sent_hidden_size"; "query_hidden_size"].

(** X8.  [run] takes each parameter from the caller's dictionary when it is
    there and from the defaults otherwise: the hidden sizes default to 50,
    100 and 100, and the layer is a GRU or a SimpleRNN when [rnn_type] says
    so and an LSTM for any other value, as for none. *)
Theorem run_parameters_values d w (m : gmap string value) p w1 :
  parser_apart →
  heap w !! d = Some m →
  run_parameters d w = (Return p, w1) →
  RNN p = match m !! "rnn_type" with
          | Some (VStr "GRU") => GRU
          | Some (VStr "SimpleRNN") => SimpleRNN
          | _ => LSTM
          end
  ∧ EMBED_HIDDEN_SIZE p = default (VInt 50) (m !! "embed_hidden_size")
  ∧ SENT_HIDDEN_SIZE p = default (VInt 100) (m !! "sent_hidden_size")
  ∧ QUERY_HIDDEN_SIZE p = default (VInt 100) (m !! "query_hidden_size")
  ∧ Some (BATCH_SIZE p)
    = match m !! "batch_size" with
      | Some v => Some v
      | None => dict_get "batch_size" create_parser
      end
  ∧ Some (EPOCHS p)
    = match m !! "epochs" with
      | Some v => Some v
      | None => dict_get "epochs" create_parser
      end
  ∧ Some (DROPOUT p)
    = match m !! "dropout" with
      | Some v => Some v
      | None => dict_get "dropout" create_parser
      end.
Proof.
  intros _ Hd Hrun. destruct (run_parameters_params d w m Hd) as [out H].
  rewrite Hrun in H. injection H as Hp _. symmetry in Hp.
  unfold params_of, item in Hp. rewrite !with_defaults_lookup in Hp.
  rewrite defaults_rnn_type, defaults_embed, defaults_sent, defaults_query in Hp.
  rewrite !defaults_other in Hp
    by (intros Hin; repeat (apply elem_of_cons in Hin as [Hin | Hin];
                            [discriminate |]); inversion Hin).
  destruct (m !! "batch_size"); [| destruct (dict_get "batch_size" create_parser)];
    cbn [and_then] in Hp; try discriminate;
    (destruct (m !! "epochs"); [| destruct (dict_get "epochs" create_parser)];
     cbn [and_then] in Hp; try discriminate);
    (destruct (m !! "dropout"); [| destruct (dict_get "dropout" create_parser)];
     cbn [and_then] in Hp; try discriminate);
    destruct (m !! "rnn_type"), (m !! "embed_hidden_size"),
             (m !! "sent_hidden_size"), (m !! "query_hidden_size");
    cbn [and_then] in Hp; injection Hp as <-; cbn; repeat split.
Qed.

(** X9.  [run] gets past its parameters exactly when [batch_size], [epochs] and
    [dropout] each come from the caller or from the defaults of the shared
    command line; the first of them that comes from neither is the
    [KeyError] that leaves [run]. *)
Theorem run_parameters_returns_iff d w (m : gmap string value) :
  parser_apart →
  heap w !! d = Some m →
  let given key := is_Some (m !! key) ∨ is_Some (dict_get key create_parser) in
  ((∃ p w1, run_parameters d w = (Return p, w1))
   ↔ given "batch_size" ∧ given "epochs" ∧ given "dropout")
  ∧ (¬ given "batch_size" → fst (run d w) = Raise (KeyError "batch_size"))
  ∧ (given "batch_size" → ¬ given "epochs" →
     fst (run d w) = Raise (KeyError "epochs"))
  ∧ (given "batch_size" → given "epochs" → ¬ given "dropout" →
     fst (run d w) = Raise (KeyError "dropout")).
Proof.
  intros _ Hd given. destruct (run_parameters_params d w m Hd) as [out H].
  assert (Hrun : ∀ e, params_of (with_defaults m) = Raise e → fst (run d w) = Raise e).
  { intros e He. unfold run, bind at 1. rewrite H, He. reflexivity. }
  assert (Hitem : ∀ key,
            key ∉ ["rnn_type"; "embed_hidden_size"; "sent_hidden_size";
                   "query_hidden_size"] →
            (given key → ∃ v, item (with_defaults m) key = Return v)
            ∧ (¬ given key → item (with_defaults m) key = Raise (KeyError key))).
  { intros key Hkey. unfold item, given. rewrite with_defaults_lookup.
    rewrite (defaults_other key Hkey).
    destruct (m !! key) as [v |]; [split; [eauto | intros Hn; exfalso; eauto] |].
    destruct (dict_get key create_parser) as [v |];
      [split; [eauto | intros Hn; exfalso; eauto] |].
    split; [intros [[? ?] | [? ?]]; discriminate | reflexivity]. }
  assert (Hfour : ∃ v1 v2 v3 v4,
            item (with_defaults m) "rnn_type" = Return v1
            ∧ item (with_defaults m) "embed_hidden_size" = Return v2
            ∧ item (with_defaults m) "sent_hidden_size" = Return v3
            ∧ item (with_defaults m) "query_hidden_size" = Return v4).
  { unfold item. rewrite !with_defaults_lookup.
    rewrite defaults_rnn_type, defaults_embed, defaults_sent, defaults_query.
    destruct (m !! "rnn_type"), (m !! "embed_hidden_size"),
             (m !! "sent_hidden_size"), (m !! "query_hidden_size"); eauto 8. }
  destruct Hfour as (v1 & v2 & v3 & v4 & H1 & H2 & H3 & H4).
  assert (Hnot : ∀ key, key ∈ ["batch_size"; "epochs"; "dropout"] →
            key ∉ ["rnn_type"; "embed_hidden_size"; "sent_hidden_size";
                   "query_hidden_size"]).
  { intros key Hin Hin'.
    repeat (apply elem_of_cons in Hin as [-> | Hin];
            [ repeat (apply elem_of_cons in Hin' as [Hin' | Hin'];
                      [discriminate |]); inversion Hin' |]).
    inversion Hin. }
  assert (Hin1 : "batch_size" ∈ ["batch_size"; "epochs"; "dropout"])
    by apply list_elem_of_here.
  assert (Hin2 : "epochs" ∈ ["batch_size"; "epochs"; "dropout"])
    by apply list_elem_of_further, list_elem_of_here.
  assert (Hin3 : "dropout" ∈ ["batch_size"; "epochs"; "dropout"])
    by apply list_elem_of_further, list_elem_of_further, list_elem_of_here.
  destruct (Hitem "batch_size" (Hnot _ Hin1)) as [Hb Hnb].
  destruct (Hitem "epochs" (Hnot _ Hin2)) as [He Hne].
  destruct (Hitem "dropout" (Hnot _ Hin3)) as [Hdr Hndr].
  split; [split |].
  - intros (p & w1 & Hp). rewrite Hp in H. injection H as Hp' _. symmetry in Hp'.
    unfold params_of in Hp'.
    assert (Hdec : ∀ key, key ∈ ["batch_size"; "epochs"; "dropout"] →
              (∃ v, item (with_defaults m) key = Return v) → given key).
    { intros key Hin [v Hv]. destruct (Hitem key (Hnot key Hin)) as [_ Hn].
      unfold given. destruct (m !! key) eqn:E1; [left; eauto |].
      destruct (dict_get key create_parser) eqn:E2; [right; eauto |].
      rewrite Hn in Hv by (intros [[? ?] | [? ?]]; congruence).
      discriminate Hv. }
    destruct (item (with_defaults m) "batch_size") eqn:E1; [| discriminate].
    destruct (item (with_defaults m) "epochs") eqn:E2; [| discriminate].
    destruct (item (with_defaults m) "dropout") eqn:E3; [| discriminate].
    repeat split; apply Hdec; eauto.
  - intros (G1 & G2 & G3).
    destruct (Hb G1) as [b Eb], (He G2) as [e Ee], (Hdr G3) as [dr Edr].
    rewrite H. unfold params_of. rewrite Eb, Ee, Edr, H1, H2, H3, H4. cbn. eauto.
  - split; [| split].
    + intros G. apply Hrun. unfold params_of. rewrite (Hnb G). reflexivity.
    + intros G1 G2. apply Hrun. unfold params_of.
      destruct (Hb G1) as [b ->]. rewrite (Hne G2). reflexivity.
    + intros G1 G2 G3. apply Hrun. unfold params_of.
      destruct (Hb G1) as [b ->], (He G2) as [e ->]. rewrite (Hndr G3). reflexivity.
Qed.

Lemma stage_loop_uncached pre dir names paths w :
  stage_loop pre dir false names paths w
  = (Return (fold_left (λ ps name, dict_set name (path_join dir name) ps) names paths),
     set_stdout
       (stdout w ++ map (λ name, "File " ++ name ++ " will be read from "
                                 ++ path_join dir name) names) w).
Proof.
  revert paths w. induction names as [| name names IH]; intros paths w; simpl.
  - unfold ret. rewrite app_nil_r, set_stdout_same. reflexivity.
  - unfold bind at 1, ret at 1. unfold bind at 1, print at 1, modify at 1.
    rewrite IH. cbn. rewrite <- app_assoc. reflexivity.
Qed.

Lemma dict_get_fold_set (f : string → string) names (paths : list (string * string)) k :
  dict_get k (fold_left (λ ps name, dict_set name (f name) ps) names paths)
  = if decide (k ∈ names) then Some (f k) else dict_get k paths.
Proof.
  revert paths. induction names as [| name names IH]; intros paths; simpl.
  - destruct (decide (k ∈ [])) as [H | _]; [inversion H | reflexivity].
  - rewrite IH. destruct (decide (k ∈ names)) as [Hin | Hnin].
    + destruct (decide (k ∈ name :: names)) as [_ | H]; [reflexivity |].
      exfalso. apply H, list_elem_of_further, Hin.
    + destruct (decide (k = name)) as [-> | Hne].
      * rewrite dict_get_set_eq.
        destruct (decide (name ∈ name :: names)) as [_ | H]; [reflexivity |].
        exfalso. apply H, list_elem_of_here.
      * rewrite dict_get_set_ne by exact Hne.
        destruct (decide (k ∈ name :: names)) as [H | _]; [| reflexivity].
        apply elem_of_cons in H as [H | H]; contradiction.
Qed.

Lemma ends_with_slash_app a b :
  b ≠ "" → ends_with_slash (a ++ b) = ends_with_slash b.
Proof.
  intros Hb. induction a as [| c a IH]; [reflexivity |].
  change (String c a ++ b) with (String c (a ++ b)). cbn [ends_with_slash].
  destruct (a ++ b) eqn:E; [| exact IH].
  destruct a; [contradiction | discriminate E].
Qed.

(** The [data] directory beside the script, as [stage_in] names it. *)
Lemma data_directory :
  ends_with_slash (path_join here "data") = false ∧ path_join here "data" ≠ "".
Proof.
  unfold path_join. cbn [starts_with_slash Ascii.eqb].
  destruct (String.eqb here "" || ends_with_slash here).
  - split; [apply (ends_with_slash_app here "data"); discriminate |].
    destruct here; discriminate.
  - split; [apply (ends_with_slash_app here ("/" ++ "data")); discriminate |].
    destruct here; discriminate.
Qed.

(** X10.  Without the cache, [stage_in] asks [get_file] for nothing and cannot
    fail: each name it is given is mapped to what [os.path.join] makes of the
    [data] directory beside the script and the name, and no other name is
    mapped.  So a name that starts with a slash is mapped to itself, and any
    other name to the file of that name under the [data] directory. *)
Theorem stage_in_uncached file_names local_path w :
  ∃ paths out,
    stage_in file_names local_path false w
    = (Return paths, set_stdout (stdout w ++ out) w)
    ∧ (∀ name, name ∈ file_names →
               dict_get name paths = Some (path_join (path_join here "data") name))
    ∧ (∀ name, name ∈ file_names → starts_with_slash name = true →
               dict_get name paths = Some name)
    ∧ (∀ name, name ∈ file_names → starts_with_slash name = false →
               dict_get name paths = Some (path_join here "data" ++ "/" ++ name))
    ∧ (∀ name, name ∉ file_names → dict_get name paths = None).
Proof.
  unfold stage_in.
  unfold bind at 1, exists_ at 1, bind at 1, get at 1, ret at 1.
  unfold bind at 1, print at 1, modify at 1.
  unfold bind at 1, print at 1, modify at 1.
  rewrite stage_loop_uncached. cbn [stdout set_stdout].
  eexists (fold_left (λ ps name, dict_set name
                                   (path_join (path_join here "data") name) ps)
                     file_names []), (_ :: _ :: _).
  split.
  - cbn [set_stdout stdout heap files]. rewrite <- !app_assoc. reflexivity.
  - assert (Hget : ∀ name, name ∈ file_names →
             dict_get name
               (fold_left (λ ps name, dict_set name
                                        (path_join (path_join here "data") name) ps)
                          file_names [])
             = Some (path_join (path_join here "data") name)).
    { intros name Hname.
      rewrite (dict_get_fold_set (λ name, path_join (path_join here "data") name)).
      destruct (decide (name ∈ file_names)); [reflexivity | contradiction]. }
    split; [exact Hget |]. split; [| split].
    + intros name Hname Habs. rewrite (Hget name Hname).
      unfold path_join at 1. rewrite Habs. reflexivity.
    + intros name Hname Hrel. rewrite (Hget name Hname).
      destruct data_directory as [Hdir Hne].
      unfold path_join at 1. rewrite Hrel, Hdir, orb_false_r.
      destruct (String.eqb_spec (path_join here "data") "") as [Hempty | _];
        [contradiction | reflexivity].
    + intros name Hname.
      rewrite (dict_get_fold_set (λ name, path_join (path_join here "data") name)).
      destruct (decide (name ∈ file_names)); [contradiction | reflexivity].
Qed.

Lemma stage_loop_cached pre dir names paths w :
  let ask name := get_file (pre ++ name) ("file://" ++ path_join dir name) in
  (Forall (λ name, ∃ path, ask name = Return path) names →
   ∃ result out,
     stage_loop pre dir true names paths w
     = (Return result, set_stdout (stdout w ++ out) w)
     ∧ (∀ name, name ∈ names →
                ∃ path, ask name = Return path ∧ dict_get name result = Some path)
     ∧ (∀ name, name ∉ names → dict_get name result = dict_get name paths))
  ∧ (∀ before name after e,
       names = (before ++ name :: after)%list →
       Forall (λ name, ∃ path, ask name = Return path) before →
       ask name = Raise e →
       ∃ out, stage_loop pre dir true names paths w
              = (Raise e, set_stdout (stdout w ++ out) w)
              ∧ length out = length before).
Proof.
  intros ask. split.
  - revert paths w. induction names as [| name names IH]; intros paths w Hall.
    + exists paths, []. simpl. unfold ret. rewrite app_nil_r, set_stdout_same.
      split; [reflexivity |]. split; [intros name H; inversion H | reflexivity].
    + apply Forall_cons in Hall as [[path Hpath] Hall]. simpl.
      unfold bind at 1, lift. fold (ask name). rewrite Hpath.
      unfold bind at 1, print at 1, modify at 1.
      destruct (IH (dict_set name path paths)
                  (set_stdout (stdout w ++ ["File " ++ name ++ " will be read from "
                                             ++ path]) w) Hall)
        as (result & out & Hr & Hin & Hout).
      rewrite Hr. eexists result, (_ :: out). split.
      * cbn. rewrite <- app_assoc. reflexivity.
      * split.
        -- intros k Hk. destruct (decide (k ∈ names)) as [Hkn | Hkn];
             [apply Hin, Hkn |].
           apply elem_of_cons in Hk as [-> | Hk]; [| contradiction].
           exists path. rewrite (Hout name Hkn), dict_get_set_eq. auto.
        -- intros k Hk. rewrite Hout by (intros H; apply Hk, list_elem_of_further, H).
           apply dict_get_set_ne. intros ->. apply Hk, list_elem_of_here.
  - intros before. revert names paths w.
    induction before as [| b before IH]; intros names paths w name after e -> Hall He.
    + simpl. unfold bind at 1, lift. fold (ask name). rewrite He.
      exists []. rewrite app_nil_r, set_stdout_same. split; reflexivity.
    + apply Forall_cons in Hall as [[path Hpath] Hall]. simpl.
      unfold bind at 1, lift. fold (ask b). rewrite Hpath.
      unfold bind at 1, print at 1, modify at 1.
      destruct (IH _ (dict_set b path paths)
                  (set_stdout (stdout w ++ ["File " ++ b ++ " will be read from "
                                             ++ path]) w) name after e eq_refl Hall He)
        as (out & Hr & Hlen).
      rewrite Hr. eexists (_ :: out). split.
      * cbn. rewrite <- app_assoc. reflexivity.
      * simpl. rewrite Hlen. reflexivity.
Qed.

(** X11.  With the cache, [stage_in] asks [get_file] for each name in turn:
    the file name is the given name, put after [local_path] when that path
    exists, and the origin is [file://] before what [os.path.join] makes of
    the [data] directory beside the script and the name.  When every request
    is answered it maps each name to its answer; the first request that
    fails ends it with that error, the names after it never asked for. *)
Theorem stage_in_cached file_names local_path w :
  let ask name :=
    get_file ((if bool_decide (is_Some (files w !! local_path))
               then local_path else "") ++ name)
             ("file://" ++ path_join (path_join here "data") name) in
  (Forall (λ name, ∃ path, ask name = Return path) file_names →
   ∃ paths w',
     stage_in file_names local_path true w = (Return paths, w')
     ∧ (∀ name, name ∈ file_names →
                ∃ path, ask name = Return path ∧ dict_get name paths = Some path)
     ∧ (∀ name, name ∉ file_names → dict_get name paths = None))
  ∧ (∀ before name after e,
       file_names = (before ++ name :: after)%list →
       Forall (λ name, ∃ path, ask name = Return path) before →
       ask name = Raise e →
       ∃ out, stage_in file_names local_path true w
              = (Raise e, set_stdout (stdout w ++ out) w)
              ∧ length out = (2 + length before)%nat).
Proof.
  intros ask.
  set (pre := if bool_decide (is_Some (files w !! local_path)) then local_path else "").
  set (w2 := set_stdout
               ((stdout w ++ ["Looking for files: " ++ list_repr file_names])
                ++ ["In origin: " ++ path_join here "data"]) w).
  assert (Heq : stage_in file_names local_path true w
                = stage_loop pre (path_join here "data") true file_names [] w2)
    by reflexivity.
  rewrite Heq.
  destruct (stage_loop_cached pre (path_join here "data") file_names [] w2)
    as [Hok Hfail].
  split.
  - intros Hall. destruct (Hok Hall) as (result & out & Hr & Hin & Hout).
    rewrite Hr. eexists _, _. split; [reflexivity |]. split; [exact Hin |].
    intros name Hname. rewrite (Hout name Hname). reflexivity.
  - intros before name after e Hnames Hall He.
    destruct (Hfail before name after e Hnames Hall He) as (out & Hr & Hlen).
    rewrite Hr. subst w2. cbn [stdout set_stdout].
    eexists (_ :: _ :: out). split.
    + rewrite <- !app_assoc. reflexivity.
    + simpl. rewrite Hlen. reflexivity.
Qed.

Lemma run_result_raise m fs e :
  fst (run_result m fs) = Raise e → snd (run_result m fs) = fs.
Proof.
  unfold run_result.
  destruct (params_of _); [| reflexivity].
  destruct (fetch _ _ _); [| reflexivity].
  destruct (load_stories _); [| reflexivity].
  destruct (checkpoint_of _ _ _ _) as [[[loaded ie] resume] |]; [| reflexivity].
  discriminate.
Qed.

Lemma run_result_return m fs r :
  fst (run_result m fs) = Return r →
  ∃ p path data loaded initial_epoch resume,
    params_of (with_defaults m) = Return p
    ∧ fetch fs "/local/scratch/" dataset_name = Return path
    ∧ load_stories path = Return data
    ∧ checkpoint_of fs (with_defaults m)
        (model_file (extension_of (with_defaults m)))
        (meta_file (extension_of (with_defaults m)))
      = Return (loaded, initial_epoch, resume)
    ∧ r = (- snd (evaluate (trained p data loaded resume) data (BATCH_SIZE p)))%Qc
    ∧ snd (run_result m fs)
      = <[meta_file (extension_of (with_defaults m)) := Pickle (with_defaults m)]>
          (<[model_file (extension_of (with_defaults m))
               := H5 (trained p data loaded resume)]> fs).
Proof.
  unfold run_result.
  destruct (params_of _) as [p |]; [| discriminate].
  destruct (fetch _ _ _) as [path |]; [| discriminate].
  destruct (load_stories _) as [data |] eqn:Hload; [| discriminate].
  destruct (checkpoint_of _ _ _ _) as [[[loaded ie] resume] |]; [| discriminate].
  simpl. intros H. injection H as <-.
  exists p, path, data, loaded, ie, resume. auto 10.
Qed.

Lemma with_defaults_insert (m : gmap string value) key v :
  with_defaults (<[key := v]> (with_defaults m)) = <[key := v]> (with_defaults m).
Proof.
  apply map_eq. intros k. rewrite with_defaults_lookup.
  destruct (decide (key = k)) as [-> | Hne].
  - rewrite lookup_insert_eq. reflexivity.
  - rewrite lookup_insert_ne by exact Hne. rewrite with_defaults_lookup.
    destruct (m !! k); [reflexivity |]. destruct (dict_get k defaults); reflexivity.
Qed.

Lemma h5_not_pkl (s t : string) : s ++ ".h5" ≠ t ++ ".pkl".
Proof.
  revert t. induction s as [| c s IH]; intros [| c' t] H; simpl in H.
  - discriminate.
  - injection H as _ H. apply (f_equal String.length) in H.
    rewrite Balsam.string_length_app in H. simpl in H. lia.
  - injection H as _ H. destruct s as [| c2 s]; [discriminate |].
    apply (f_equal String.length) in H. simpl in H.
    rewrite Balsam.string_length_app in H. simpl in H. lia.
  - injection H as _ H. exact (IH t H).
Qed.

Lemma model_file_not_meta_file a b : model_file a ≠ meta_file b.
Proof.
  unfold model_file, meta_file, BNAME. simpl. intros H.
  injection H as H. exact (h5_not_pkl _ _ H).
Qed.

Lemma params_of_epochs (m : gmap string value) p v :
  params_of m = Return p →
  params_of (<["epochs" := v]> m)
  = Return {| optimizer := return_optimizer (<["epochs" := v]> m);
              BATCH_SIZE := BATCH_SIZE p; EPOCHS := v; DROPOUT := DROPOUT p;
              RNN := RNN p; EMBED_HIDDEN_SIZE := EMBED_HIDDEN_SIZE p;
              SENT_HIDDEN_SIZE := SENT_HIDDEN_SIZE p;
              QUERY_HIDDEN_SIZE := QUERY_HIDDEN_SIZE p |}.
Proof.
  unfold params_of, item. rewrite lookup_insert_eq.
  rewrite !lookup_insert_ne by discriminate.
  destruct (m !! "batch_size"); [| discriminate].
  destruct (m !! "epochs"); [| discriminate].
  destruct (m !! "dropout"); [| discriminate].
  destruct (m !! "rnn_type"); [| discriminate].
  destruct (m !! "embed_hidden_size"); [| discriminate].
  destruct (m !! "sent_hidden_size"); [| discriminate].
  destruct (m !! "query_hidden_size"); [| discriminate].
  cbn. intros H. injection H as <-. reflexivity.
Qed.

Lemma scratch_not_checkpoint a :
  "/local/scratch/" ≠ model_file a ∧ "/local/scratch/" ≠ meta_file a.
Proof. unfold model_file, meta_file, BNAME. split; discriminate. Qed.

(** X13.  Running again.  After a run that returned, with [e1] epochs asked for,
    the caller asks for [e2] epochs in the same dictionary and runs once
    more.  The second run finds the checkpoint of the first, whatever [e2]
    is, and returns.  When [e1 < e2] it fits the stored model once more, for
    [e2] epochs (the stored count is not taken off); otherwise it fits a
    newly built model, and the stored one is replaced.  The metadata then
    says [e2]. *)
Theorem run_again d w (m m1 : gmap string value) r e1 e2 :
  heap w !! d = Some m →
  fst (run d w) = Return r →
  heap (snd (run d w)) !! d = Some m1 →
  m1 !! "epochs" = Some (VInt e1) →
  let again := run d (snd (setitem d "epochs" (VInt e2) (snd (run d w)))) in
  ∃ p data model1 extension,
    (∃ w1, run_parameters d w = (Return p, w1))
    ∧ (∃ path, load_stories path = Return data)
    ∧ fst (extension_from_parameters d (snd (run d w))) = Return extension
    ∧ files (snd (run d w)) !! model_file extension = Some (H5 model1)
    ∧ (∃ r2, fst again = Return r2)
    ∧ files (snd again) !! model_file extension
      = Some (H5 (fit (if bool_decide (e1 < e2)%Z then model1
                       else build_model data (RNN p) (EMBED_HIDDEN_SIZE p)
                              (DROPOUT p)
                              (return_optimizer (<["epochs" := VInt e2]> m1)))
                      data (BATCH_SIZE p) (VInt e2)))
    ∧ files (snd again) !! meta_file extension
      = Some (Pickle (<["epochs" := VInt e2]> m1)).
Proof.
  intros Hd Hr Hd1 He1 again. subst again.
  destruct (run_computes d w m Hd) as (Hfst & Hfiles & Hheap).
  assert (m1 = with_defaults m) as ->.
  { rewrite Hheap, lookup_insert_eq in Hd1. congruence. }
  rewrite Hfst in Hr.
  destruct (run_result_return m (files w) r Hr)
    as (p & path & data & loaded & ie & resume & Hp & Hfetch & Hload & _ & _ & Hsnd).
  set (m1 := with_defaults m) in *.
  set (ext := extension_of m1) in *.
  set (model1 := trained p data loaded resume) in *.
  set (m2 := <["epochs" := VInt e2]> m1).
  set (w' := snd (run d w)) in *.
  assert (Hfs : files w' = <[meta_file ext := Pickle m1]>
                             (<[model_file ext := H5 model1]> (files w)))
    by (rewrite Hfiles; exact Hsnd).
  set (v := snd (setitem d "epochs" (VInt e2) w')).
  assert (Hv : heap v !! d = Some m2 ∧ files v = files w').
  { subst v. rewrite (setitem_heap d "epochs" (VInt e2) w' m1 Hd1). simpl.
    split; [apply lookup_insert_eq | reflexivity]. }
  destruct Hv as [Hdv Hfv].
  destruct (run_computes d v m2 Hdv) as (Hfst2 & Hfiles2 & _).
  assert (Hmodel : files w' !! model_file ext = Some (H5 model1)).
  { rewrite Hfs, lookup_insert_ne
      by (intros H; symmetry in H; exact (model_file_not_meta_file _ _ H)).
    apply lookup_insert_eq. }
  assert (Hmeta : files w' !! meta_file ext = Some (Pickle m1))
    by (rewrite Hfs; apply lookup_insert_eq).
  assert (Hres : run_result m2 (files v)
                 = (Return (- snd (evaluate
                                     (trained
                                        {| optimizer := return_optimizer m2;
                                           BATCH_SIZE := BATCH_SIZE p;
                                           EPOCHS := VInt e2; DROPOUT := DROPOUT p;
                                           RNN := RNN p;
                                           EMBED_HIDDEN_SIZE := EMBED_HIDDEN_SIZE p;
                                           SENT_HIDDEN_SIZE := SENT_HIDDEN_SIZE p;
                                           QUERY_HIDDEN_SIZE := QUERY_HIDDEN_SIZE p |}
                                        data (Some model1)
                                        (bool_decide (e1 < e2)%Z))
                                     data (BATCH_SIZE p)))%Qc,
                    <[meta_file ext := Pickle m2]>
                      (<[model_file ext
                           := H5 (trained
                                    {| optimizer := return_optimizer m2;
                                       BATCH_SIZE := BATCH_SIZE p;
                                       EPOCHS := VInt e2; DROPOUT := DROPOUT p;
                                       RNN := RNN p;
                                       EMBED_HIDDEN_SIZE := EMBED_HIDDEN_SIZE p;
                                       SENT_HIDDEN_SIZE := SENT_HIDDEN_SIZE p;
                                       QUERY_HIDDEN_SIZE := QUERY_HIDDEN_SIZE p |}
                                    data (Some model1)
                                    (bool_decide (e1 < e2)%Z))]> (files v)))).
  { assert (Hwi : with_defaults (<["epochs" := VInt e2]> m1)
                   = <["epochs" := VInt e2]> m1) by apply with_defaults_insert.
    unfold run_result. cbv zeta. subst m2. rewrite !Hwi. rewrite (params_of_epochs m1 p (VInt e2) Hp).
    assert (Hf : fetch (files v) "/local/scratch/" dataset_name
                 = fetch (files w) "/local/scratch/" dataset_name).
    { unfold fetch, prefix_of. rewrite Hfv, Hfs.
      rewrite !lookup_insert_ne by apply not_eq_sym, scratch_not_checkpoint.
      reflexivity. }
    rewrite Hf, Hfetch, Hload, extension_of_epochs. fold ext.
    unfold checkpoint_of. rewrite Hfv, Hmodel, Hmeta.
    unfold item. rewrite He1, lookup_insert_eq. cbn [and_then].
    rewrite lt_int. cbn [and_then BATCH_SIZE]. reflexivity. }
  exists p, data, model1, ext.
  split.
  { destruct (run_parameters_params d w m Hd) as [out Hrp]. fold m1 in Hrp.
    rewrite Hp in Hrp. eauto. }
  split; [eauto |].
  split.
  { destruct (extension_from_parameters_returns d m1 w' Hd1) as [out ->]. reflexivity. }
  split; [exact Hmodel |].
  split; [rewrite Hfst2, Hres; eauto |].
  rewrite Hfiles2, Hres. cbn [snd]. split.
  - rewrite lookup_insert_ne
      by (intros H; symmetry in H; exact (model_file_not_meta_file _ _ H)).
    rewrite lookup_insert_eq. unfold trained, starting_model. cbn.
    destruct (bool_decide (e1 < e2)%Z); reflexivity.
  - apply lookup_insert_eq.
Qed.

End Script.

(** *** Concrete runs *)

(** A stand-in for Keras and the runtime: a model is the number of epochs
    it was fitted for, the accuracy is always 0.73, the hash is the text
    itself, and [get_file] answers as told. *)
Definition runtime (fetch : string -> string -> outcome string) : Runtime := {|
  Model := Z;
  Dataset := unit;
  Optimizer := string;
  create_parser :=
    [ ("batch_size", VInt 32); ("epochs", VInt 40);
      ("dropout", VFloat (Q2Qc (1 # 2))); ("optimizer", VStr "adam") ];
  return_optimizer := fun _ => "adam";
  here := "/repo/benchmarks/b3";
  get_file := fetch;
  load_stories := fun _ => Return tt;
  describe := fun _ => ["vocab = []"];
  build_model := fun _ _ _ _ _ => 0%Z;
  fit := fun model _ _ epochs =>
           match epochs with VInt n => (model + n)%Z | _ => model end;
  evaluate := fun _ _ _ => (Q2Qc (21 # 100), Q2Qc (73 # 100));
  sha224_hexdigest := fun text => text;
  float_repr := fun q => if decide (q = Q2Qc (-73 # 100)) then "-0.73" else "0.5";
  dict_repr := fun _ => "{...}";
  rnn_repr := fun _ => "<class 'keras.layers.recurrent.LSTM'>";
  format_4f := fun _ => "0.0000"
|}.

Definition online : Runtime :=
  runtime (fun fname _ => Return ("/home/user/.keras/datasets/" ++ fname)).
Definition offline : Runtime :=
  runtime (fun fname _ => Raise (FileNotFoundError fname)).

(** The caller's dictionary, object 1, asks for ten epochs. *)
Definition ten_epochs : gmap string value := {[ "epochs" := VInt 10 ]}.

(** The same once [run] has filled in the defaults. *)
Definition ten_epochs_filled : gmap string value :=
  {[ "epochs" := VInt 10; "batch_size" := VInt 32;
     "dropout" := VFloat (Q2Qc (1 # 2)); "optimizer" := VStr "adam";
     "rnn_type" := VStr "LSTM"; "embed_hidden_size" := VInt 50;
     "sent_hidden_size" := VInt 100; "query_hidden_size" := VInt 100 ]}.

Definition first_call (rt : Runtime) : @World rt :=
  {| heap := {[ 1%positive := ten_epochs ]}; files := ∅; stdout := [] |}.


Example extension_of_ten_epochs :
  @extension_of online ten_epochs_filled
  = ".batch_size=32.dropout=0.5.embed_hidden_size=50.optimizer=adam"
    ++ ".query_hidden_size=100.rnn_type=LSTM.sent_hidden_size=100".
Proof. vm_compute. reflexivity. Qed.

Example run_first_call :
  fst (@run online 1%positive (first_call online)) = Return (Q2Qc (-73 # 100))
  ∧ last (stdout (snd (@run online 1%positive (first_call online))))
    = Some "OUTPUT: -0.73".
Proof. vm_compute. split; reflexivity. Qed.


Lemma staging_error_is_fatal_witness :
  fst (@run offline 1%positive (first_call offline))
  = Raise (FileNotFoundError "babi-tasks-v1-2.tar.gz")
  ∧ last (stdout (snd (@run offline 1%positive (first_call offline))))
    = Some (@dataset_hint).
Proof.
  edestruct (@staging_error_is_fatal offline 1%positive (first_call offline))
    as (Hrun & Hlast & _).
  - vm_compute. reflexivity.
  - vm_compute. reflexivity.
  - rewrite Hrun. split; [reflexivity | apply last_snoc].
Defined.

Lemma online_parser_apart : @parser_apart online.
Proof. repeat constructor. Qed.

Lemma run_parameters_values_witness :
  ∃ p w1,
    @run_parameters online 1%positive (first_call online) = (Return p, w1)
    ∧ @RNN online p = LSTM
    ∧ @EMBED_HIDDEN_SIZE online p = VInt 50
    ∧ @EPOCHS online p = VInt 10
    ∧ @BATCH_SIZE online p = VInt 32.
Proof.
  assert (Hrun : ∃ p w1, @run_parameters online 1%positive (first_call online)
                         = (Return p, w1))
    by (eexists _, _; vm_compute; reflexivity).
  destruct Hrun as (p & w1 & Hrun). exists p, w1. split; [exact Hrun |].
  destruct (@run_parameters_values online 1%positive (first_call online) ten_epochs
              p w1 online_parser_apart eq_refl Hrun)
    as (Hrnn & Hembed & _ & _ & Hbatch & Hepochs & _).
  split; [exact Hrnn |]. split; [exact Hembed |].
  split; [injection Hepochs as ->; reflexivity | injection Hbatch as ->; reflexivity].
Defined.

(** A shared command line without [dropout]: [run] stops at it. *)
Definition no_dropout : Runtime := {|
  Model := Z; Dataset := unit; Optimizer := string;
  create_parser := [ ("batch_size", VInt 32); ("epochs", VInt 40) ];
  return_optimizer := fun _ => "adam";
  here := "/repo/benchmarks/b3";
  get_file := fun fname _ => Return fname;
  load_stories := fun _ => Return tt;
  describe := fun _ => [];
  build_model := fun _ _ _ _ _ => 0%Z;
  fit := fun model _ _ _ => model;
  evaluate := fun _ _ _ => (Q2Qc (1 # 2), Q2Qc (1 # 2));
  sha224_hexdigest := fun text => text;
  float_repr := fun _ => "-0.5";
  dict_repr := fun _ => "{...}";
  rnn_repr := fun _ => "LSTM";
  format_4f := fun _ => "0.5000"
|}.

Lemma run_parameters_returns_iff_witness :
  (∃ p w1, @run_parameters online 1%positive (first_call online) = (Return p, w1))
  ∧ fst (@run no_dropout 1%positive (first_call no_dropout))
    = Raise (KeyError "dropout").
Proof.
  split.
  - destruct (@run_parameters_returns_iff online 1%positive (first_call online)
                ten_epochs online_parser_apart eq_refl) as [[_ Hif] _].
    apply Hif. repeat split; (left; eexists; reflexivity) || (right; eexists; reflexivity).
  - destruct (@run_parameters_returns_iff no_dropout 1%positive
                (first_call no_dropout) ten_epochs) as (_ & _ & _ & Hdrop).
    + repeat constructor.
    + reflexivity.
    + apply Hdrop.
      * right. eexists. reflexivity.
      * left. eexists. reflexivity.
      * intros [[v H] | [v H]]; discriminate H.
Defined.

Lemma run_again_witness :
  let again :=
    @run online 1%positive
      (snd (@setitem online 1%positive "epochs" (VInt 20)
              (snd (@run online 1%positive (first_call online))))) in
  ∃ p data model1 extension,
    (∃ w1, @run_parameters online 1%positive (first_call online) = (Return p, w1))
    ∧ (∃ path, @load_stories online path = Return data)
    ∧ fst (@extension_from_parameters online 1%positive
             (snd (@run online 1%positive (first_call online))))
      = Return extension
    ∧ files (snd (@run online 1%positive (first_call online)))
        !! @model_file online extension = Some (@H5 online model1)
    ∧ (∃ r2, fst again = Return r2)
    ∧ files (snd again) !! @model_file online extension
      = Some (@H5 online
                (@fit online
                   (if bool_decide (10 < 20)%Z then model1
                    else @build_model online data (@RNN online p)
                           (@EMBED_HIDDEN_SIZE online p) (@DROPOUT online p)
                           (@return_optimizer online
                              (<["epochs" := VInt 20]> ten_epochs_filled)))
                   data (@BATCH_SIZE online p) (VInt 20)))
    ∧ files (snd again) !! @meta_file online extension
      = Some (@Pickle online (<["epochs" := VInt 20]> ten_epochs_filled)).
Proof.
  apply (@run_again online 1%positive (first_call online) ten_epochs
           ten_epochs_filled (Q2Qc (-73 # 100)) 10 20).
  - reflexivity.
  - vm_compute. reflexivity.
  - vm_compute. reflexivity.
  - reflexivity.
Defined.

(** The numbers of that run: ten epochs, then twenty more on the stored
    model; or, asking for five, five on a new one. *)
Example run_again_models :
  files (snd (@run online 1%positive
                (snd (@setitem online 1%positive "epochs" (VInt 20)
                        (snd (@run online 1%positive (first_call online)))))))
    !! @model_file online (@extension_of online ten_epochs_filled)
  = Some (@H5 online 30%Z)
  ∧ files (snd (@run online 1%positive
                  (snd (@setitem online 1%positive "epochs" (VInt 5)
                          (snd (@run online 1%positive (first_call online)))))))
      !! @model_file online (@extension_of online ten_epochs_filled)
    = Some (@H5 online 5%Z).
Proof. vm_compute. split; reflexivity. Qed.

Lemma stage_in_uncached_witness :
  ∃ paths out,
    @stage_in online ["/etc/hosts"; "a.txt"] "/local/scratch/" false (first_call online)
    = (Return paths, set_stdout (stdout (first_call online) ++ out) (first_call online))
    ∧ dict_get "/etc/hosts" paths = Some "/etc/hosts"
    ∧ dict_get "a.txt" paths = Some (@here online ++ "/data/a.txt")
    ∧ dict_get "b.txt" paths = None.
Proof.
  destruct (@stage_in_uncached online ["/etc/hosts"; "a.txt"] "/local/scratch/"
              (first_call online)) as (paths & out & Hr & _ & Habs & Hrel & Hnone).
  exists paths, out. split; [exact Hr |]. split; [| split].
  - apply Habs; [apply list_elem_of_here | reflexivity].
  - apply Hrel; [apply list_elem_of_further, list_elem_of_here | reflexivity].
  - apply Hnone. intros H. apply elem_of_cons in H as [H | H]; [discriminate H |].
    apply elem_of_cons in H as [H | H]; [discriminate H | inversion H].
Defined.

Lemma stage_in_cached_witness :
  (∃ paths w',
     @stage_in online ["a.tar.gz"; "b.txt"] "/local/scratch/" true (first_call online)
     = (Return paths, w')
     ∧ dict_get "b.txt" paths = Some "/home/user/.keras/datasets/b.txt")
  ∧ fst (@stage_in offline ["a.tar.gz"; "b.txt"] "/local/scratch/" true
           (first_call offline))
    = Raise (FileNotFoundError "a.tar.gz").
Proof.
  split.
  - destruct (@stage_in_cached online ["a.tar.gz"; "b.txt"] "/local/scratch/"
                (first_call online)) as [Hok _].
    destruct Hok as (paths & w' & Hr & Hin & _).
    + repeat constructor; eexists; reflexivity.
    + exists paths, w'. split; [exact Hr |].
      destruct (Hin "b.txt") as (path & Hask & Hget).
      * apply list_elem_of_further, list_elem_of_here.
      * rewrite Hget. vm_compute in Hask. injection Hask as <-. reflexivity.
  - destruct (@stage_in_cached offline ["a.tar.gz"; "b.txt"] "/local/scratch/"
                (first_call offline)) as [_ Hfail].
    destruct (Hfail [] "a.tar.gz" ["b.txt"] (FileNotFoundError "a.tar.gz")
                eq_refl (Forall_nil_2 _) eq_refl) as (out & Hr & _).
    rewrite Hr. reflexivity.
Defined.

End BabiRnn.

(** ** [deephyper/problem/__init__.py] *)

Module Problem.

(** A module object is its namespace; the objects bound there are known by
    their identity. *)
Record module_ : Type := { attributes : gmap string positive }.

(** [LazyImport.cache] (one dictionary, held by the class and so shared by
    every instance), [sys.modules], the modules an import can find and load,
    and the calls of [importlib.import_module] made so far. *)
Record World : Type := {
  cache : gmap string positive;
  sys_modules : gmap string module_;
  importable : gmap string module_;
  import_calls : list string
}.

Definition set_cache (c : gmap string positive) (w : World) : World :=
  {| cache := c; sys_modules := sys_modules w; importable := importable w;
     import_calls := import_calls w |}.
Definition set_sys_modules (s : gmap string module_) (w : World) : World :=
  {| cache := cache w; sys_modules := s; importable := importable w;
     import_calls := import_calls w |}.
Definition set_import_calls (l : list string) (w : World) : World :=
  {| cache := cache w; sys_modules := sys_modules w; importable := importable w;
     import_calls := l |}.

(** [LazyImport.attrs] *)
Definition attrs : gmap string string :=
  {[ "NaProblem" := "_neuralarchitecture:NaProblem";
     "HpProblem" := "_hyperparameter:HpProblem" ]}.

Record LazyImport : Type := {
  module_name : string;
  module : module_
}.

(** [LazyImport.__init__] *)
Definition __init__ (name : string) : M World LazyImport :=
  w <-- get;
  match sys_modules w !! name with
  | Some m => ret {| module_name := name; module := m |}
  | None => raise (KeyError name)
  end.

(** [importlib.import_module(name)]: the module of [sys.modules] if it is
    there, else the one found and loaded. *)
Definition import_module (name : string) : M World module_ :=
  modify (fun w => set_import_calls (import_calls w ++ [name]) w);;
  w <-- get;
  match sys_modules w !! name with
  | Some m => ret m
  | None =>
      match importable w !! name with
      | Some m =>
          modify (fun w => set_sys_modules (<[name := m]> (sys_modules w)) w);;
          ret m
      | None => raise (ModuleNotFoundError name)
      end
  end.

(** [getattr(module, name)] and [module.__getattribute__(name)] *)
Definition getattr (m : module_) (name : string) : M World positive :=
  match attributes m !! name with
  | Some v => ret v
  | None => raise (AttributeError name)
  end.

(** [LazyImport.__getattr__] *)
Definition __getattr__ (self : LazyImport) (__name : string) : M World positive :=
  w <-- get;
  match cache w !! __name with
  | Some v => ret v
  | None =>
      match attrs !! __name with
      | Some attr =>
          match split ":" attr with
          | [sub_module_name; attr_name] =>
              let full_module_name := module_name self ++ "." ++ sub_module_name in
              module <-- import_module full_module_name;
              modify (fun w => set_sys_modules
                                 (<[full_module_name := module]> (sys_modules w)) w);;
              attr <-- getattr module attr_name;
              modify (fun w => set_cache (<[__name := attr]> (cache w)) w);;
              w <-- get;
              match cache w !! __name with
              | Some v => ret v
              | None => raise (KeyError __name)
              end
          | _ => raise (ValueError attr)
          end
      | None => getattr (module self) __name
      end
  end.

(** Attribute accesses made one after the other, each by some instance. *)
Fixpoint accesses (l : list (LazyImport * string)) (w : World) : World :=
  match l with
  | [] => w
  | (self, name) :: l' => accesses l' (snd (__getattr__ self name w))
  end.

(** The module an import of [name] yields in [w], if any. *)
Definition found (name : string) (w : World) : option module_ :=
  match sys_modules w !! name with
  | Some m => Some m
  | None => importable w !! name
  end.

(** *** Properties *)

Lemma attrs_split :
  map_Forall (λ _ attr, ∃ sub attr_name, split ":" attr = [sub; attr_name]) attrs.
Proof.
  unfold attrs. apply map_Forall_insert_2; [eauto |].
  apply map_Forall_insert_2; [eauto |]. apply map_Forall_empty.
Qed.

Lemma getattr_cached self name w v :
  cache w !! name = Some v → __getattr__ self name w = (Return v, w).
Proof. intros H. unfold __getattr__, bind, get. rewrite H. reflexivity. Qed.

Lemma import_module_found name w m :
  found name w = Some m →
  ∃ w', import_module name w = (Return m, w')
        ∧ cache w' = cache w
        ∧ import_calls w' = (import_calls w ++ [name])%list.
Proof.
  unfold found, import_module. intros H.
  unfold bind at 1, modify at 1, bind at 1, get at 1. cbn [sys_modules set_import_calls].
  destruct (sys_modules w !! name) as [m0 |].
  - injection H as ->. eexists. split; [reflexivity |]. split; reflexivity.
  - cbn [importable set_import_calls]. rewrite H.
    eexists. split; [reflexivity |]. split; reflexivity.
Qed.

Lemma getattr_first self name w attr sub attr_name m v :
  cache w !! name = None → attrs !! name = Some attr →
  split ":" attr = [sub; attr_name] →
  found (module_name self ++ "." ++ sub) w = Some m →
  attributes m !! attr_name = Some v →
  ∃ w', __getattr__ self name w = (Return v, w')
        ∧ cache w' = <[name := v]> (cache w)
        ∧ import_calls w'
          = (import_calls w ++ [(module_name self ++ "." ++ sub)%string])%list.
Proof.
  intros Hc Ha Hs Hf Hv. unfold __getattr__.
  unfold bind at 1, get at 1. rewrite Hc, Ha, Hs.
  destruct (import_module_found _ w m Hf) as (w1 & Hi & Hc1 & Hl1).
  unfold bind at 1. rewrite Hi.
  unfold bind at 1, modify at 1. unfold bind at 1, getattr. rewrite Hv.
  unfold ret at 1. unfold bind at 1, modify at 1. unfold bind at 1, get at 1.
  cbn [cache set_cache set_sys_modules]. rewrite lookup_insert_eq.
  eexists. split; [reflexivity |]. cbn. rewrite Hc1, Hl1. split; reflexivity.
Qed.

Lemma getattr_delegated self name w :
  cache w !! name = None → attrs !! name = None →
  __getattr__ self name w
  = (match attributes (module self) !! name with
     | Some v => Return v
     | None => Raise (AttributeError name)
     end, w).
Proof.
  intros Hc Ha. unfold __getattr__, bind, get. rewrite Hc, Ha.
  unfold getattr. destruct (attributes (module self) !! name); reflexivity.
Qed.

(** No access unbinds or rebinds a name of the cache. *)
Lemma getattr_keeps_cached self other w name v :
  cache w !! name = Some v →
  cache (snd (__getattr__ self other w)) !! name = Some v.
Proof.
  intros Hn. unfold __getattr__. unfold bind at 1, get at 1.
  destruct (cache w !! other) as [v' |] eqn:Ho; [exact Hn |].
  destruct (attrs !! other) as [attr |];
    [| unfold getattr; destruct (attributes (module self) !! other); exact Hn].
  destruct (split ":" attr) as [| sub [| attr_name [| ? ?]]]; try exact Hn.
  unfold bind at 1.
  assert (Hi : cache (snd (import_module (module_name self ++ "." ++ sub) w)) = cache w).
  { unfold import_module, bind, modify, get. cbn [sys_modules set_import_calls].
    destruct (sys_modules w !! _); [reflexivity |].
    cbn [importable set_import_calls]. destruct (importable w !! _); reflexivity. }
  destruct (import_module (module_name self ++ "." ++ sub) w) as [[m | e] w1];
    simpl in Hi; [| simpl; rewrite Hi; exact Hn].
  unfold bind at 1, modify at 1. unfold bind at 1, getattr.
  destruct (attributes m !! attr_name) as [a |]; [| simpl; rewrite Hi; exact Hn].
  unfold ret at 1. unfold bind at 1, modify at 1. unfold bind at 1, get at 1.
  cbn [cache set_cache set_sys_modules]. rewrite lookup_insert_eq. simpl.
  rewrite lookup_insert_ne by congruence. rewrite Hi. exact Hn.
Qed.

Lemma accesses_keep_cached l w name v :
  cache w !! name = Some v → cache (accesses l w) !! name = Some v.
Proof.
  revert w. induction l as [| [self other] l IH]; intros w H; simpl; [exact H |].
  apply IH, getattr_keeps_cached, H.
Qed.

(** C10.  An access of a name that is in the cache returns the cached
    object and changes nothing: no import is made.  The first access of a
    name listed in [attrs] (one not yet in the cache), when the submodule it
    names can be imported and has the attribute, imports that submodule,
    binds the name to the attribute in the cache of the class and returns
    it; from then on, whatever accesses are made in between and whichever
    instance asks, an access of the name returns that same object without
    a further import.  A name that is neither in the cache nor in [attrs] is
    looked up in the wrapped module. *)
Theorem getattr_caches (self : LazyImport) (name : string) (w : World) :
  (∀ v, cache w !! name = Some v → __getattr__ self name w = (Return v, w))
  ∧ (∀ attr, cache w !! name = None → attrs !! name = Some attr →
       ∃ sub attr_name,
         split ":" attr = [sub; attr_name]
         ∧ ∀ m v, found (module_name self ++ "." ++ sub) w = Some m →
                  attributes m !! attr_name = Some v →
           ∃ w', __getattr__ self name w = (Return v, w')
                 ∧ cache w' = <[name := v]> (cache w)
                 ∧ import_calls w'
                   = (import_calls w ++ [(module_name self ++ "." ++ sub)%string])%list
                 ∧ ∀ between other,
                     __getattr__ other name (accesses between w')
                     = (Return v, accesses between w'))
  ∧ (cache w !! name = None → attrs !! name = None →
     __getattr__ self name w
     = (match attributes (module self) !! name with
        | Some v => Return v
        | None => Raise (AttributeError name)
        end, w)).
Proof.
  split; [| split].
  - intros v. apply getattr_cached.
  - intros attr Hc Ha.
    destruct (attrs_split name attr Ha) as (sub & attr_name & Hs).
    exists sub, attr_name. split; [exact Hs |]. intros m v Hf Hv.
    destruct (getattr_first self name w attr sub attr_name m v Hc Ha Hs Hf Hv)
      as (w' & Hr & Hc' & Hl).
    exists w'. repeat split; try assumption.
    intros between other. apply getattr_cached, accesses_keep_cached.
    rewrite Hc'. apply lookup_insert_eq.
  - apply getattr_delegated.
Qed.

(** *** A concrete run *)

Definition NaProblem_class : positive := 7%positive.

Definition package : module_ := {| attributes := {[ "HpProblem_alias" := 3%positive ]} |}.

Definition at_import : World :=
  {| cache := ∅;
     sys_modules := {[ "deephyper.problem" := package ]};
     importable :=
       {[ "deephyper.problem._neuralarchitecture"
            := {| attributes := {[ "NaProblem" := NaProblem_class ]} |} ]};
     import_calls := [] |}.

Definition shim : LazyImport :=
  {| module_name := "deephyper.problem"; module := package |}.

Lemma getattr_caches_witness :
  ∃ w', __getattr__ shim "NaProblem" at_import = (Return NaProblem_class, w')
        ∧ import_calls w' = ["deephyper.problem._neuralarchitecture"]
        ∧ __getattr__ shim "NaProblem" w' = (Return NaProblem_class, w')
        ∧ fst (__getattr__ shim "Missing" w') = Raise (AttributeError "Missing").
Proof.
  destruct (getattr_caches shim "NaProblem" at_import) as (_ & Hfirst & _).
  destruct (Hfirst "_neuralarchitecture:NaProblem" eq_refl eq_refl)
    as (sub & attr_name & Hs & Hrest).
  injection Hs as <- <-.
  destruct (Hrest {| attributes := {[ "NaProblem" := NaProblem_class ]} |}
              NaProblem_class eq_refl eq_refl) as (w' & Hr & Hc & Hl & Hlater).
  exists w'. split; [exact Hr |]. split; [exact Hl |].
  split; [exact (Hlater [] shim) |].
  destruct (getattr_caches shim "Missing" w') as (_ & _ & Hd).
  rewrite Hd; [reflexivity | rewrite Hc; reflexivity | reflexivity].
Defined.

(** *** When the first access fails *)

Lemma import_module_missing name w :
  found name w = None →
  import_module name w
  = (Raise (ModuleNotFoundError name),
     set_import_calls (import_calls w ++ [name]) w).
Proof.
  unfold found, import_module. intros H.
  unfold bind at 1, modify at 1, bind at 1, get at 1. cbn [sys_modules set_import_calls].
  destruct (sys_modules w !! name) as [m0 |]; [discriminate |].
  cbn [importable set_import_calls]. rewrite H. reflexivity.
Qed.

Lemma import_module_loaded name w m :
  found name w = Some m →
  import_module name w
  = (Return m,
     set_sys_modules (<[name := m]> (sys_modules w))
       (set_import_calls (import_calls w ++ [name]) w)).
Proof.
  unfold found, import_module. intros H.
  unfold bind at 1, modify at 1, bind at 1, get at 1. cbn [sys_modules set_import_calls].
  destruct (sys_modules w !! name) as [m0 |] eqn:Hs.
  - injection H as ->. unfold ret. rewrite insert_id by exact Hs.
    destruct w; reflexivity.
  - cbn [importable set_import_calls]. rewrite H. reflexivity.
Qed.

(** X6.  A first access that fails leaves the cache as it was, so the next access
    of the name tries again: when the submodule cannot be imported the
    error of the import comes out and only the call is on record; when the
    submodule lacks the attribute an [AttributeError] comes out, with the
    submodule imported and registered in [sys.modules] all the same. *)
Theorem getattr_failure_not_cached (self : LazyImport) (name attr : string) (w : World) :
  cache w !! name = None → attrs !! name = Some attr →
  ∃ sub attr_name,
    split ":" attr = [sub; attr_name]
    ∧ (found (module_name self ++ "." ++ sub) w = None →
       __getattr__ self name w
       = (Raise (ModuleNotFoundError (module_name self ++ "." ++ sub)),
          set_import_calls
            (import_calls w ++ [(module_name self ++ "." ++ sub)%string]) w))
    ∧ (∀ m, found (module_name self ++ "." ++ sub) w = Some m →
            attributes m !! attr_name = None →
            ∃ w', __getattr__ self name w = (Raise (AttributeError attr_name), w')
                  ∧ cache w' = cache w
                  ∧ sys_modules w' !! (module_name self ++ "." ++ sub) = Some m
                  ∧ import_calls w'
                    = (import_calls w
                       ++ [(module_name self ++ "." ++ sub)%string])%list).
Proof.
  intros Hc Ha. destruct (attrs_split name attr Ha) as (sub & attr_name & Hs).
  exists sub, attr_name. split; [exact Hs |]. split.
  - intros Hf. unfold __getattr__. unfold bind at 1, get at 1. rewrite Hc, Ha, Hs.
    unfold bind at 1. rewrite (import_module_missing _ w Hf). reflexivity.
  - intros m Hf Hv. unfold __getattr__. unfold bind at 1, get at 1.
    rewrite Hc, Ha, Hs. unfold bind at 1.
    rewrite (import_module_loaded _ w m Hf).
    unfold bind at 1, modify at 1. unfold bind at 1, getattr. rewrite Hv.
    eexists. split; [reflexivity |]. cbn.
    split; [reflexivity |]. split; [apply lookup_insert_eq | reflexivity].
Qed.

(** An import that fails is tried again at every access: each adds one call
    of [import_module] and raises the same error. *)
Definition nowhere : World :=
  {| cache := ∅; sys_modules := {[ "deephyper.problem" := package ]};
     importable := ∅; import_calls := [] |}.

Lemma getattr_failure_not_cached_witness :
  fst (__getattr__ shim "HpProblem" nowhere)
  = Raise (ModuleNotFoundError "deephyper.problem._hyperparameter")
  ∧ import_calls (accesses [(shim, "HpProblem"); (shim, "HpProblem")] nowhere)
    = ["deephyper.problem._hyperparameter"; "deephyper.problem._hyperparameter"]
  ∧ (∃ w', __getattr__ shim "HpProblem"
             (set_sys_modules
                {[ "deephyper.problem._hyperparameter" := {| attributes := ∅ |} ]}
                nowhere)
           = (Raise (AttributeError "HpProblem"), w')
           ∧ cache w' = ∅).
Proof.
  destruct (getattr_failure_not_cached shim "HpProblem" "_hyperparameter:HpProblem"
              nowhere eq_refl eq_refl) as (sub & attr_name & Hs & Hfail & _).
  injection Hs as <- <-.
  split; [rewrite (Hfail eq_refl); reflexivity |].
  split; [reflexivity |].
  destruct (getattr_failure_not_cached shim "HpProblem" "_hyperparameter:HpProblem"
              (set_sys_modules
                 {[ "deephyper.problem._hyperparameter" := {| attributes := ∅ |} ]}
                 nowhere) eq_refl eq_refl) as (sub & attr_name & Hs & _ & Hattr).
  injection Hs as <- <-.
  destruct (Hattr {| attributes := ∅ |} eq_refl eq_refl) as (w' & Hr & Hc & _).
  exists w'. split; [exact Hr | exact Hc].
Defined.

End Problem.

(** ** The objective, from the script's last line to the evaluator *)

Module Objective.

Definition newline : ascii := ascii_of_nat 10.

(** [text.split('\n')] *)
Definition lines (text : string) : list string := split newline text.

(** What follows ["OUTPUT: "] on a line that starts with it. *)
Fixpoint after_prefix (prefix line : string) : option string :=
  match prefix, line with
  | EmptyString, _ => Some line
  | String p prefix', String c line' =>
      if Ascii.eqb p c then after_prefix prefix' line' else None
  | String _ _, EmptyString => None
  end.

Definition relevant (line : string) : option string :=
  after_prefix "OUTPUT: " line.

Definition digit (c : ascii) : option Z :=
  let n := Z.of_nat (nat_of_ascii c) in
  if (48 <=? n)%Z && (n <=? 57)%Z then Some (n - 48)%Z else None.

Fixpoint digits (s : string) (acc : Z) : option Z :=
  match s with
  | EmptyString => Some acc
  | String c s' =>
      match digit c with
      | Some d => digits s' (10 * acc + d)%Z
      | None => None
      end
  end.

(** An unsigned decimal literal: digits, then possibly a point and
    digits. *)
Definition decimal (s : string) : option Q :=
  match split "." s with
  | [whole] =>
      if String.eqb whole "" then None
      else n ← digits whole 0; Some (inject_Z n)
  | [whole; fraction] =>
      if String.eqb (whole ++ fraction) "" then None
      else n ← digits whole 0;
           f ← digits fraction 0;
           Some (inject_Z n
                 + (f # Z.to_pos (10 ^ Z.of_nat (String.length fraction))))%Q
  | _ => None
  end.

(** [float(s)] for a decimal literal with an optional sign. *)
Definition float (s : string) : outcome Qc :=
  let signed :=
    match s with
    | String "-" s' => Qopp <$> decimal s'
    | String "+" s' => decimal s'
    | _ => decimal s
    end in
  match signed with
  | Some q => Return (Q2Qc q)
  | None => Raise (ValueError s)
  end.

Definition parse_lines (l : list string) : outcome Qc :=
  match last (omap relevant l) with
  | Some text => float text
  | None => Raise (ValueError "no OUTPUT line")
  end.

(** Modelled from the spec: [Evaluator._parse], a method of the base class
    [Evaluator], which is not among the sources.  The spec's words: "a
    per-task text file whose last relevant line matches a fixed
    OUTPUT: <float> pattern, parsed to recover the objective". *)
Definition _parse (output : string) : outcome Qc := parse_lines (lines output).

(** The evaluator with this [_parse], whatever else it inherits. *)
Definition parsing (base : Balsam.Evaluator) : Balsam.Evaluator :=
  {| Balsam.WORKERS_PER_NODE := Balsam.WORKERS_PER_NODE;
     Balsam.PYTHON_EXE := Balsam.PYTHON_EXE;
     Balsam.KERAS_BACKEND := Balsam.KERAS_BACKEND;
     Balsam.FAIL_RETURN_VALUE := Balsam.FAIL_RETURN_VALUE;
     Balsam._runner_executable := Balsam._runner_executable;
     Balsam.encode := Balsam.encode;
     Balsam._parse := _parse |}.

Example float_073 : float "-0.73" = Return (Q2Qc (-73 # 100)).
Proof. reflexivity. Qed.

Example float_1 : float "1" = Return (Q2Qc (1 # 1)).
Proof. reflexivity. Qed.

Example float_junk : float "n/a" = Raise (ValueError "n/a").
Proof. reflexivity. Qed.

Lemma omap_relevant_none (l : list string) :
  Forall (λ line, relevant line = None) l → omap relevant l = [].
Proof.
  induction 1 as [| line l Hline _ IH]; [reflexivity |].
  simpl. rewrite Hline. exact IH.
Qed.

Lemma parse_lines_last before line text after :
  relevant line = Some text →
  Forall (λ line, relevant line = None) after →
  parse_lines (before ++ [line] ++ after) = float text.
Proof.
  intros Hline Hafter. unfold parse_lines.
  rewrite !omap_app, (omap_relevant_none after Hafter), app_nil_r.
  simpl. rewrite Hline, last_snoc. reflexivity.
Qed.

End Objective.

Module Contract.

Section Claims.

Context {rt : BabiRnn.Runtime} {base : Balsam.Evaluator} {launcher : Balsam.Launcher}.

(** C5.  A run of the script that returns has printed, last of all, the
    line [OUTPUT: ] followed by the value it returns, which is the negated
    accuracy [evaluate] reported.  [_on_done] reads the file named after the
    job with [.out] appended from the job's working directory and returns
    what [_parse] makes of it; with the [_parse] of the specification, a
    file whose last [OUTPUT: ] line is [OUTPUT: -0.73] gives the objective
    -0.73. *)
Theorem output_line_is_parsed :
  (∀ d w r w',
     BabiRnn.run d w = (Return r, w') →
     (∃ model data batch, r = (- snd (BabiRnn.evaluate model data batch))%Qc)
     ∧ last (BabiRnn.stdout w') = Some ("OUTPUT: " ++ BabiRnn.float_repr r))
  ∧ (∀ job process_data w,
       Balsam._on_done job process_data w
       = (match Balsam.job_workdir job !! (Balsam.job_name job ++ ".out") with
          | Some output => Balsam._parse output
          | None => Raise (FileNotFoundError (Balsam.job_name job ++ ".out"))
          end, w))
  ∧ (∀ job process_data w output before after,
       Balsam.job_workdir job !! (Balsam.job_name job ++ ".out") = Some output →
       Objective.lines output = (before ++ ["OUTPUT: -0.73"] ++ after)%list →
       Forall (λ line, Objective.relevant line = None) after →
       @Balsam._on_done (Objective.parsing base) job process_data w
       = (Return (Q2Qc (-73 # 100)), w)).
Proof.
  split; [| split].
  - intros d w r w'. apply BabiRnn.run_returns.
  - intros job pd w. unfold Balsam._on_done, Balsam.read_file_in_workdir, bind, Balsam.lift.
    destruct (Balsam.job_workdir job !! _); reflexivity.
  - intros job pd w output before after Hfile Hlines Hafter.
    unfold Balsam._on_done, Balsam.read_file_in_workdir, bind, Balsam.lift.
    rewrite Hfile. cbn [Balsam._parse Objective.parsing]. unfold Objective._parse.
    rewrite Hlines,
      (Objective.parse_lines_last before "OUTPUT: -0.73" "-0.73" after eq_refl Hafter).
    reflexivity.
Qed.

(** C8, as the code has it.  [_eval_exec] writes to no dictionary of its
    caller.  [run] changes the dictionary it is handed, and only that one:
    every key it had keeps its value, and every key of [defaults()] it
    lacked is bound to its default. *)
Theorem configuration_gains_defaults :
  (∀ self x w, Balsam.objects (snd (Balsam._eval_exec self x w)) = Balsam.objects w)
  ∧ (∀ d m w,
       BabiRnn.heap w !! d = Some m →
       ∃ m', BabiRnn.heap (snd (BabiRnn.run d w)) = <[d := m']> (BabiRnn.heap w)
             ∧ ∀ k, m' !! k = match m !! k with
                              | Some v => Some v
                              | None => dict_get k BabiRnn.defaults
                              end).
Proof.
  split.
  - intros self x w. apply (Balsam.eval_exec_effect self x w).
  - intros d m w Hd. eexists. split; [apply BabiRnn.run_heap, Hd |].
    apply BabiRnn.fill_all_lookup.
Qed.

End Claims.

(** *** Concrete runs *)

Definition task3_out : string :=
  String.concat (String Objective.newline "")
    [ "Training"; "Test loss / test accuracy = 0.9121 / 0.7300";
      "OUTPUT: -0.73"; "" ].

Definition finished_job : Balsam.BalsamJob :=
  {| Balsam.job_name := "task3"; Balsam.job_workflow := Balsam.babi_app;
     Balsam.job_application := Balsam.babi_app; Balsam.job_args := "'{}'";
     Balsam.job_environ_vars := "KERAS_BACKEND=tensorflow";
     Balsam.job_resources := [];
     Balsam.job_workdir := {[ "task3.out" := task3_out ]} |}.

Lemma output_line_is_parsed_witness :
  @Balsam._on_done (Objective.parsing Balsam.example_base) finished_job tt
    Balsam.fresh_world
  = (Return (Q2Qc (-73 # 100)), Balsam.fresh_world)
  ∧ last (BabiRnn.stdout
            (snd (@BabiRnn.run BabiRnn.online 1%positive
                    (BabiRnn.first_call BabiRnn.online))))
    = Some "OUTPUT: -0.73".
Proof.
  destruct (@output_line_is_parsed BabiRnn.online Balsam.example_base)
    as (Hrun & _ & Hdone).
  split.
  - apply (Hdone finished_job tt Balsam.fresh_world task3_out
             [ "Training"; "Test loss / test accuracy = 0.9121 / 0.7300" ] [ "" ]).
    + reflexivity.
    + reflexivity.
    + repeat constructor.
  - assert (Hr : ∃ w', @BabiRnn.run BabiRnn.online 1%positive
                         (BabiRnn.first_call BabiRnn.online)
                       = (Return (Q2Qc (-73 # 100)), w'))
      by (eexists; vm_compute; reflexivity).
    destruct Hr as [w' Hr]. destruct (Hrun _ _ _ _ Hr) as [_ Hlast].
    rewrite Hr. cbn [snd]. rewrite Hlast. reflexivity.
Defined.

(** The text the script prints, read back by the evaluator. *)
Example run_output_parsed :
  Objective._parse
    (String.concat (String Objective.newline "")
       (BabiRnn.stdout (snd (@BabiRnn.run BabiRnn.online 1%positive
                               (BabiRnn.first_call BabiRnn.online)))))
  = fst (@BabiRnn.run BabiRnn.online 1%positive (BabiRnn.first_call BabiRnn.online)).
Proof. vm_compute. reflexivity. Qed.

(** C8, as stated, fails.  A caller hands [run] a dictionary that binds
    only [epochs]; when [run] is done the same dictionary binds [rnn_type]
    as well, and the other defaults. *)
Lemma run_adds_defaults_to_configuration :
  BabiRnn.heap (BabiRnn.first_call BabiRnn.online) !! 1%positive
  = Some BabiRnn.ten_epochs
  ∧ BabiRnn.ten_epochs !! "rnn_type" = None
  ∧ BabiRnn.heap (snd (@BabiRnn.run BabiRnn.online 1%positive
                         (BabiRnn.first_call BabiRnn.online))) !! 1%positive
    = Some BabiRnn.ten_epochs_filled
  ∧ BabiRnn.ten_epochs_filled !! "rnn_type" = Some (VStr "LSTM").
Proof. vm_compute. repeat split. Qed.

Lemma configuration_gains_defaults_witness :
  ∃ m', BabiRnn.heap (snd (@BabiRnn.run BabiRnn.online 1%positive
                             (BabiRnn.first_call BabiRnn.online)))
        = <[1%positive := m']> (BabiRnn.heap (BabiRnn.first_call BabiRnn.online))
        ∧ m' !! "epochs" = Some (VInt 10)
        ∧ m' !! "embed_hidden_size" = Some (VInt 50).
Proof.
  destruct (@configuration_gains_defaults BabiRnn.online Balsam.example_base
              Balsam.example_launcher) as [_ Hrun].
  destruct (Hrun 1%positive BabiRnn.ten_epochs (BabiRnn.first_call BabiRnn.online)
              eq_refl) as (m' & Hheap & Hkeys).
  exists m'. split; [exact Hheap |]. split; rewrite Hkeys; reflexivity.
Defined.

End Contract.

(** ** [benchmarks/b3/babi_rnn.py]: reading and vectorising the stories

    What [BabiRnn]'s [load_stories] stands for, written out: [parse_stories],
    [get_stories], [vectorize_stories] and lines 254 to 266 of [run]. *)

Module Stories.

Local Open Scope list_scope.

(** The exceptions this part of the script can meet (a
    [UnicodeDecodeError] is a [ValueError]). *)
Inductive error : Type :=
| ValueError
| IndexError
| TypeError
| AttributeError
| KeyError (key : string).

Inductive result (A : Type) : Type :=
| Ok (a : A)
| Error (e : error).
Arguments Ok {A} a.
Arguments Error {A} e.

#[export] Instance result_ret : MRet result := λ A a, Ok a.
#[export] Instance result_bind : MBind result := λ A B k r,
  match r with
  | Ok a => k a
  | Error e => Error e
  end.

(** What the script takes from Python's strings and regular expressions. *)
Class Text : Type := {
  (** [line.decode('utf-8').strip()] *)
  decode_strip : string -> result string;
  (** [tokenize]: the pieces of a [re.split] stripped and filtered, which
      fails on a piece that is [None] *)
  tokenize : string -> result (list string);
  (** [int(s)] *)
  int : string -> result Z;
  (** [s.split()] *)
  fields : string -> list string
}.

(** A sentence as [parse_stories] keeps it in [story]: the tokens of a
    statement, or [''] where a question stood. *)
Inductive sentence : Type :=
| Tokens (words : list string)
| Blank.

(** [if x]: an empty list and [''] are false. *)
Definition truthy (x : sentence) : bool :=
  match x with
  | Tokens (_ :: _) => true
  | Tokens [] | Blank => false
  end.

(** [len(x)] *)
Definition len (x : sentence) : Z :=
  match x with
  | Tokens words => Z.of_nat (length words)
  | Blank => 0
  end.

(** [s.split(sep, 1)] unpacked into two names: [None] when [sep] does not
    occur, and the unpacking fails. *)
Fixpoint split_once (sep : ascii) (s : string) : option (string * string) :=
  match s with
  | EmptyString => None
  | String c s' =>
      if Ascii.eqb c sep then Some (EmptyString, s')
      else match split_once sep s' with
           | Some (a, b) => Some (String c a, b)
           | None => None
           end
  end.

(** [c in s] *)
Fixpoint occurs (c : ascii) (s : string) : bool :=
  match s with
  | EmptyString => false
  | String c' s' => Ascii.eqb c' c || occurs c s'
  end.

Definition tab : ascii := ascii_of_nat 9.

(** [l[i]], where a negative [i] counts from the end. *)
Definition index {A} (l : list A) (i : Z) : result A :=
  let n := Z.of_nat (length l) in
  let j := if (i <? 0)%Z then (n + i)%Z else i in
  if (0 <=? j)%Z && (j <? n)%Z then
    match l !! Z.to_nat j with
    | Some x => Ok x
    | None => Error IndexError
    end
  else Error IndexError.

(** One entry of [data]: the substory, the question and the answer. *)
Definition entry : Type := list sentence * list string * string.

(** A story once [get_stories] has flattened it. *)
Definition flat : Type := sentence * list string * string.

Section Reading.

Context {text : Text}.

(** [[story[i - 1] for i in map(int, supporting.split())]] *)
Fixpoint select (story : list sentence) (supporting : list string)
  : result (list sentence) :=
  match supporting with
  | [] => Ok []
  | i :: supporting' =>
      i ← int i;
      x ← index story (i - 1);
      rest ← select story supporting';
      Ok (x :: rest)
  end.

(** The body of the loop of [parse_stories]. *)
Definition parse_line (only_supporting : bool) (data : list entry)
    (story : list sentence) (line : string) : result (list entry * list sentence) :=
  line ← decode_strip line;
  match split_once " " line with
  | None => Error ValueError
  | Some (nid, line) =>
      nid ← int nid;
      let story := if (nid =? 1)%Z then [] else story in
      if occurs tab line then
        match split tab line with
        | [q; a; supporting] =>
            q ← tokenize q;
            substory ← (if only_supporting
                        then select story (fields supporting)
                        else Ok (List.filter truthy story));
            Ok (data ++ [(substory, q, a)], story ++ [Blank])
        | _ => Error ValueError
        end
      else
        sent ← tokenize line;
        Ok (data, story ++ [Tokens sent])
  end.

Fixpoint parse_lines (only_supporting : bool) (lines : list string)
    (data : list entry) (story : list sentence) : result (list entry) :=
  match lines with
  | [] => Ok data
  | line :: lines' =>
      st ← parse_line only_supporting data story line;
      parse_lines only_supporting lines' (fst st) (snd st)
  end.

Definition parse_stories (lines : list string) (only_supporting : bool)
  : result (list entry) :=
  parse_lines only_supporting lines [] [].

(** [x + y] on what a story holds. *)
Definition add (x y : sentence) : result sentence :=
  match x, y with
  | Tokens a, Tokens b => Ok (Tokens (a ++ b))
  | Blank, Blank => Ok Blank
  | _, _ => Error TypeError
  end.

Fixpoint reduce_from (x : sentence) (rest : list sentence) : result sentence :=
  match rest with
  | [] => Ok x
  | y :: rest' => z ← add x y; reduce_from z rest'
  end.

(** [flatten = lambda data: reduce(lambda x, y: x + y, data)] *)
Definition flatten (data : list sentence) : result sentence :=
  match data with
  | [] => Error TypeError
  | x :: rest => reduce_from x rest
  end.

(** [not max_length] *)
Definition unlimited (max_length : option Z) : bool :=
  match max_length with
  | None => true
  | Some n => (n =? 0)%Z
  end.

(** The list comprehension of [get_stories]. *)
Fixpoint keep_short (max_length : option Z) (data : list entry) : result (list flat) :=
  match data with
  | [] => Ok []
  | (story, q, answer) :: data' =>
      keep ← (if unlimited max_length then Ok true
              else s ← flatten story;
                   Ok (len s <? default 0 max_length)%Z);
      if keep : bool then
        s ← flatten story;
        rest ← keep_short max_length data';
        Ok ((s, q, answer) :: rest)
      else keep_short max_length data'
  end.

Definition get_stories (lines : list string) (only_supporting : bool)
    (max_length : option Z) : result (list flat) :=
  data ← parse_stories lines only_supporting;
  keep_short max_length data.

(** *** The vocabulary and the vectors *)

(** [story + q + [answer]] of the loop that builds the vocabulary; a story
    that is [''] cannot be added to a list. *)
Definition words_of (item : flat) : result (list string) :=
  match item with
  | (Tokens story, q, answer) => Ok (story ++ q ++ [answer])
  | (Blank, _, _) => Error TypeError
  end.

(** [for story, q, answer in ...: vocab |= set(story + q + [answer])] *)
Fixpoint collect (items : list flat) (vocab : gset string) : result (gset string) :=
  match items with
  | [] => Ok vocab
  | item :: items' =>
      words ← words_of item;
      collect items' (vocab ∪ list_to_set words)
  end.

(** [sorted(vocab)] *)
Definition sorted (vocab : gset string) : list string :=
  merge_sort String.le (elements vocab).

(** [dict((c, i + 1) for i, c in enumerate(vocab))], from index [i] on. *)
Fixpoint enumerate_from (i : Z) (vocab : list string) (word_idx : gmap string Z)
  : gmap string Z :=
  match vocab with
  | [] => word_idx
  | c :: vocab' => enumerate_from (i + 1) vocab' (<[c := (i + 1)%Z]> word_idx)
  end.

(** [max(lengths)], which refuses an empty sequence. *)
Definition maximum (lengths : list Z) : result Z :=
  match lengths with
  | [] => Error ValueError
  | n :: lengths' => Ok (fold_left Z.max lengths' n)
  end.

(** [word_idx[w]] *)
Definition word (word_idx : gmap string Z) (w : string) : result Z :=
  match word_idx !! w with
  | Some i => Ok i
  | None => Error (KeyError w)
  end.

(** [[word_idx[w] for w in words]] *)
Fixpoint indices (word_idx : gmap string Z) (words : list string) : result (list Z) :=
  match words with
  | [] => Ok []
  | w :: words' =>
      i ← word word_idx w;
      rest ← indices word_idx words';
      Ok (i :: rest)
  end.

(** What [for w in story] goes through. *)
Definition words (story : sentence) : list string :=
  match story with
  | Tokens ws => ws
  | Blank => []
  end.

(** [y[i] = v] on an array, where a negative [i] counts from the end. *)
Definition assign (y : list Z) (i v : Z) : result (list Z) :=
  let n := Z.of_nat (length y) in
  let j := if (i <? 0)%Z then (n + i)%Z else i in
  if (0 <=? j)%Z && (j <? n)%Z then Ok (<[Z.to_nat j := v]> y)
  else Error IndexError.

(** The body of the loop of [vectorize_stories]; the zeros and the one of
    [y] are kept as integers. *)
Definition vectorize_one (word_idx : gmap string Z) (item : flat)
  : result (list Z * list Z * list Z) :=
  let '(story, query, answer) := item in
  x ← indices word_idx (words story);
  xq ← indices word_idx query;
  let y := replicate (size word_idx + 1) 0%Z in
  i ← word word_idx answer;
  y ← assign y i 1;
  Ok (x, xq, y).

Fixpoint vectorize_loop (word_idx : gmap string Z) (data : list flat)
    (xs xqs ys : list (list Z)) : result (list (list Z) * list (list Z) * list (list Z)) :=
  match data with
  | [] => Ok (xs, xqs, ys)
  | item :: data' =>
      v ← vectorize_one word_idx item;
      let '(x, xq, y) := v in
      vectorize_loop word_idx data' (xs ++ [x]) (xqs ++ [xq]) (ys ++ [y])
  end.

(** [keras.preprocessing.sequence.pad_sequences(sequences, maxlen=...)] *)
Class Padding : Type := {
  pad_sequences : list (list Z) -> Z -> list (list Z)
}.

Context {padding : Padding}.

Definition vectorize_stories (data : list flat) (word_idx : gmap string Z)
    (story_maxlen query_maxlen : Z)
  : result (list (list Z) * list (list Z) * list (list Z)) :=
  v ← vectorize_loop word_idx data [] [] [];
  let '(xs, xqs, ys) := v in
  Ok (pad_sequences xs story_maxlen, pad_sequences xqs query_maxlen, ys).

(** What lines 254 to 266 of [run] leave for the model. *)
Record Prepared : Type := {
  vocab : list string;
  vocab_size : Z;
  word_idx : gmap string Z;
  story_maxlen : Z;
  query_maxlen : Z;
  train_vectors : list (list Z) * list (list Z) * list (list Z);
  test_vectors : list (list Z) * list (list Z) * list (list Z)
}.

(** Lines 254 to 266 of [run]. *)
Definition prepare (train test : list flat) : result Prepared :=
  vocab ← collect (train ++ test) ∅;
  let vocab := sorted vocab in
  let vocab_size := (Z.of_nat (length vocab) + 1)%Z in
  let word_idx := enumerate_from 0 vocab ∅ in
  story_maxlen ← maximum (map (λ item : flat, len (item.1.1)) (train ++ test));
  query_maxlen ← maximum (map (λ item : flat, Z.of_nat (length (item.1.2)))
                              (train ++ test));
  trained ← vectorize_stories train word_idx story_maxlen query_maxlen;
  tested ← vectorize_stories test word_idx story_maxlen query_maxlen;
  Ok {| vocab := vocab; vocab_size := vocab_size; word_idx := word_idx;
        story_maxlen := story_maxlen; query_maxlen := query_maxlen;
        train_vectors := trained; test_vectors := tested |}.

(** *** The loop of [parse_stories] *)

Lemma result_bind_Ok {A B} (m : result A) (k : A -> result B) (b : B) :
  m ≫= k = Ok b <-> exists a, m = Ok a /\ k a = Ok b.
Proof.
  destruct m as [a|e]; cbn; split.
  - eauto.
  - intros (a' & [= ->] & Hk). exact Hk.
  - discriminate.
  - intros (a' & [=] & _).
Qed.

(** The number a line starts with. *)
Definition line_id (line : string) : result Z :=
  line ← decode_strip line;
  match split_once " " line with
  | None => Error ValueError
  | Some (nid, _) => int nid
  end.

(** The question and the answer of a line that holds one. *)
Definition question (line : string) : option (list string * string) :=
  match decode_strip line with
  | Ok line =>
      match split_once " " line with
      | Some (_, line) =>
          if occurs tab line then
            match split tab line with
            | [q; a; _] =>
                match tokenize q with
                | Ok q => Some (q, a)
                | Error _ => None
                end
            | _ => None
            end
          else None
      | None => None
      end
  | Error _ => None
  end.

(** [data] is appended to and never read. *)
Lemma parse_line_data os data story line :
  parse_line os data story line =
  st ← parse_line os [] story line; Ok (data ++ st.1, st.2).
Proof.
  unfold parse_line. destruct (decode_strip line) as [s|e]; [|reflexivity]. cbn.
  destruct (split_once " " s) as [[nid rest]|]; [|reflexivity].
  destruct (int nid) as [n|e]; [|reflexivity]. cbn.
  destruct (occurs tab rest).
  - destruct (split tab rest) as [|q [|a [|sup [|]]]]; try reflexivity.
    destruct (tokenize q); [|reflexivity]. cbn.
    destruct os; [destruct (select _ _)|]; reflexivity.
  - destruct (tokenize rest); [|reflexivity]. cbn. by rewrite app_nil_r.
Qed.

Lemma parse_lines_data os lines data story :
  parse_lines os lines data story =
  d ← parse_lines os lines [] story; Ok (data ++ d).
Proof.
  revert data story. induction lines as [|line lines IH]; intros data story; cbn.
  - by rewrite app_nil_r.
  - rewrite parse_line_data.
    destruct (parse_line os [] story line) as [[d1 s1]|e]; [|reflexivity]. cbn.
    rewrite (IH (data ++ d1)), (IH d1).
    destruct (parse_lines os lines [] s1) as [d|e]; [|reflexivity]. cbn.
    by rewrite app_assoc.
Qed.

(** A line numbered 1 forgets the story read so far. *)
Lemma parse_line_first os data story line :
  line_id line = Ok 1%Z ->
  parse_line os data story line = parse_line os data [] line.
Proof.
  unfold line_id, parse_line. destruct (decode_strip line) as [s|e]; [|reflexivity]. cbn.
  destruct (split_once " " s) as [[nid rest]|]; [|reflexivity].
  intros ->. reflexivity.
Qed.

Lemma parse_lines_app os l1 line l2 data story :
  line_id line = Ok 1%Z ->
  parse_lines os (l1 ++ line :: l2) data story =
  d1 ← parse_lines os l1 data story;
  d2 ← parse_lines os (line :: l2) [] [];
  Ok (d1 ++ d2).
Proof.
  intros Hid. revert data story.
  induction l1 as [|l l1 IH]; intros data story.
  - change (([] ++ line :: l2)) with (line :: l2).
    rewrite parse_lines_data. cbn. by rewrite (parse_line_first _ _ story).
  - cbn. destruct (parse_line os data story l) as [[d s]|e]; [|reflexivity]. cbn.
    apply IH.
Qed.

(** X14.  The lines of a file are read story by story: where a line is
    numbered 1, [parse_stories] of the whole is what it gives for the lines
    before, followed by what it gives for the lines from there on; and it
    fails as the first part does when that fails. *)
Theorem parse_stories_story_by_story l1 line l2 only_supporting :
  line_id line = Ok 1%Z ->
  parse_stories (l1 ++ line :: l2) only_supporting =
  d1 ← parse_stories l1 only_supporting;
  d2 ← parse_stories (line :: l2) only_supporting;
  Ok (d1 ++ d2).
Proof. intros Hid. unfold parse_stories. by apply parse_lines_app. Qed.

Lemma parse_line_question os data story line data' story' :
  parse_line os data story line = Ok (data', story') ->
  map (λ e : entry, (e.1.2, e.2)) data' =
  map (λ e : entry, (e.1.2, e.2)) data ++ option_list (question line).
Proof.
  unfold parse_line, question. destruct (decode_strip line) as [s|e]; [|discriminate]. cbn.
  destruct (split_once " " s) as [[nid rest]|]; [|discriminate].
  destruct (int nid) as [n|e]; [|discriminate]. cbn.
  destruct (occurs tab rest).
  - destruct (split tab rest) as [|q [|a [|sup [|]]]]; try discriminate.
    destruct (tokenize q); [|discriminate]. cbn.
    destruct os; [destruct (select _ _); [|discriminate]|]; cbn;
      intros [= <- <-]; by rewrite map_app.
  - destruct (tokenize rest); [|discriminate]. cbn.
    intros [= <- <-]. by rewrite app_nil_r.
Qed.

Lemma parse_lines_question os lines data story data' :
  parse_lines os lines data story = Ok data' ->
  map (λ e : entry, (e.1.2, e.2)) data' =
  map (λ e : entry, (e.1.2, e.2)) data ++ omap question lines.
Proof.
  revert data story. induction lines as [|line lines IH]; intros data story; cbn.
  - intros [= <-]. by rewrite app_nil_r.
  - destruct (parse_line os data story line) as [[d s]|e] eqn:Hline; [|discriminate]. cbn.
    intros Hrest. rewrite (IH _ _ Hrest), (parse_line_question _ _ _ _ _ _ Hline).
    rewrite <- app_assoc. f_equal. by destruct (question line).
Qed.

(** X15.  In both modes [parse_stories] gives one entry for each line that
    holds a tab, in the order of the lines, with the tokens of the text before
    the first tab as the question and the text between the tabs as the
    answer. *)
Theorem parse_stories_questions lines only_supporting data :
  parse_stories lines only_supporting = Ok data ->
  map (λ e : entry, (e.1.2, e.2)) data = omap question lines.
Proof. intros H. by apply parse_lines_question in H. Qed.

Lemma parse_line_no_space os data story line s :
  decode_strip line = Ok s ->
  split_once " " s = None ->
  parse_line os data story line = Error ValueError.
Proof. unfold parse_line. intros -> Hs. cbn. by rewrite Hs. Qed.

Lemma parse_lines_prefix os l1 l2 data story :
  parse_lines os (l1 ++ l2) data story =
  match parse_lines os l1 data story with
  | Ok _ => parse_lines os (l1 ++ l2) data story
  | Error e => Error e
  end.
Proof.
  revert data story. induction l1 as [|l l1 IH]; intros data story; [reflexivity|].
  cbn. destruct (parse_line os data story l) as [[d s]|e]; [|reflexivity]. cbn.
  apply IH.
Qed.

Lemma parse_lines_stop os l1 line l2 data story :
  (forall data story, parse_line os data story line = Error ValueError) ->
  (exists d, parse_lines os l1 data story = Ok d) ->
  parse_lines os (l1 ++ line :: l2) data story = Error ValueError.
Proof.
  intros Hline. revert data story.
  induction l1 as [|l l1 IH]; intros data story [d Hd]; cbn in *.
  - by rewrite Hline.
  - destruct (parse_line os data story l) as [[d1 s1]|e]; [|discriminate]. cbn in *.
    apply IH. eauto.
Qed.

(** X16.  A line that holds no space once it is stripped (an empty line is
    one) stops [parse_stories] with a [ValueError], in both modes and whatever
    follows it, when the lines before it are read without an error. *)
Theorem parse_stories_line_without_space l1 line l2 only_supporting s data :
  parse_stories l1 only_supporting = Ok data ->
  decode_strip line = Ok s ->
  split_once " " s = None ->
  parse_stories (l1 ++ line :: l2) only_supporting = Error ValueError.
Proof.
  intros Hd Hs Hsplit. unfold parse_stories. apply parse_lines_stop; [|eauto].
  intros ? ?. by eapply parse_line_no_space.
Qed.

(** A sentence that a substory of the default mode can hold. *)
Definition statement (x : sentence) : Prop :=
  exists w ws, x = Tokens (w :: ws).

Lemma truthy_statement x : truthy x = true <-> statement x.
Proof.
  split.
  - destruct x as [[|w ws]|]; try discriminate. intros _. by exists w, ws.
  - by intros (w & ws & ->).
Qed.

Lemma parse_line_statements data story line data' story' :
  parse_line false data story line = Ok (data', story') ->
  Forall (λ e : entry, Forall statement e.1.1) data ->
  Forall (λ e : entry, Forall statement e.1.1) data'.
Proof.
  unfold parse_line. destruct (decode_strip line) as [s|e]; [|discriminate]. cbn.
  destruct (split_once " " s) as [[nid rest]|]; [|discriminate].
  destruct (int nid) as [n|e]; [|discriminate]. cbn.
  destruct (occurs tab rest).
  - destruct (split tab rest) as [|q [|a [|sup [|]]]]; try discriminate.
    destruct (tokenize q); [|discriminate]. cbn.
    intros [= <- <-] Hdata. apply Forall_app. split; [exact Hdata|].
    constructor; [|constructor]. cbn.
    apply Forall_forall. intros x Hx. apply truthy_statement.
    apply list_elem_of_In, filter_In in Hx. tauto.
  - destruct (tokenize rest); [|discriminate]. cbn. by intros [= <- <-].
Qed.

Lemma parse_lines_statements lines data story data' :
  parse_lines false lines data story = Ok data' ->
  Forall (λ e : entry, Forall statement e.1.1) data ->
  Forall (λ e : entry, Forall statement e.1.1) data'.
Proof.
  revert data story. induction lines as [|line lines IH]; intros data story; cbn.
  - by intros [= <-].
  - destruct (parse_line false data story line) as [[d s]|e] eqn:Hline; [|discriminate]. cbn.
    intros Hrest Hdata. eapply IH; [exact Hrest|].
    by eapply parse_line_statements.
Qed.

(** In the default mode a substory holds sentences with at least one token:
    neither the [''] a question leaves in the story nor an empty sentence. *)
Lemma parse_stories_statements lines data :
  parse_stories lines false = Ok data ->
  Forall (λ e : entry, Forall statement e.1.1) data.
Proof. intros H. eapply parse_lines_statements; [exact H | constructor]. Qed.

(** *** [get_stories] *)

Lemma reduce_from_tokens ws rest :
  Forall statement rest ->
  reduce_from (Tokens ws) rest = Ok (Tokens (ws ++ concat (map words rest))).
Proof.
  revert ws. induction rest as [|y rest IH]; intros ws Hrest; cbn.
  - by rewrite app_nil_r.
  - inversion Hrest as [|? ? (w & ws' & ->) Hrest']; subst. cbn.
    rewrite IH by assumption. by rewrite <- app_assoc.
Qed.

Lemma flatten_statements story :
  Forall statement story -> story <> [] ->
  flatten story = Ok (Tokens (concat (map words story))).
Proof.
  destruct story as [|x rest]; [done|]. intros Hs _.
  inversion Hs as [|? ? (w & ws & ->) Hrest]; subst. cbn [flatten].
  by rewrite reduce_from_tokens.
Qed.

(** Whether the comprehension of [get_stories] keeps a flattened story. *)
Definition kept (max_length : option Z) (item : flat) : bool :=
  unlimited max_length || (len item.1.1 <? default 0 max_length)%Z.

Lemma keep_short_Ok max_length data stories :
  keep_short max_length data = Ok stories ->
  exists flats,
    Forall2 (λ (e : entry) (f : flat),
               flatten e.1.1 = Ok f.1.1 /\ e.1.2 = f.1.2 /\ e.2 = f.2) data flats /\
    stories = List.filter (kept max_length) flats.
Proof.
  revert stories. induction data as [|[[story q] a] data IH]; intros stories; cbn.
  - intros [= <-]. exists []. split; [constructor | reflexivity].
  - destruct (unlimited max_length) eqn:Hu; cbn.
    + destruct (flatten story) as [s|e] eqn:Hs; [|discriminate]. cbn.
      destruct (keep_short max_length data) as [rest|e]; [|discriminate]. cbn.
      intros [= <-]. destruct (IH rest eq_refl) as (flats & Hall & ->).
      exists ((s, q, a) :: flats). split; [by constructor|].
      assert (Hk : kept max_length (s, q, a) = true) by (unfold kept; by rewrite Hu).
      cbn [List.filter]. by rewrite Hk.
    + destruct (flatten story) as [s|e] eqn:Hs; [|discriminate]. cbn.
      assert (Hk : kept max_length (s, q, a) = (len s <? default 0 max_length)%Z)
        by (unfold kept; by rewrite Hu).
      destruct (len s <? default 0 max_length)%Z eqn:Hlen.
      * cbn.
        destruct (keep_short max_length data) as [rest|e]; [|discriminate]. cbn.
        intros [= <-]. destruct (IH rest eq_refl) as (flats & Hall & ->).
        exists ((s, q, a) :: flats). split; [by constructor|].
        cbn [List.filter]. by rewrite Hk.
      * intros Hrest. destruct (IH _ Hrest) as (flats & Hall & ->).
        exists ((s, q, a) :: flats). split; [by constructor|].
        cbn [List.filter]. by rewrite Hk.
Qed.

(** X17.  What [get_stories] returns, in both modes: the entries of
    [parse_stories] with their substories flattened, without those whose story
    has [max_length] tokens or more; with no [max_length], or with 0, all of
    them.  So a story of exactly [max_length] tokens is left out. *)
Theorem get_stories_keeps lines only_supporting max_length stories :
  get_stories lines only_supporting max_length = Ok stories ->
  exists data flats,
    parse_stories lines only_supporting = Ok data /\
    Forall2 (λ (e : entry) (f : flat),
               flatten e.1.1 = Ok f.1.1 /\ e.1.2 = f.1.2 /\ e.2 = f.2) data flats /\
    stories = List.filter (kept max_length) flats /\
    (forall n, max_length = Some n -> n <> 0%Z ->
       Forall (λ f : flat, (len f.1.1 < n)%Z) stories).
Proof.
  unfold get_stories. intros H. apply result_bind_Ok in H as (data & Hd & Hk).
  apply keep_short_Ok in Hk as (flats & Hall & ->).
  exists data, flats. repeat split; try assumption.
  intros n -> Hn. apply Forall_forall. intros f Hf.
  apply list_elem_of_In, filter_In in Hf as [_ Hf]. unfold kept in Hf. cbn in Hf.
  apply Z.eqb_neq in Hn. rewrite Hn in Hf. cbn in Hf. by apply Z.ltb_lt.
Qed.

Lemma keep_short_statements max_length data :
  Forall (λ e : entry, Forall statement e.1.1) data ->
  Forall (λ e : entry, e.1.1 <> []) data ->
  keep_short max_length data =
  Ok (List.filter (kept max_length)
        (map (λ e : entry, (Tokens (concat (map words e.1.1)), e.1.2, e.2)) data)).
Proof.
  induction data as [|[[story q] a] data IH]; intros Hs Hne; [reflexivity|].
  inversion Hs as [|? ? Hs1 Hs2]; inversion Hne as [|? ? Hne1 Hne2]; subst.
  cbn in Hs1, Hne1. cbn [keep_short map List.filter fst snd].
  rewrite (flatten_statements story Hs1 Hne1), (IH Hs2 Hne2).
  set (s := Tokens (concat (map words story))).
  assert (Hk : kept max_length (s, q, a) =
               unlimited max_length || (len s <? default 0 max_length)%Z)
    by reflexivity.
  rewrite Hk. destruct (unlimited max_length); cbn; [reflexivity|].
  by destruct (Z.of_nat _ <? default 0 max_length)%Z.
Qed.

Lemma keep_short_empty max_length data :
  Forall (λ e : entry, Forall statement e.1.1) data ->
  Exists (λ e : entry, e.1.1 = []) data ->
  keep_short max_length data = Error TypeError.
Proof.
  induction data as [|[[story q] a] data IH]; intros Hs Hex; [by inversion Hex|].
  inversion Hs as [|? ? Hs1 Hs2]; subst. cbn in Hs1. cbn [keep_short].
  destruct story as [|x rest].
  - cbn. by destruct (unlimited max_length).
  - inversion Hex as [? ? Hnil|? ? Hex']; subst; [discriminate Hnil|].
    rewrite (flatten_statements (x :: rest) Hs1) by discriminate.
    rewrite (IH Hs2 Hex').
    destruct (unlimited max_length); cbn; [reflexivity|].
    by destruct (_ <? _)%Z.
Qed.

(** X18.  [get_stories] in the default mode, on lines [parse_stories] reads
    without an error: when every question has a sentence with a token before
    it in its story, it returns, and every story returned is the list of the
    tokens of those sentences; when one question has none, it raises
    [TypeError], whatever [max_length] is. *)
Theorem get_stories_default lines max_length data :
  parse_stories lines false = Ok data ->
  (Forall (λ e : entry, e.1.1 <> []) data ->
   get_stories lines false max_length =
   Ok (List.filter (kept max_length)
         (map (λ e : entry, (Tokens (concat (map words e.1.1)), e.1.2, e.2)) data))) /\
  (Exists (λ e : entry, e.1.1 = []) data ->
   get_stories lines false max_length = Error TypeError).
Proof.
  intros Hd. pose proof (parse_stories_statements _ _ Hd) as Hs.
  unfold get_stories. rewrite Hd. cbn. split; intros H.
  - by apply keep_short_statements.
  - by apply keep_short_empty.
Qed.

(** *** The vocabulary of [run] *)

(** The words one story brings into the vocabulary. *)
Definition all_words (item : flat) : list string :=
  words item.1.1 ++ item.1.2 ++ [item.2].

Lemma collect_tokens items v :
  Forall (λ f : flat, f.1.1 <> Blank) items ->
  collect items v = Ok (v ∪ list_to_set (concat (map all_words items))).
Proof.
  revert v. induction items as [|[[s q] a] items IH]; intros v Hall; cbn.
  - f_equal. symmetry. apply (right_id_L ∅ (∪)).
  - inversion Hall as [|? ? Hs Hrest]; subst. cbn in Hs.
    destruct s as [ws|]; [|by destruct Hs]. cbn.
    rewrite (IH _ Hrest). f_equal. unfold all_words. cbn [fst snd words].
    rewrite !list_to_set_app_L. by rewrite !(assoc_L (∪)).
Qed.

Lemma collect_blank items v :
  Exists (λ f : flat, f.1.1 = Blank) items ->
  collect items v = Error TypeError.
Proof.
  revert v. induction items as [|[[s q] a] items IH]; intros v Hex; [by inversion Hex|].
  cbn. destruct s as [ws|]; [|reflexivity]. cbn.
  inversion Hex as [? ? Hs|? ? Hrest]; subst; [discriminate Hs|].
  by apply IH.
Qed.

Lemma sorted_Permutation v : sorted v ≡ₚ elements v.
Proof. apply merge_sort_Permutation. Qed.

Lemma elem_of_sorted v w : w ∈ sorted v <-> w ∈ v.
Proof. by rewrite sorted_Permutation, elem_of_elements. Qed.

Lemma NoDup_sorted v : NoDup (sorted v).
Proof. rewrite sorted_Permutation. apply NoDup_elements. Qed.

Lemma enumerate_from_lookup vocab :
  NoDup vocab ->
  forall i m w j,
    enumerate_from i vocab m !! w = Some j <->
    (exists k, vocab !! k = Some w /\ j = (i + Z.of_nat k + 1)%Z) \/
    ((w ∉ vocab) /\ m !! w = Some j).
Proof.
  induction 1 as [|c vocab Hc Hnd IH]; intros i m w j; cbn.
  - split.
    + intros Hm. right. split; [apply not_elem_of_nil | exact Hm].
    + intros [(k & Hk & _) | [_ Hm]]; [by destruct k | exact Hm].
  - rewrite IH. split.
    + intros [(k & Hk & ->) | (Hw & Hm)].
      * left. exists (S k). split; [exact Hk | lia].
      * destruct (decide (c = w)) as [-> | Hne].
        -- rewrite lookup_insert_eq in Hm. left. exists 0%nat.
           split; [reflexivity | injection Hm; lia].
        -- rewrite lookup_insert_ne in Hm by exact Hne. right.
           split; [|exact Hm]. apply not_elem_of_cons. split; [congruence | exact Hw].
    + intros [(k & Hk & ->) | (Hw & Hm)].
      * destruct k as [|k]; cbn in Hk.
        -- injection Hk as ->. right. split; [exact Hc|].
           rewrite lookup_insert_eq. f_equal. lia.
        -- left. exists k. split; [exact Hk | lia].
      * apply not_elem_of_cons in Hw as [Hne Hw]. right. split; [exact Hw|].
        rewrite lookup_insert_ne by congruence. exact Hm.
Qed.

Lemma enumerate_from_size vocab :
  NoDup vocab ->
  forall i m, (forall c, c ∈ vocab -> m !! c = None) ->
    size (enumerate_from i vocab m) = (size m + length vocab)%nat.
Proof.
  induction 1 as [|c vocab Hc Hnd IH]; intros i m Hm; cbn.
  - lia.
  - rewrite IH.
    + rewrite map_size_insert_None; [lia|]. apply Hm. left.
    + intros c' Hc'. rewrite lookup_insert_ne.
      * apply Hm. by right.
      * intros ->. contradiction.
Qed.

(** The index of a word of a vocabulary without repetition is its place in
    it, counted from 1. *)
Lemma word_idx_lookup vocab w j :
  NoDup vocab ->
  enumerate_from 0 vocab ∅ !! w = Some j <->
  (1 <= j)%Z /\ vocab !! Z.to_nat (j - 1) = Some w.
Proof.
  intros Hnd. rewrite (enumerate_from_lookup vocab Hnd). split.
  - intros [(k & Hk & ->) | (_ & Hm)]; [|by rewrite lookup_empty in Hm].
    split; [lia|]. by replace (Z.to_nat (0 + Z.of_nat k + 1 - 1)) with k by lia.
  - intros [Hj Hk]. left. exists (Z.to_nat (j - 1)). split; [exact Hk | lia].
Qed.

Lemma word_idx_size vocab :
  NoDup vocab -> size (enumerate_from 0 vocab ∅) = length vocab.
Proof.
  intros Hnd. rewrite (enumerate_from_size vocab Hnd).
  - by rewrite map_size_empty.
  - intros c _. apply lookup_empty.
Qed.

Lemma fold_left_max_le l n :
  (n <= fold_left Z.max l n)%Z /\ Forall (λ x, (x <= fold_left Z.max l n)%Z) l.
Proof.
  revert n. induction l as [|x l IH]; intros n; cbn.
  - split; [lia | constructor].
  - destruct (IH (Z.max n x)) as [Hn Hl]. split; [lia|].
    constructor; [lia | exact Hl].
Qed.

Lemma fold_left_max_in l n :
  fold_left Z.max l n = n \/ fold_left Z.max l n ∈ l.
Proof.
  revert n. induction l as [|x l IH]; intros n; cbn.
  - by left.
  - destruct (IH (Z.max n x)) as [-> | Hin].
    + destruct (Z.max_spec n x) as [[_ ->] | [_ ->]]; [right; left | by left].
    + right. by right.
Qed.

(** [max] gives a member of a sequence that no member exceeds. *)
Lemma maximum_Ok lengths n :
  maximum lengths = Ok n ->
  n ∈ lengths /\ Forall (λ x, (x <= n)%Z) lengths.
Proof.
  destruct lengths as [|x l]; [discriminate|]. cbn. intros [= <-]. split.
  - destruct (fold_left_max_in l x) as [-> | Hin]; [left | by right].
  - destruct (fold_left_max_le l x) as [Hx Hl]. by constructor.
Qed.

Lemma indices_Ok wi ws js :
  indices wi ws = Ok js <-> Forall2 (λ w j, wi !! w = Some j) ws js.
Proof.
  revert js. induction ws as [|w ws IH]; intros js; cbn.
  - split; [intros [= <-]; constructor | by inversion 1].
  - unfold word. split.
    + destruct (wi !! w) as [j|] eqn:Hw; [|discriminate]. cbn.
      destruct (indices wi ws) as [rest|e]; [|discriminate]. cbn.
      intros [= <-]. constructor; [exact Hw | by apply IH].
    + inversion 1 as [|? j ? rest Hw Hrest]; subst. rewrite Hw. cbn.
      apply IH in Hrest. by rewrite Hrest.
Qed.

Lemma indices_known wi ws :
  Forall (λ w, is_Some (wi !! w)) ws -> exists js, indices wi ws = Ok js.
Proof.
  induction 1 as [|w ws [j Hw] _ [js Hjs]]; cbn; [by eexists|].
  unfold word. rewrite Hw. cbn. rewrite Hjs. by eexists.
Qed.

(** The vector of an answer: zeros with a one at the answer's index. *)
Definition one_hot (n : nat) (i : Z) : list Z :=
  <[Z.to_nat i := 1%Z]> (replicate n 0%Z).

Lemma assign_in_range n i :
  (0 <= i < Z.of_nat n)%Z -> assign (replicate n 0%Z) i 1 = Ok (one_hot n i).
Proof.
  intros Hi. unfold assign. rewrite length_replicate.
  destruct (Z.ltb_spec i 0); [lia|].
  destruct (Z.leb_spec 0 i); [|lia]. destruct (Z.ltb_spec i (Z.of_nat n)); [|lia].
  reflexivity.
Qed.

(** What [vectorize_stories] makes of one story with a dictionary that
    knows its words and gives indices below [len(word_idx) + 1]. *)
Definition vector (wi : gmap string Z) (item : flat) (v : list Z * list Z * list Z)
  : Prop :=
  Forall2 (λ w j, wi !! w = Some j) (words item.1.1) v.1.1 /\
  Forall2 (λ w j, wi !! w = Some j) item.1.2 v.1.2 /\
  exists i, wi !! item.2 = Some i /\ (0 <= i <= Z.of_nat (size wi))%Z /\
            v.2 = one_hot (size wi + 1) i.

Definition in_range (wi : gmap string Z) : Prop :=
  forall w i, wi !! w = Some i -> (0 <= i <= Z.of_nat (size wi))%Z.

Lemma vectorize_one_Ok wi item v :
  in_range wi ->
  vectorize_one wi item = Ok v -> vector wi item v.
Proof.
  intros Hr. destruct item as [[s q] a]. unfold vectorize_one, vector. cbn [fst snd].
  destruct (indices wi (words s)) as [x|e] eqn:Hx; [|discriminate]. cbn.
  destruct (indices wi q) as [xq|e] eqn:Hxq; [|discriminate]. cbn.
  unfold word. destruct (wi !! a) as [i|] eqn:Ha; [|discriminate]. cbn.
  pose proof (Hr _ _ Ha) as Hi.
  rewrite assign_in_range by lia. cbn. intros [= <-]. cbn.
  apply indices_Ok in Hx, Hxq. repeat split; try assumption.
  exists i. repeat split; try reflexivity; lia.
Qed.

Lemma vectorize_one_known wi item :
  in_range wi ->
  Forall (λ w, is_Some (wi !! w)) (all_words item) ->
  exists v, vectorize_one wi item = Ok v.
Proof.
  intros Hr. destruct item as [[s q] a]. unfold all_words. cbn [fst snd].
  rewrite !Forall_app. intros (Hs & Hq & Ha).
  inversion Ha as [|? ? [i Hi] _]; subst.
  destruct (indices_known _ _ Hs) as [x Hx], (indices_known _ _ Hq) as [xq Hxq].
  unfold vectorize_one. rewrite Hx, Hxq. cbn. unfold word. rewrite Hi. cbn.
  pose proof (Hr _ _ Hi). rewrite assign_in_range by lia. cbn. by eexists.
Qed.

Lemma vectorize_loop_Ok wi data xs xqs ys out :
  in_range wi ->
  vectorize_loop wi data xs xqs ys = Ok out ->
  exists vs, Forall2 (vector wi) data vs /\
             out = (xs ++ map (λ v, v.1.1) vs, xqs ++ map (λ v, v.1.2) vs,
                    ys ++ map (λ v, v.2) vs).
Proof.
  intros Hr. revert xs xqs ys. induction data as [|f data IH]; intros xs xqs ys; cbn.
  - intros [= <-]. exists []. split; [constructor|]. cbn. by rewrite !app_nil_r.
  - destruct (vectorize_one wi f) as [[[x xq] y]|e] eqn:Hone; [|discriminate]. cbn.
    intros Hloop. apply IH in Hloop as (vs & Hvs & ->).
    exists ((x, xq, y) :: vs). split.
    + constructor; [by apply vectorize_one_Ok | exact Hvs].
    + cbn. by rewrite <- !app_assoc.
Qed.

Lemma vectorize_loop_known wi data xs xqs ys :
  in_range wi ->
  Forall (λ f, Forall (λ w, is_Some (wi !! w)) (all_words f)) data ->
  exists out, vectorize_loop wi data xs xqs ys = Ok out.
Proof.
  intros Hr Hall. revert xs xqs ys.
  induction Hall as [|f data Hf _ IH]; intros xs xqs ys; cbn; [by eexists|].
  destruct (vectorize_one_known wi f Hr Hf) as [[[x xq] y] ->]. cbn. apply IH.
Qed.

(** X19.  [vectorize_stories] fails in two ways only: with a [KeyError] for
    a word of the data that the dictionary does not hold, or with an
    [IndexError], and then the dictionary holds an index that is not from 0 to
    [len(word_idx)]. *)
Theorem vectorize_stories_failure data wi story_maxlen query_maxlen e :
  vectorize_stories data wi story_maxlen query_maxlen = Error e ->
  (e = IndexError /\ ~ in_range wi) \/
  (exists w f, e = KeyError w /\ f ∈ data /\ w ∈ all_words f /\ wi !! w = None).
Proof.
  unfold vectorize_stories.
  destruct (vectorize_loop wi data [] [] []) as [[[xs xqs] ys]|e'] eqn:Hloop;
    [discriminate|]. cbn. intros [= ->].
  revert Hloop. generalize (@nil (list Z)) at 1 2 3. intros l0.
  generalize l0 at 2 3. intros l1. generalize l1 at 2. intros l2.
  revert l0 l1 l2. induction data as [|f data IH]; intros l0 l1 l2; cbn; [discriminate|].
  destruct (vectorize_one wi f) as [[[x xq] y]|e'] eqn:Hone; cbn.
  - intros Hloop. apply IH in Hloop as [Hidx | (w & f' & -> & Hf' & Hw & Hnone)].
    + by left.
    + right. exists w, f'. repeat split; try assumption. by right.
  - intros [= ->]. clear IH. destruct f as [[s q] a].
    assert (Hind : forall ws e0, indices wi ws = Error e0 ->
                     exists w, e0 = KeyError w /\ w ∈ ws /\ wi !! w = None).
    { induction ws as [|w ws IHws]; intros e0; cbn; [discriminate|].
      unfold word. destruct (wi !! w) as [j|] eqn:Hw; cbn.
      - destruct (indices wi ws) as [js|e1]; [discriminate|]. cbn. intros [= <-].
        destruct (IHws e1 eq_refl) as (w' & -> & Hin & Hnone).
        exists w'. repeat split; [by right | exact Hnone].
      - intros [= <-]. exists w. repeat split; [left | exact Hw]. }
    unfold vectorize_one in Hone.
    destruct (indices wi (words s)) as [x|e0] eqn:Hx; cbn in Hone.
    + destruct (indices wi q) as [xq|e1] eqn:Hxq; cbn in Hone.
      * unfold word in Hone. destruct (wi !! a) as [i|] eqn:Ha; cbn in Hone.
        -- left. unfold assign in Hone. rewrite length_replicate in Hone.
           destruct (_ && _) eqn:Hrange in Hone; [discriminate|].
           injection Hone as <-. split; [reflexivity|]. intros Hr.
           pose proof (Hr _ _ Ha) as Hi.
           destruct (Z.ltb_spec i 0); [lia|].
           destruct (Z.leb_spec 0 i); [|lia].
           destruct (Z.ltb_spec i (Z.of_nat (size wi + 1))); [discriminate|lia].
        -- injection Hone as <-. right. exists a, (s, q, a).
           repeat split; [left | | exact Ha].
           unfold all_words. cbn. rewrite !elem_of_app. right. right. left.
      * injection Hone as <-. destruct (Hind _ _ Hxq) as (w & -> & Hin & Hnone).
        right. exists w, (s, q, a). repeat split; [left | | exact Hnone].
        unfold all_words. cbn. rewrite !elem_of_app. right. by left.
    + injection Hone as <-. destruct (Hind _ _ Hx) as (w & -> & Hin & Hnone).
      right. exists w, (s, q, a). repeat split; [left | | exact Hnone].
      unfold all_words. cbn. rewrite !elem_of_app. by left.
Qed.

(** *** Lines 254 to 266 of [run] *)

Lemma blank_or_not (items : list flat) :
  Forall (λ f : flat, f.1.1 <> Blank) items \/
  Exists (λ f : flat, f.1.1 = Blank) items.
Proof.
  induction items as [|[[s q] a] items [IH|IH]].
  - left. constructor.
  - destruct s as [ws|].
    + left. by constructor.
    + right. by left.
  - right. by right.
Qed.

(** The set the loop of line 255 leaves in [vocab]. *)
Definition vocabulary (items : list flat) : gset string :=
  ∅ ∪ list_to_set (concat (map all_words items)).

Lemma elem_of_vocabulary items w :
  w ∈ vocabulary items <-> exists f, f ∈ items /\ w ∈ all_words f.
Proof.
  unfold vocabulary. rewrite elem_of_union, elem_of_list_to_set, list_elem_of_In, in_concat.
  split.
  - intros [Hw | (ws & Hws & Hw)]; [by apply not_elem_of_empty in Hw|].
    apply in_map_iff in Hws as (f & <- & Hf).
    exists f. by rewrite !list_elem_of_In.
  - intros (f & Hf & Hw). right. exists (all_words f).
    rewrite in_map_iff. split; [|by apply list_elem_of_In].
    exists f. split; [reflexivity | by apply list_elem_of_In].
Qed.

(** [prepare] step by step, when it returns. *)
Lemma prepare_Ok train test p :
  prepare train test = Ok p ->
  Forall (λ f : flat, f.1.1 <> Blank) (train ++ test) /\
  vocab p = sorted (vocabulary (train ++ test)) /\
  vocab_size p = (Z.of_nat (length (vocab p)) + 1)%Z /\
  word_idx p = enumerate_from 0 (vocab p) ∅ /\
  maximum (map (λ item : flat, len item.1.1) (train ++ test)) = Ok (story_maxlen p) /\
  maximum (map (λ item : flat, Z.of_nat (length item.1.2)) (train ++ test))
    = Ok (query_maxlen p) /\
  vectorize_stories train (word_idx p) (story_maxlen p) (query_maxlen p)
    = Ok (train_vectors p) /\
  vectorize_stories test (word_idx p) (story_maxlen p) (query_maxlen p)
    = Ok (test_vectors p).
Proof.
  unfold prepare. destruct (blank_or_not (train ++ test)) as [Hall | Hex].
  - rewrite (collect_tokens _ _ Hall). fold (vocabulary (train ++ test)). cbn.
    destruct (maximum (map (λ item : flat, len item.1.1) _)) as [sm|e] eqn:Hsm;
      [|discriminate].
    cbn.
    destruct (maximum (map (λ item : flat, Z.of_nat (length item.1.2)) _))
      as [qm|e] eqn:Hqm; [|discriminate].
    cbn.
    destruct (vectorize_stories train _ sm qm) as [tr|e] eqn:Htr; [|discriminate]. cbn.
    destruct (vectorize_stories test _ sm qm) as [te|e] eqn:Hte; [|discriminate]. cbn.
    intros [= <-]. cbn. repeat split; assumption || reflexivity.
  - by rewrite (collect_blank _ _ Hex).
Qed.

Lemma in_range_word_idx vocab :
  NoDup vocab -> in_range (enumerate_from 0 vocab ∅).
Proof.
  intros Hnd w i Hw. rewrite (word_idx_size vocab Hnd).
  apply (word_idx_lookup vocab w i Hnd) in Hw as [Hi Hk].
  apply lookup_lt_Some in Hk. lia.
Qed.

(** X20.  The vocabulary [run] builds holds the words of the stories, the
    questions and the answers of the training and the test data, and no other
    word; each once, in the order of [sorted]; and [vocab_size] is one more
    than their number. *)
Theorem prepare_vocabulary train test p :
  prepare train test = Ok p ->
  NoDup (vocab p) /\
  Sorted String.le (vocab p) /\
  (forall w, w ∈ vocab p <-> exists f, f ∈ train ++ test /\ w ∈ all_words f) /\
  vocab_size p = (Z.of_nat (length (vocab p)) + 1)%Z.
Proof.
  intros H. apply prepare_Ok in H as (_ & Hv & Hsize & _). rewrite Hv in *.
  split; [|split; [|split]].
  - apply NoDup_sorted.
  - apply Sorted_merge_sort. apply _.
  - intros w. rewrite elem_of_sorted. apply elem_of_vocabulary.
  - exact Hsize.
Qed.

(** X21.  [word_idx] gives a word of the vocabulary its place in it, counted
    from 1, and holds no other word: so no word has index 0, every index is
    below [vocab_size], two words never share an index, and [len(word_idx) + 1]
    is [vocab_size]. *)
Theorem prepare_word_idx train test p :
  prepare train test = Ok p ->
  (forall w i, word_idx p !! w = Some i <->
               (1 <= i)%Z /\ vocab p !! Z.to_nat (i - 1) = Some w) /\
  (forall w i, word_idx p !! w = Some i -> (1 <= i < vocab_size p)%Z) /\
  (forall w1 w2 i, word_idx p !! w1 = Some i -> word_idx p !! w2 = Some i -> w1 = w2) /\
  (Z.of_nat (size (word_idx p)) + 1)%Z = vocab_size p.
Proof.
  intros H. apply prepare_Ok in H as (_ & Hv & Hsize & Hwi & _).
  assert (Hnd : NoDup (vocab p)) by (rewrite Hv; apply NoDup_sorted).
  rewrite Hwi, Hsize. split; [|split; [|split]].
  - intros w i. by apply word_idx_lookup.
  - intros w i H. apply (word_idx_lookup _ _ _ Hnd) in H as [Hi Hk].
    apply lookup_lt_Some in Hk. lia.
  - intros w1 w2 i H1 H2.
    apply (word_idx_lookup _ _ _ Hnd) in H1 as [_ H1], H2 as [_ H2]. congruence.
  - by rewrite (word_idx_size _ Hnd).
Qed.

Lemma maximum_nonempty lengths : lengths <> [] -> exists n, maximum lengths = Ok n.
Proof. destruct lengths; [done | by eexists]. Qed.

Lemma vectorize_stories_known wi data sm qm :
  in_range wi ->
  Forall (λ f, Forall (λ w, is_Some (wi !! w)) (all_words f)) data ->
  exists out, vectorize_stories data wi sm qm = Ok out.
Proof.
  intros Hr Hall. unfold vectorize_stories.
  destruct (vectorize_loop_known wi data [] [] [] Hr Hall) as [[[xs xqs] ys] ->].
  cbn. by eexists.
Qed.

Lemma word_idx_knows items f :
  f ∈ items ->
  Forall (λ w, is_Some (enumerate_from 0 (sorted (vocabulary items)) ∅ !! w))
         (all_words f).
Proof.
  intros Hf. apply Forall_forall. intros w Hw.
  assert (Hin : w ∈ sorted (vocabulary items)).
  { apply elem_of_sorted, elem_of_vocabulary. eauto. }
  apply list_elem_of_lookup in Hin as [k Hk].
  exists (Z.of_nat k + 1)%Z. apply word_idx_lookup; [apply NoDup_sorted|].
  split; [lia|]. by replace (Z.to_nat (Z.of_nat k + 1 - 1)) with k by lia.
Qed.

Lemma prepare_tokens train test :
  Forall (λ f : flat, f.1.1 <> Blank) (train ++ test) -> train ++ test <> [] ->
  exists p, prepare train test = Ok p.
Proof.
  intros Hall Hne. unfold prepare.
  rewrite (collect_tokens _ _ Hall). fold (vocabulary (train ++ test)). cbn.
  destruct (maximum_nonempty (map (λ item : flat, len item.1.1) (train ++ test)))
    as [sm ->]; [by destruct (train ++ test)|].
  destruct (maximum_nonempty
              (map (λ item : flat, Z.of_nat (length item.1.2)) (train ++ test)))
    as [qm ->]; [by destruct (train ++ test)|].
  cbn.
  pose proof (in_range_word_idx _ (NoDup_sorted (vocabulary (train ++ test)))) as Hr.
  destruct (vectorize_stories_known _ train sm qm Hr) as [tr ->].
  { apply Forall_forall. intros f Hf. apply word_idx_knows.
    apply elem_of_app. by left. }
  destruct (vectorize_stories_known _ test sm qm Hr) as [te ->].
  { apply Forall_forall. intros f Hf. apply word_idx_knows.
    apply elem_of_app. by right. }
  cbn. by eexists.
Qed.

(** X22.  When lines 254 to 266 of [run] return and when they do not: they
    return when there is at least one story and no story is [''], then no
    word is missing from [word_idx] and no index is out of the range of [y];
    a story that is [''] gives a [TypeError], and no story at all a
    [ValueError] from [max]. *)
Theorem prepare_returns train test :
  (Forall (λ f : flat, f.1.1 <> Blank) (train ++ test) -> train ++ test <> [] ->
   exists p, prepare train test = Ok p) /\
  (Exists (λ f : flat, f.1.1 = Blank) (train ++ test) ->
   prepare train test = Error TypeError) /\
  (train ++ test = [] -> prepare train test = Error ValueError).
Proof.
  split; [|split].
  - apply prepare_tokens.
  - intros Hex. unfold prepare. by rewrite (collect_blank _ _ Hex).
  - intros Hnil. unfold prepare. by rewrite Hnil.
Qed.

Lemma vectorize_stories_Ok wi data sm qm out :
  in_range wi ->
  vectorize_stories data wi sm qm = Ok out ->
  exists vs, Forall2 (vector wi) data vs /\
             out = (pad_sequences (map (λ v, v.1.1) vs) sm,
                    pad_sequences (map (λ v, v.1.2) vs) qm,
                    map (λ v, v.2) vs).
Proof.
  intros Hr. unfold vectorize_stories.
  destruct (vectorize_loop wi data [] [] []) as [[[xs xqs] ys]|e] eqn:Hloop;
    [|discriminate].
  apply vectorize_loop_Ok in Hloop as (vs & Hvs & [= -> -> ->]); [|exact Hr].
  cbn. intros [= <-]. by exists vs.
Qed.

(** X23.  The vectors [run] trains and tests on: for every story, the indices
    of its words and of the words of its question, which are what
    [pad_sequences] is given with [story_maxlen] and [query_maxlen], and a row
    of [vocab_size] zeros with a one at the index of the answer; no story is
    longer than [story_maxlen], no question than [query_maxlen], and one story
    and one question have that length. *)
Theorem prepare_vectors train test p :
  prepare train test = Ok p ->
  (exists vs ts,
     Forall2 (vector (word_idx p)) train vs /\
     Forall2 (vector (word_idx p)) test ts /\
     train_vectors p = (pad_sequences (map (λ v, v.1.1) vs) (story_maxlen p),
                        pad_sequences (map (λ v, v.1.2) vs) (query_maxlen p),
                        map (λ v, v.2) vs) /\
     test_vectors p = (pad_sequences (map (λ v, v.1.1) ts) (story_maxlen p),
                       pad_sequences (map (λ v, v.1.2) ts) (query_maxlen p),
                       map (λ v, v.2) ts) /\
     Forall (λ v, length v.2 = Z.to_nat (vocab_size p)) (vs ++ ts)) /\
  Forall (λ f : flat, (len f.1.1 <= story_maxlen p)%Z) (train ++ test) /\
  Forall (λ f : flat, (Z.of_nat (length f.1.2) <= query_maxlen p)%Z) (train ++ test) /\
  (exists f, f ∈ train ++ test /\ len f.1.1 = story_maxlen p) /\
  (exists f, f ∈ train ++ test /\ Z.of_nat (length f.1.2) = query_maxlen p).
Proof.
  intros H. apply prepare_Ok in H as (_ & Hv & Hsize & Hwi & Hsm & Hqm & Htr & Hte).
  assert (Hnd : NoDup (vocab p)) by (rewrite Hv; apply NoDup_sorted).
  assert (Hr : in_range (word_idx p)) by (rewrite Hwi; by apply in_range_word_idx).
  apply maximum_Ok in Hsm as [Hsm1 Hsm2], Hqm as [Hqm1 Hqm2].
  split; [|split; [|split; [|split]]].
  - apply vectorize_stories_Ok in Htr as (vs & Hvs & Htr); [|exact Hr].
    apply vectorize_stories_Ok in Hte as (ts & Hts & Hte); [|exact Hr].
    exists vs, ts. repeat split; try assumption.
    assert (Hlen : forall data l, Forall2 (vector (word_idx p)) data l ->
                     Forall (λ v, length v.2 = Z.to_nat (vocab_size p)) l).
    { intros data l Hl. induction Hl as [|f v data l (_ & _ & i & _ & _ & Hy) _ IH];
        constructor; [|exact IH].
      rewrite Hy. unfold one_hot. rewrite length_insert, length_replicate.
      rewrite Hsize, Hwi, (word_idx_size _ Hnd). lia. }
    apply Forall_app. split; eapply Hlen; eassumption.
  - apply Forall_forall. intros f Hf. rewrite Forall_forall in Hsm2. apply Hsm2.
    apply list_elem_of_In, in_map_iff. exists f. split; [reflexivity|].
    by apply list_elem_of_In.
  - apply Forall_forall. intros f Hf. rewrite Forall_forall in Hqm2. apply Hqm2.
    apply list_elem_of_In, in_map_iff. exists f. split; [reflexivity|].
    by apply list_elem_of_In.
  - apply list_elem_of_In, in_map_iff in Hsm1 as (f & Hf1 & Hf2).
    exists f. split; [by apply list_elem_of_In | exact Hf1].
  - apply list_elem_of_In, in_map_iff in Hqm1 as (f & Hf1 & Hf2).
    exists f. split; [by apply list_elem_of_In | exact Hf1].
Qed.

Lemma get_stories_default_tokens lines max_length stories :
  get_stories lines false max_length = Ok stories ->
  Forall (λ f : flat, f.1.1 <> Blank) stories.
Proof.
  unfold get_stories. intros H. apply result_bind_Ok in H as (data & Hd & Hk).
  apply parse_stories_statements in Hd.
  apply keep_short_Ok in Hk as (flats & Hall & ->).
  apply Forall_forall. intros f Hf.
  apply list_elem_of_In, filter_In in Hf as [Hf _]. apply list_elem_of_In in Hf.
  clear -Hall Hd Hf. induction Hall as [|e f' data flats (Hflat & _) _ IH].
  - by apply not_elem_of_nil in Hf.
  - inversion Hd as [|? ? He Hd']; subst.
    apply elem_of_cons in Hf as [-> | Hf]; [|by apply IH].
    destruct (e.1.1) as [|x rest] eqn:Hstory; [discriminate Hflat|].
    rewrite (flatten_statements (x :: rest) He) in Hflat by discriminate.
    injection Hflat as <-. discriminate.
Qed.

(** X24.  What [get_stories] returns in its default mode, as [run] calls it,
    is data lines 254 to 266 of [run] accept: with one story or more in the
    training and the test data together they return. *)
Theorem prepare_after_get_stories l1 l2 m1 m2 train test :
  get_stories l1 false m1 = Ok train ->
  get_stories l2 false m2 = Ok test ->
  train ++ test <> [] ->
  exists p, prepare train test = Ok p.
Proof.
  intros H1 H2 Hne. apply prepare_tokens; [|exact Hne].
  apply Forall_app. split; eapply get_stories_default_tokens; eassumption.
Qed.

End Reading.

(** *** A reading of plain lines, for the examples *)

(** The lines of the examples are ASCII, their words are separated by single
    spaces and their numbers are written in decimal digits; on such lines
    the functions below are what Python's are. *)

Definition is_space (c : ascii) : bool :=
  let n := nat_of_ascii c in
  (n =? 32)%nat || ((9 <=? n)%nat && (n <=? 13)%nat).

Fixpoint lstrip (s : string) : string :=
  match s with
  | String c s' => if is_space c then lstrip s' else s
  | EmptyString => EmptyString
  end.

Definition strip (s : string) : string :=
  String.rev (lstrip (String.rev (lstrip s))).

Definition digit (c : ascii) : option Z :=
  let n := Z.of_nat (nat_of_ascii c) in
  if (48 <=? n)%Z && (n <=? 57)%Z then Some (n - 48)%Z else None.

Fixpoint number (acc : Z) (s : string) : option Z :=
  match s with
  | EmptyString => Some acc
  | String c s' =>
      match digit c with
      | Some d => number (10 * acc + d) s'
      | None => None
      end
  end.

Definition decimal (s : string) : result Z :=
  match s with
  | EmptyString => Error ValueError
  | _ => match number 0 s with
         | Some n => Ok n
         | None => Error ValueError
         end
  end.

Definition split_words (s : string) : list string :=
  List.filter (λ w, negb (String.eqb w EmptyString)) (split " " s).

Definition plain_text : Text := {|
  decode_strip := λ line, Ok (strip line);
  tokenize := λ sent, Ok (split_words sent);
  int := decimal;
  fields := split_words
|}.

(** Zeros in front of a short sequence, the end of a long one. *)
Definition zero_padding : Padding := {|
  pad_sequences := λ sequences maxlen,
    map (λ x, replicate (Z.to_nat maxlen - length x) 0%Z
              ++ drop (length x - Z.to_nat maxlen) x) sequences
|}.

Definition TAB : string := String tab EmptyString.

(** Two stories of a task file, the first with ten tokens. *)
Definition bathroom : list string :=
  [ "1 Mary moved to the bathroom";
    "2 John went to the hallway";
    "3 Where is Mary" ++ TAB ++ "bathroom" ++ TAB ++ "1" ]%string.

Definition hallway : list string :=
  [ "1 Daniel went back";
    "2 Where is Daniel" ++ TAB ++ "hallway" ++ TAB ++ "1" ]%string.

Definition two_stories : list string := bathroom ++ hallway.

(** A file that starts with a question. *)
Definition question_first : list string :=
  [ "1 Where is Mary" ++ TAB ++ "bathroom" ++ TAB ++ "1" ]%string.

Lemma parse_stories_story_by_story_witness :
  @parse_stories plain_text two_stories false =
  d1 ← @parse_stories plain_text bathroom false;
  d2 ← @parse_stories plain_text hallway false;
  Ok (d1 ++ d2).
Proof.
  exact (@parse_stories_story_by_story plain_text bathroom
           "1 Daniel went back"%string
           [ "2 Where is Daniel" ++ TAB ++ "hallway" ++ TAB ++ "1" ]%string
           false eq_refl).
Defined.

Lemma parse_stories_questions_witness :
  exists data,
    @parse_stories plain_text two_stories true = Ok data /\
    map (λ e : entry, (e.1.2, e.2)) data =
    [ (["Where"; "is"; "Mary"], "bathroom"); (["Where"; "is"; "Daniel"], "hallway") ]%string.
Proof.
  assert (H : exists data, @parse_stories plain_text two_stories true = Ok data)
    by (eexists; vm_compute; reflexivity).
  destruct H as [data H]. exists data. split; [exact H|].
  rewrite (@parse_stories_questions plain_text two_stories true data H).
  vm_compute. reflexivity.
Defined.

Lemma parse_stories_line_without_space_witness :
  @parse_stories plain_text
    (bathroom ++ EmptyString :: hallway) false = Error ValueError.
Proof.
  assert (H : exists data, @parse_stories plain_text bathroom false = Ok data)
    by (eexists; vm_compute; reflexivity).
  destruct H as [data H].
  exact (@parse_stories_line_without_space plain_text bathroom EmptyString hallway
           false EmptyString data H eq_refl eq_refl).
Defined.

Lemma get_stories_keeps_witness :
  exists stories,
    @get_stories plain_text two_stories false (Some 10%Z) = Ok stories /\
    length stories = 1%nat /\
    Forall (λ f : flat, (len f.1.1 < 10)%Z) stories.
Proof.
  assert (H : exists stories,
             @get_stories plain_text two_stories false (Some 10%Z) = Ok stories /\
             length stories = 1%nat)
    by (eexists; split; vm_compute; reflexivity).
  destruct H as (stories & H & Hlen). exists stories.
  split; [exact H|]. split; [exact Hlen|].
  destruct (@get_stories_keeps plain_text two_stories false (Some 10%Z) stories H)
    as (data & flats & _ & _ & _ & Hshort).
  apply (Hshort 10%Z eq_refl). discriminate.
Defined.

Lemma get_stories_default_witness :
  @get_stories plain_text two_stories false None =
  Ok [ (Tokens ["Mary"; "moved"; "to"; "the"; "bathroom";
                "John"; "went"; "to"; "the"; "hallway"],
        ["Where"; "is"; "Mary"], "bathroom");
       (Tokens ["Daniel"; "went"; "back"], ["Where"; "is"; "Daniel"], "hallway") ]%string
  /\ @get_stories plain_text question_first false (Some 10%Z) = Error TypeError.
Proof.
  split.
  - assert (H : exists data, @parse_stories plain_text two_stories false = Ok data)
      by (eexists; vm_compute; reflexivity).
    destruct H as [data H].
    destruct (@get_stories_default plain_text two_stories None data H) as [Hok _].
    rewrite Hok.
    + revert H. vm_compute. intros [= <-]. reflexivity.
    + revert H. vm_compute. intros [= <-]. repeat constructor; discriminate.
  - assert (H : exists data, @parse_stories plain_text question_first false = Ok data)
      by (eexists; vm_compute; reflexivity).
    destruct H as [data H].
    destruct (@get_stories_default plain_text question_first (Some 10%Z) data H)
      as [_ Hfail].
    apply Hfail. revert H. vm_compute. intros [= <-]. by left.
Defined.

(** A dictionary that knows the story and not the question. *)
Definition story_only : gmap string Z :=
  {[ "Daniel" := 1%Z; "went" := 2%Z; "back" := 3%Z ]}%string.

Lemma vectorize_stories_failure_witness :
  (KeyError "Where" = IndexError /\ ~ in_range story_only) \/
  (exists w f,
     KeyError "Where" = KeyError w /\
     f ∈ [ (Tokens ["Daniel"; "went"; "back"], ["Where"; "is"; "Daniel"], "hallway") ]%string /\
     w ∈ all_words f /\ story_only !! w = None).
Proof.
  apply (@vectorize_stories_failure zero_padding
           [ (Tokens ["Daniel"; "went"; "back"], ["Where"; "is"; "Daniel"], "hallway") ]%string
           story_only 3%Z 3%Z).
  vm_compute. reflexivity.
Defined.

(** What [get_stories] makes of the two stories, as the training and as the
    test data. *)
Definition one_story : list flat :=
  [ (Tokens ["Daniel"; "went"; "back"], ["Where"; "is"; "Daniel"], "hallway") ]%string.

Definition other_story : list flat :=
  [ (Tokens ["Mary"; "moved"; "to"; "the"; "bathroom"],
     ["Where"; "is"; "Mary"], "bathroom") ]%string.

Lemma prepare_vocabulary_witness :
  exists p,
    @prepare zero_padding one_story other_story = Ok p /\
    NoDup (vocab p) /\
    ("hallway"%string ∈ vocab p <->
     exists f, f ∈ one_story ++ other_story /\ "hallway"%string ∈ all_words f) /\
    vocab_size p = (Z.of_nat (length (vocab p)) + 1)%Z.
Proof.
  assert (H : exists p, @prepare zero_padding one_story other_story = Ok p)
    by (eexists; vm_compute; reflexivity).
  destruct H as [p H]. exists p. split; [exact H|].
  destruct (@prepare_vocabulary zero_padding one_story other_story p H)
    as (Hnd & _ & Hw & Hsize).
  split; [exact Hnd|]. split; [apply Hw | exact Hsize].
Defined.

Lemma prepare_word_idx_witness :
  exists p,
    @prepare zero_padding one_story other_story = Ok p /\
    (forall w i, word_idx p !! w = Some i -> (1 <= i < vocab_size p)%Z) /\
    (Z.of_nat (size (word_idx p)) + 1)%Z = vocab_size p.
Proof.
  assert (H : exists p, @prepare zero_padding one_story other_story = Ok p)
    by (eexists; vm_compute; reflexivity).
  destruct H as [p H]. exists p. split; [exact H|].
  destruct (@prepare_word_idx zero_padding one_story other_story p H)
    as (_ & Hrange & _ & Hsize).
  split; [exact Hrange | exact Hsize].
Defined.

Lemma prepare_vectors_witness :
  exists p,
    @prepare zero_padding one_story other_story = Ok p /\
    Forall (λ f : flat, (len f.1.1 <= story_maxlen p)%Z) (one_story ++ other_story) /\
    story_maxlen p = 5%Z.
Proof.
  assert (H : exists p, @prepare zero_padding one_story other_story = Ok p /\
                        story_maxlen p = 5%Z)
    by (eexists; split; vm_compute; reflexivity).
  destruct H as (p & H & Hmax). exists p. split; [exact H|].
  destruct (@prepare_vectors zero_padding one_story other_story p H)
    as (_ & Hlen & _).
  split; [exact Hlen | exact Hmax].
Defined.

Lemma prepare_after_get_stories_witness :
  exists train test p,
    @get_stories plain_text hallway false None = Ok train /\
    @get_stories plain_text bathroom false None = Ok test /\
    @prepare zero_padding train test = Ok p.
Proof.
  assert (H1 : exists train, @get_stories plain_text hallway false None = Ok train
                             /\ train <> [])
    by (eexists; split; [vm_compute; reflexivity | discriminate]).
  assert (H2 : exists test, @get_stories plain_text bathroom false None = Ok test)
    by (eexists; vm_compute; reflexivity).
  destruct H1 as (train & H1 & Hne), H2 as (test & H2).
  destruct (@prepare_after_get_stories plain_text zero_padding hallway bathroom
              None None train test H1 H2) as [p Hp].
  - destruct train; [done | discriminate].
  - exists train, test, p. split; [exact H1|]. split; [exact H2 | exact Hp].
Defined.

End Stories.
